(** * atingester: the stream ingestion and normalisation engine

    A shallow embedding of [src/stream/firehose.ts], [src/stream/jetstream.ts]
    and [src/stream/turbostream.ts].  Exceptions are values of an error monad,
    callbacks and collaborators' calls are entries of a log threaded through a
    state monad, and the libraries the code imports (the repository decoder,
    the identity resolver, the keep-alive socket, the JS runtime) are the
    fields of interface classes. *)

From Stdlib Require Import ZArith.
From stdpp Require Import base option list strings gmap.

(** ** Thrown values and fallible computations *)

(** What a [throw] can carry.  The code looks at two things only: whether the
    value is an instance of the repository decoder's [RepoVerificationError],
    and its [name] property. *)
Inductive Exn : Type :=
| RepoVerificationError (msg : string)
| NamedError (name msg : string)
| Nullish.

(** [new Error(msg)] *)
Definition newError (msg : string) : Exn := NamedError "Error" msg.

Definition exn_name (e : Exn) : option string :=
  match e with
  | RepoVerificationError _ => Some "Error"
  | NamedError n _ => Some n
  | Nullish => None
  end.

(** [err instanceof RepoVerificationError] *)
Definition instanceofRepoVerificationError (e : Exn) : bool :=
  match e with RepoVerificationError _ => true | _ => false end.

(** [err && err['name'] === 'AbortError'] *)
Definition isAbortError (e : Exn) : bool :=
  match exn_name e with
  | Some n => bool_decide (n = "AbortError")
  | None => false
  end.

Inductive Result (A : Type) : Type :=
| Ok (a : A)
| Throw (e : Exn).
Arguments Ok {A} a.
Arguments Throw {A} e.

#[global] Instance Result_ret : MRet Result := @Ok.
#[global] Instance Result_bind : MBind Result := λ A B f m,
  match m with Ok a => f a | Throw e => Throw e end.
#[global] Instance Result_fmap : FMap Result := λ A B f m,
  match m with Ok a => Ok (f a) | Throw e => Throw e end.

(** [xs.map(f)] for a callback that can throw: stops at the first throw. *)
Fixpoint mapR {A B} (f : A → Result B) (xs : list A) : Result (list B) :=
  match xs with
  | [] => Ok []
  | x :: rest => y ← f x; ys ← mapR f rest; Ok (y :: ys)
  end.

(** [xs.filter(f)] for a callback that can throw. *)
Fixpoint filterR {A} (f : A → Result bool) (xs : list A) : Result (list A) :=
  match xs with
  | [] => Ok []
  | x :: rest =>
      keep ← f x; ys ← filterR f rest; Ok (if keep : bool then x :: ys else ys)
  end.

(** [arr.includes(x)] on strings. *)
Definition includes (arr : list string) (x : string) : bool :=
  bool_decide (x ∈ arr).

(** [arr.length === 0] *)
Definition isEmpty {A} (arr : list A) : bool :=
  match arr with [] => true | _ => false end.

(** ** The JavaScript runtime the code relies on *)

Class JsRuntime : Type := {
  Number : Type;
  (** a numeric literal of the source *)
  Number_ofZ : Z → Number;
  (** [n.toString()] *)
  Number_toString : Number → string;
  JsDate : Type;
  (** [d.toISOString()], which throws a RangeError on an invalid date *)
  Date_toISOString : JsDate → Result string;
  (** [new Date(time_us / 10**3)] *)
  Date_ofMicros : Number → JsDate;
  (** the percent-encoding [URLSearchParams.toString] applies to a name or
      a value *)
  formUrlEncode : string → string;
}.

Section QueryParams.
Context `{JsRuntime}.

(** The values a parameter object can hold, by what [typeof],
    [instanceof Date] and [Array.isArray] tell of them. *)
Inductive JsValue : Type :=
| VString (s : string)
| VNumber (n : Number)
| VBoolean (b : bool)
| VUndefined
| VNull
| VDate (d : JsDate)
| VArray (elems : list JsValue)
| VObject
| VFunction
| VSymbol
| VBigInt.

Definition typeof (value : JsValue) : string :=
  match value with
  | VString _ => "string"
  | VNumber _ => "number"
  | VBoolean _ => "boolean"
  | VUndefined => "undefined"
  | VNull | VDate _ | VArray _ | VObject => "object"
  | VFunction => "function"
  | VSymbol => "symbol"
  | VBigInt => "bigint"
  end.

(** [string | string[]] *)
Inductive Encoded : Type :=
| EncString (s : string)
| EncArray (l : list string).

(** [arr.flatMap(f)] for a callback that gives a string or an array of
    strings, or throws. *)
Fixpoint flatMapR {A} (f : A → Result Encoded) (arr : list A)
  : Result (list string) :=
  match arr with
  | [] => Ok []
  | v :: rest =>
      enc ← f v;
      more ← flatMapR f rest;
      Ok match enc with
         | EncString s => s :: more
         | EncArray ss => ss ++ more
         end
  end.

(** A parameter object, as [Object.entries] enumerates it. *)
Definition ParamsObject : Type := list (string * JsValue).

(** [URLSearchParams]: the list of name-value pairs. *)
Definition URLSearchParams : Type := list (string * string).

Definition params_append (params : URLSearchParams) (key value : string)
  : URLSearchParams :=
  params ++ [(key, value)].

(** [params.set(key, value)]: the first pair named [key] takes the value
    and the others named [key] go; without one, the pair is appended. *)
Fixpoint params_set (params : URLSearchParams) (key value : string)
  : URLSearchParams :=
  match params with
  | [] => [(key, value)]
  | (k, v) :: rest =>
      if bool_decide (k = key)
      then (key, value) :: filter (λ kv, kv.1 ≠ key) rest
      else (k, v) :: params_set rest key value
  end.

Definition params_toString (params : URLSearchParams) : string :=
  String.concat "&"
    (map (λ kv, formUrlEncode kv.1 +:+ "=" +:+ formUrlEncode kv.2) params).
End QueryParams.


(** ** The data the libraries hand over, and the libraries themselves *)

Class RepoData : Type := {
  (** content-id; [a.equals(b)] is equality of content-ids *)
  CID : Type;
  CID_eq_dec :: EqDecision CID;
  (** [Uint8Array] *)
  Bytes : Type;
  (** the block set of a decoded container; [blocks.get(cid)] *)
  BlockMap : Type;
  BlockMap_get : BlockMap → CID → option Bytes;
  RepoRecord : Type;
  SigningKey : Type;
  DidDocument : Type;
  (** a frame of the socket, and the body of a decoded frame *)
  FrameChunk : Type;
  FrameBody : Type;
  (** the JSON value under [commit.record] of a Jetstream frame *)
  JetstreamRecord : Type;
  LexValue : Type;
  HydratedMetadata : Type;
  ZstdDictionary : Type;
}.

Section Data.
Context `{JsRuntime} `{RepoData}.

(** [AtUri.make(did, path)]: the URI at://did/path, kept as its two parts.
    [collection] and [rkey] are read off the path by the library. *)
Record AtUri : Type := { uri_host : string; uri_pathname : string }.
Definition AtUri_make (host path : string) : AtUri :=
  {| uri_host := host; uri_pathname := path |}.

(** com.atproto.sync.subscribeRepos *)
Record RepoOp : Type := {
  action : string;
  path : string;
  cid : option CID;    (* CID | null *)
}.

Record Commit : Type := {
  c_seq : Number;
  c_repo : string;
  c_commit : CID;
  c_rev : string;
  c_blocks : Bytes;
  c_ops : list RepoOp;
  c_time : string;
}.

Record Sync : Type := {
  s_seq : Number; s_did : string; s_blocks : Bytes;
  s_rev : string; s_time : string;
}.

Record Identity : Type := {
  i_seq : Number; i_did : string; i_time : string;
}.

Record Account : Type := {
  a_seq : Number;
  a_did : string;
  a_time : string;
  a_active : bool;
  a_status : option string;    (* status?: string *)
}.

Inductive RepoEvent : Type :=
| EvtCommit (evt : Commit)
| EvtSync (evt : Sync)
| EvtIdentity (evt : Identity)
| EvtAccount (evt : Account)
| EvtInfo.

(** The claim handed to [verifyProofs]. *)
Record RecordCidClaim : Type := {
  claim_collection : string;
  claim_rkey : string;
  claim_cid : option CID;
}.

(** @atproto/sync's events *)
Record CommitMeta : Type := {
  m_seq : Number;
  m_time : string;
  m_commit : CID;
  m_blocks : BlockMap;
  m_rev : string;
  m_uri : AtUri;
  m_did : string;
  m_collection : string;
  m_rkey : string;
}.

Record CommitEvt : Type := {
  ce_meta : CommitMeta;
  ce_event : string;              (* 'create' | 'update' | 'delete' *)
  ce_cid : option CID;            (* absent on a delete *)
  ce_record : option RepoRecord;  (* absent on a delete *)
}.

Record SyncEvt : Type := {
  se_seq : Number; se_time : string; se_did : string;
  se_cid : CID; se_rev : string; se_blocks : BlockMap;
}.

Record IdentityEvt : Type := {
  ie_seq : Number; ie_time : string; ie_did : string;
  ie_handle : option string;
  ie_didDocument : option DidDocument;
}.

Record AccountEvt : Type := {
  ae_seq : Number;
  ae_time : string;
  ae_did : string;
  ae_active : bool;
  ae_status : option string;      (* AccountStatus | undefined *)
}.

Inductive Event : Type :=
| ECommit (e : CommitEvt)
| ESync (e : SyncEvt)
| EIdentity (e : IdentityEvt)
| EAccount (e : AccountEvt).

(** A decoded frame: [message.header.t] and [message.body]. *)
Record FrameMessage : Type := {
  header_t : option string;
  body : option FrameBody;
}.

(** src/types.ts: the frames of the JSON streams *)
Inductive JetstreamEventKindCommitOperation : Type :=
| OperationCreate (rev collection rkey : string)
    (record : JetstreamRecord) (cid : string)
| OperationUpdate (rev collection rkey : string)
    (record : JetstreamRecord) (cid : string)
| OperationDelete (rev collection rkey : string).

Definition operation_rev (c : JetstreamEventKindCommitOperation) : string :=
  match c with
  | OperationCreate rev _ _ _ _ | OperationUpdate rev _ _ _ _
  | OperationDelete rev _ _ => rev
  end.

Definition operation_collection (c : JetstreamEventKindCommitOperation)
  : string :=
  match c with
  | OperationCreate _ collection _ _ _ | OperationUpdate _ collection _ _ _
  | OperationDelete _ collection _ => collection
  end.

Definition operation_rkey (c : JetstreamEventKindCommitOperation) : string :=
  match c with
  | OperationCreate _ _ rkey _ _ | OperationUpdate _ _ rkey _ _
  | OperationDelete _ _ rkey => rkey
  end.

(** [kind: 'commit'] *)
Record JetstreamEventKindCommit : Type := {
  kc_did : string;
  kc_time_us : Number;
  kc_commit : JetstreamEventKindCommitOperation;
}.

Inductive JetstreamEventKind : Type :=
| KindCommit (evt : JetstreamEventKindCommit)
| KindAccount (did : string) (time_us : Number) (account : Account)
| KindIdentity (did : string) (time_us : Number) (identity : Identity).

Definition kind_did (evt : JetstreamEventKind) : string :=
  match evt with
  | KindCommit evt => kc_did evt
  | KindAccount did _ _ | KindIdentity did _ _ => did
  end.

Definition kind_time_us (evt : JetstreamEventKind) : Number :=
  match evt with
  | KindCommit evt => kc_time_us evt
  | KindAccount _ time_us _ | KindIdentity _ time_us _ => time_us
  end.

Record TurbostreamEventKind : Type := {
  t_at_uri : string;
  t_did : string;
  t_time_us : option Number;              (* number | null *)
  t_message : JetstreamEventKindCommit;
  t_hydrated_metadata : HydratedMetadata;
}.

(** src/types.ts: the normalised events of the JSON streams *)
Record JetstreamCommitMeta : Type := {
  jm_time_us : Number;
  jm_time : string;
  jm_rev : string;
  jm_uri : AtUri;
  jm_did : string;
  jm_collection : string;
  jm_rkey : string;
}.

Record JetstreamCommitEvt : Type := {
  jce_meta : JetstreamCommitMeta;
  jce_event : string;
  jce_cid : option CID;
  jce_record : option RepoRecord;
}.

Inductive JetstreamEvent : Type :=
| JCommit (e : JetstreamCommitEvt)
| JIdentity (e : IdentityEvt) (time_us : Number)
| JAccount (e : AccountEvt) (time_us : Number).

Record TurbostreamCommitEvt : Type := {
  tce_meta : JetstreamCommitMeta;
  tce_hydrated_metadata : HydratedMetadata;
  tce_event : string;
  tce_cid : option CID;
  tce_record : option RepoRecord;
}.
End Data.

(** The functions of @atproto/repo, @atproto/identity, @atproto/syntax,
    @atproto/xrpc-server, @atproto/lexicon, multiformats, zstd-wasm and of the
    generated lexicon module, as the code calls them.  The identity resolver
    answers by a function of its arguments: within one envelope the code
    never asks it the same question twice. *)
Class Collaborators `{JsRuntime} `{RepoData} : Type := {
  parseDataKey : string → Result (string * string);
  formatDataKey : string → string → string;
  (** [uri.collection] and [uri.rkey] *)
  AtUri_collection : AtUri → string;
  AtUri_rkey : AtUri → string;
  (** [(await readCar(bytes)).blocks] *)
  readCar : Bytes → Result BlockMap;
  readCarWithRoot : Bytes → Result (CID * BlockMap);
  cborToLexRecord : Bytes → Result RepoRecord;
  (** [(await verifyProofs(blocks, claims, did, key)).verified] *)
  verifyProofs :
    Bytes → list RecordCidClaim → string → SigningKey →
    Result (list RecordCidClaim);
  (** [idResolver.did.resolveAtprotoKey(did, forceRefresh)] *)
  resolveAtprotoKey : string → bool → Result SigningKey;
  (** [idResolver.did.resolve(did)] *)
  did_resolve : string → Result (option DidDocument);
  (** [parseToAtprotoDocument(doc).handle] *)
  documentHandle : DidDocument → Result (option string);
  (** [idResolver.handle.resolve(handle)] *)
  handle_resolve : string → Result (option string);
  ensureChunkIsMessage : FrameChunk → Result FrameMessage;
  (** [clone['$type'] = type] on a copy of the body *)
  withType : FrameBody → string → FrameBody;
  (** [lexicons.assertValidXrpcMessage(ids.ComAtprotoSyncSubscribeRepos, v)] *)
  assertValidXrpcMessage : option FrameBody → Result RepoEvent;
  CID_parse : string → Result CID;
  ipldToLex : JetstreamRecord → Result LexValue;
  (** [check.is(v, schema.map)], and the value seen as a record *)
  asRecord : LexValue → option RepoRecord;
  (** [await init()], then the dictionary fetched over the network, are
      part of a connection's script; [decompressUsingDict(createDCtx(), ..)] *)
  decompressUsingDict : FrameChunk → ZstdDictionary → Result FrameChunk;
  (** [JSON.parse(Buffer.from(chunk).toString())], read at the type the
      code takes the frame to have *)
  parseJetstreamFrame : FrameChunk → Result JetstreamEventKind;
  parseTurbostreamFrame : FrameChunk → Result TurbostreamEventKind;
}.

(** ** Callbacks, waits and collaborator calls as a log *)

Section Effects.
Context `{JsRuntime} `{RepoData}.
(** the envelope and the normalised event of a stream variant *)
Context {Env Ev : Type}.

(** The error classes of a variant ([FirehoseParseError],
    [JetstreamParseError], ...), by what they carry. *)
Inductive StreamError : Type :=
| ValidationError (cause : Exn)
| ParseError (cause : Exn) (event : Env)
| SubscriptionError (cause : Exn)
| HandlerError (cause : Exn) (event : Ev)
| DecompressError (cause : Exn).

Inductive Effect : Type :=
| OnInfo (info : string)                       (* opts.onInfo(info) *)
| OnError (err : StreamError)                  (* opts.onError(err) *)
| HandleEvent (evt : Ev)                       (* opts.handleEvent(evt) *)
| TrackEvent (did : string) (pos : Number) (evt : Env)
                                               (* runner.trackEvent(..) *)
| GetCursor (nth : nat)                        (* getCursorFn() *)
| Wait (ms : Number)                           (* wait(ms) *)
| ResolveDestroy                               (* destoryDefer.resolve() *)
| ResolveAtprotoKey (did : string) (forceRefresh : bool)
| VerifyProofs (claims : list RecordCidClaim) (key : SigningKey).

(** What a run has done so far, and the two flags shared with [destroy]:
    the abort signal and the deferred that [destroy] awaits. *)
Record World : Type := {
  w_log : list Effect;
  w_cursorCalls : nat;
  w_aborted : bool;
  w_destroyResolved : bool;
}.

Definition M (A : Type) : Type := World → Result A * World.

#[global] Instance M_ret : MRet M := λ A a w, (Ok a, w).
#[global] Instance M_bind : MBind M := λ A B f m w,
  match m w with
  | (Ok a, w') => f a w'
  | (Throw e, w') => (Throw e, w')
  end.

#[global] Instance M_fmap : FMap M := λ A B f m w,
  match m w with
  | (Ok a, w') => (Ok (f a), w')
  | (Throw e, w') => (Throw e, w')
  end.

Definition liftR {A} (r : Result A) : M A := λ w, (r, w).
Definition throw {A} (e : Exn) : M A := liftR (Throw e).

(** [try { body } catch (err) { handler }] *)
Definition tryCatch {A} (body : M A) (handler : Exn → M A) : M A := λ w,
  match body w with
  | (Ok a, w') => (Ok a, w')
  | (Throw e, w') => handler e w'
  end.

Definition emit (e : Effect) : M unit := λ w,
  (Ok (), {| w_log := w_log w ++ [e];
             w_cursorCalls := w_cursorCalls w;
             w_aborted := w_aborted w;
             w_destroyResolved := w_destroyResolved w |}).

(** A cursor source answers its n-th call. *)
Definition CursorSource : Type := nat → Result (option Number).

Definition callCursor (getCursorFn : CursorSource) : M (option Number) :=
  λ w,
  let n := w_cursorCalls w in
  (getCursorFn n,
   {| w_log := w_log w ++ [GetCursor n];
      w_cursorCalls := S n;
      w_aborted := w_aborted w;
      w_destroyResolved := w_destroyResolved w |}).

(** [this.abortController.abort()], the first half of [destroy] *)
Definition abort : M unit := λ w,
  (Ok (), {| w_log := w_log w;
             w_cursorCalls := w_cursorCalls w;
             w_aborted := true;
             w_destroyResolved := w_destroyResolved w |}).

Definition signalAborted : M bool := λ w, (Ok (w_aborted w), w).

(** [this.destoryDefer.resolve()] *)
Definition resolveDestroyDefer : M unit := λ w,
  (Ok (), {| w_log := w_log w ++ [ResolveDestroy];
             w_cursorCalls := w_cursorCalls w;
             w_aborted := w_aborted w;
             w_destroyResolved := true |}).

(** The reason the keep-alive socket rejects with once the signal is
    aborted: a DOMException named AbortError. *)
Definition abortReason : Exn :=
  NamedError "AbortError" "This operation was aborted".

(** What iterating one connection of the subscription gives: chunks, and
    between two of them possibly the caller's [destroy()]; then the socket
    throws or the sequence ends. *)
Inductive Pull (Chunk : Type) : Type :=
| Frame (chunk : Chunk)
| DestroyCalled.

Inductive ConnectionEnd : Type :=
| EndThrows (e : Exn)
| EndReturns.

Record Connection (Chunk : Type) : Type := {
  conn_pulls : list (Pull Chunk);
  conn_end : ConnectionEnd;
}.

(** How a call of [start] stands when the script of connections is used
    up: it has returned, or it still awaits the socket.  Likewise for a
    call of [destroy]: it has returned, or it still awaits the deferred. *)
Inductive StartExit : Type := Returned | Awaiting.

(** [await this.destoryDefer.complete] with nothing left to resolve the
    deferred. *)
Definition awaitDestroyDefer : M StartExit := λ w,
  (Ok (if w_destroyResolved w then Returned else Awaiting), w).
End Effects.

Arguments StreamError Env Ev : clear implicits.
Arguments Effect {_ _} Env Ev.
Arguments World {_ _} Env Ev.
Arguments M {_ _} Env Ev A.
Arguments Frame {Chunk} chunk.
Arguments DestroyCalled {Chunk}.
Arguments conn_pulls {Chunk} c.
Arguments conn_end {Chunk} c.

(** ** src/stream/firehose.ts *)

Module Firehose.
Section Firehose.
Context `{Collaborators}.

#[local] Abbreviation M := (M RepoEvent Event).

Record Runner : Type := { runner_getCursor : CursorSource }.

(** [FirehoseOptions].  [idResolver] is the resolver of [Collaborators];
    [onError] and [onInfo] write to the log.  [handleEvent] tells, for an
    event, whether the caller's handler returns or throws. *)
Record FirehoseOptions : Type := {
  service : option string;
  getCursor : option CursorSource;
  runner : option Runner;
  filterCollections : option (list string);
  filterDids : option (list string);
  unauthenticatedCommits : bool;
  unauthenticatedHandles : bool;
  excludeCommit : bool;
  excludeAccount : bool;
  excludeIdentity : bool;
  excludeSync : bool;
  subscriptionReconnectDelay : option Number;
  handleEvent : Event → Result unit;
}.

Definition method : string := "com.atproto.sync.subscribeRepos".


Fixpoint encodeQueryParam (value : JsValue) : Result Encoded :=
  match value with
  | VString s => Ok (EncString s)
  | VNumber n => Ok (EncString (Number_toString n))
  | VBoolean b => Ok (EncString (if b then "true" else "false"))
  | VUndefined => Ok (EncString "")
  | VDate d => s ← Date_toISOString d; Ok (EncString s)
  | VArray elems =>
      (* value.flatMap(encodeQueryParam) *)
      EncArray <$> flatMapR encodeQueryParam elems
  | VNull => Ok (EncString "")
  | VObject | VFunction | VSymbol | VBigInt =>
      Throw (newError
               ("Cannot encode " +:+ typeof value +:+ "s into query params"))
  end.

Fixpoint encodeQueryEntries (entries : ParamsObject)
    (params : URLSearchParams) : Result URLSearchParams :=
  match entries with
  | [] => Ok params
  | (key, value) :: rest =>
      encoded ← encodeQueryParam value;
      encodeQueryEntries rest
        match encoded with
        | EncArray encs =>
            fold_left (λ p enc, params_append p key enc) encs params
        | EncString enc => params_set params key enc
        end
  end.

Definition encodeQueryParams (obj : ParamsObject) : Result string :=
  params_toString <$> encodeQueryEntries obj [].

Definition didAndSeqForEvt (evt : RepoEvent) : option (string * Number) :=
  match evt with
  | EvtCommit evt => Some (c_repo evt, c_seq evt)
  | EvtAccount evt => Some (a_did evt, a_seq evt)
  | EvtIdentity evt => Some (i_did evt, i_seq evt)
  | EvtSync evt => Some (s_did evt, s_seq evt)
  | EvtInfo => None
  end.

(** The callers pass [opts.filterCollections ?? []], an array, so the
    guard [if (!filterCollections) return evt.ops] never fires. *)
Definition maybeFilterOps (evt : Commit)
    (filterCollections filterDids : list string) : Result (list RepoOp) :=
  filterR
    (λ op,
       '(collection, _) ← parseDataKey (path op);
       Ok ((isEmpty filterCollections || includes filterCollections collection)
           && (isEmpty filterDids || includes filterDids (c_repo evt))))
    (c_ops evt).

Definition commitMeta (evt : Commit) (car : BlockMap) (op : RepoOp)
  : CommitMeta :=
  let uri := AtUri_make (c_repo evt) (path op) in
  {| m_seq := c_seq evt;
     m_time := c_time evt;
     m_commit := c_commit evt;
     m_blocks := car;
     m_rev := c_rev evt;
     m_uri := uri;
     m_did := uri_host uri;
     m_collection := AtUri_collection uri;
     m_rkey := AtUri_rkey uri |}.

(** The [for (const op of ops)] loop of [formatCommitOps]; [evts] is the
    array pushed to. *)
Fixpoint formatCommitOps_loop (evt : Commit) (car : BlockMap)
    (ops : list RepoOp) (evts : list CommitEvt) : Result (list CommitEvt) :=
  match ops with
  | [] => Ok evts
  | op :: rest =>
      let meta := commitMeta evt car op in
      if bool_decide (action op = "create")
         || bool_decide (action op = "update")
      then
        match cid op with
        | None => formatCommitOps_loop evt car rest evts        (* continue *)
        | Some c =>
            match BlockMap_get car c with
            | None => formatCommitOps_loop evt car rest evts    (* continue *)
            | Some recordBytes =>
                record ← cborToLexRecord recordBytes;
                formatCommitOps_loop evt car rest
                  (evts ++ [{| ce_meta := meta;
                               ce_event := action op;
                               ce_cid := Some c;
                               ce_record := Some record |}])
            end
        end
      else if bool_decide (action op = "delete")
      then
        formatCommitOps_loop evt car rest
          (evts ++ [{| ce_meta := meta;
                       ce_event := "delete";
                       ce_cid := None;
                       ce_record := None |}])
      else formatCommitOps_loop evt car rest evts
  end.

Definition formatCommitOps (evt : Commit) (ops : list RepoOp)
  : Result (list CommitEvt) :=
  car ← readCar (c_blocks evt);
  formatCommitOps_loop evt car ops [].

Definition parseCommitUnauthenticated (evt : Commit)
    (filterCollections filterDids : list string)
  : Result (list CommitEvt) :=
  ops ← maybeFilterOps evt filterCollections filterDids;
  formatCommitOps evt ops.

Definition claimOf (op : RepoOp) : Result RecordCidClaim :=
  '(collection, rkey) ← parseDataKey (path op);
  Ok {| claim_collection := collection;
        claim_rkey := rkey;
        claim_cid := if bool_decide (action op = "delete")
                     then None else cid op |}.

(** [verifiedCids]: a path is absent ([undefined]), or maps to [null]
    or to a content-id.  The keys are data keys, which hold a slash, so
    no key meets a property of [Object.prototype]. *)
Definition verifiedCidsOf (verified : list RecordCidClaim)
  : gmap string (option CID) :=
  foldl
    (λ verifiedCids op,
       <[formatDataKey (claim_collection op) (claim_rkey op)
         := claim_cid op]> verifiedCids)
    ∅ verified.

(** The callback of [ops.filter] that gives [verifiedOps]. *)
Definition isVerifiedOp (verifiedCids : gmap string (option CID))
    (op : RepoOp) : bool :=
  if bool_decide (action op = "delete")
  then bool_decide (verifiedCids !! path op = Some None)
  else
    match cid op with
    | None => false
    | Some c => bool_decide (verifiedCids !! path op = Some (Some c))
    end.

(** One run of the body of [parseCommitAuthenticated]; [retry] stands for
    the recursive call [parseCommitAuthenticated(.., true)]. *)
Definition parseCommitAuthenticated_body (retry : M (list CommitEvt))
    (evt : Commit) (filterCollections filterDids : list string)
    (forceKeyRefresh : bool) : M (list CommitEvt) :=
  let did := c_repo evt in
  ops ← liftR (maybeFilterOps evt filterCollections filterDids);
  if isEmpty ops then mret [] else
  claims ← liftR (mapR claimOf ops);
  emit (ResolveAtprotoKey did forceKeyRefresh);;
  key ← liftR (resolveAtprotoKey did forceKeyRefresh);
  outcome ←
    tryCatch
      (emit (VerifyProofs claims key);;
       verified ← liftR (verifyProofs (c_blocks evt) claims did key);
       mret (inl (verifiedCidsOf verified)))
      (λ err,
         if instanceofRepoVerificationError err && negb forceKeyRefresh
         then inr <$> retry
         else throw err);
  match outcome with
  | inr returned => mret returned
  | inl verifiedCids =>
      let verifiedOps := List.filter (isVerifiedOp verifiedCids) ops in
      liftR (formatCommitOps evt verifiedOps)
  end.

(** The recursion stops at its second level, where [forceKeyRefresh] is
    set and the [catch] rethrows; see [parseCommitAuthenticated_rec]. *)
Definition parseCommitAuthenticated (evt : Commit)
    (filterCollections filterDids : list string) (forceKeyRefresh : bool)
  : M (list CommitEvt) :=
  parseCommitAuthenticated_body
    (parseCommitAuthenticated_body (throw Nullish)
       evt filterCollections filterDids true)
    evt filterCollections filterDids forceKeyRefresh.

Definition parseSync (evt : Sync) : Result (option SyncEvt) :=
  car ← readCarWithRoot (s_blocks evt);
  Ok (Some {| se_seq := s_seq evt;
              se_time := s_time evt;
              se_did := s_did evt;
              se_cid := car.1;
              se_rev := s_rev evt;
              se_blocks := car.2 |}).

Definition verifyHandle (did : string) (didDoc : DidDocument)
  : Result (option string) :=
  handle ← documentHandle didDoc;
  match handle with
  | None => Ok None
  | Some handle =>
      if bool_decide (handle = "") then Ok None      (* if (!handle) *)
      else
        res ← handle_resolve handle;
        Ok (if bool_decide (res = Some did) then Some handle else None)
  end.

Definition parseIdentity (evt : Identity) (unauthenticated : bool)
  : Result (option IdentityEvt) :=
  res ← did_resolve (i_did evt);
  handle ←
    match res with
    | Some doc =>
        if negb unauthenticated then verifyHandle (i_did evt) doc
        else Ok None
    | None => Ok None
    end;
  Ok (Some {| ie_seq := i_seq evt;
              ie_time := i_time evt;
              ie_did := i_did evt;
              ie_handle := handle;
              ie_didDocument := res |}).

Definition isValidStatus (str : string) : bool :=
  includes ["takendown"; "suspended"; "deleted"; "deactivated"] str.

(** [evt.status && !isValidStatus(evt.status)]: an absent status and the
    empty string are falsy. *)
Definition parseAccount (evt : Account) : option AccountEvt :=
  if match a_status evt with
     | None => false
     | Some status =>
         negb (bool_decide (status = "")) && negb (isValidStatus status)
     end
  then None
  else Some {| ae_seq := a_seq evt;
               ae_time := a_time evt;
               ae_did := a_did evt;
               ae_active := a_active evt;
               ae_status := a_status evt |}.

Definition parseEvt (opts : FirehoseOptions) (evt : RepoEvent)
  : M (list Event) :=
  tryCatch
    match evt with
    | EvtCommit evt =>
        if negb (excludeCommit opts) then
          map ECommit <$>
            (if unauthenticatedCommits opts
             then liftR (parseCommitUnauthenticated evt
                           (default [] (filterCollections opts))
                           (default [] (filterDids opts)))
             else parseCommitAuthenticated evt
                    (default [] (filterCollections opts))
                    (default [] (filterDids opts)) false)
        else mret []
    | EvtAccount evt =>
        if negb (excludeAccount opts) then
          mret match parseAccount evt with
               | Some parsed => [EAccount parsed]
               | None => []
               end
        else mret []
    | EvtIdentity evt =>
        if negb (excludeIdentity opts) then
          parsed ← liftR (parseIdentity evt (unauthenticatedHandles opts));
          mret match parsed with
               | Some parsed => [EIdentity parsed]
               | None => []
               end
        else mret []
    | EvtSync evt =>
        if negb (excludeSync opts) then
          parsed ← liftR (parseSync evt);
          mret match parsed with
               | Some parsed => [ESync parsed]
               | None => []
               end
        else mret []
    | EvtInfo => mret []
    end
    (λ err, emit (OnError (ParseError err evt));; mret []).

(** The [for (const write of parsed)] loop of [processEvt]. *)
Fixpoint processEvt_loop (opts : FirehoseOptions) (parsed : list Event)
  : M unit :=
  match parsed with
  | [] => mret ()
  | write :: rest =>
      tryCatch
        (emit (HandleEvent write);; liftR (handleEvent opts write))
        (λ err, emit (OnError (HandlerError err write)));;
      processEvt_loop opts rest
  end.

Definition processEvt (opts : FirehoseOptions) (evt : RepoEvent) : M unit :=
  parsed ← parseEvt opts evt;
  processEvt_loop opts parsed.

(** [getParams] of the constructor. *)
Definition getCursorFn (opts : FirehoseOptions) : option CursorSource :=
  match runner opts with
  | Some r => Some (runner_getCursor r)
  | None => getCursor opts
  end.

Definition getParams (opts : FirehoseOptions) : M (option ParamsObject) :=
  match getCursorFn opts with
  | None => mret None
  | Some getCursorFn =>
      cursor ← callCursor getCursorFn;
      mret (Some [("cursor",
                   match cursor with
                   | Some n => VNumber n
                   | None => VUndefined
                   end)])
  end.

(** [validate] of the constructor. *)
Definition validate (value : option FrameBody) : M (option RepoEvent) :=
  tryCatch
    (Some <$> liftR (assertValidXrpcMessage value))
    (λ err, emit (OnError (ValidationError err));; mret None).

(** [getUrl] of [FirehoseSubscription]; the socket calls it when it
    connects. *)
Definition getUrl (opts : FirehoseOptions) : M string :=
  params ← getParams opts;
  query ← liftR (encodeQueryParams (default [] params));
  let url :=
    default "wss://bsky.network" (service opts)
    +:+ "/xrpc/" +:+ method +:+ "?" +:+ query in
  emit (OnInfo ("Firehose: " +:+ url));;
  mret url.

(** The body of the generator's loop: from a chunk to the event it
    yields, if any. *)
Definition nextEvent (chunk : FrameChunk) : M (option RepoEvent) :=
  message ← liftR (ensureChunkIsMessage chunk);
  let t := header_t message in
  let clone :=
    match body message, t with
    | Some clone, Some t =>
        Some (withType clone
                (if String.prefix "#" t then method +:+ t else t))
    | clone, _ => clone
    end in
  validate clone.

(** The closure [async () => { await this.processEvt(evt) }] that [start]
    hands to [runner.trackEvent]. *)
Definition trackedWork (opts : FirehoseOptions) (evt : RepoEvent) : M unit :=
  processEvt opts evt.

(** The body of [start]'s loop.  With a runner the loop calls
    [runner.trackEvent(did, seq, work)] and goes on without awaiting it:
    the entry [TrackEvent did seq evt] stands for that call, whose third
    argument is the closure [trackedWork opts evt].  The runner is the
    caller's object: whether and when it runs the closure is its own
    doing, in its own time, and no part of the run of [start]; what the
    closure does when it is run is what [trackedWork] does. *)
Definition consume (opts : FirehoseOptions) (evt : RepoEvent) : M unit :=
  match runner opts with
  | Some _ =>
      match didAndSeqForEvt evt with
      | None => mret ()                                       (* continue *)
      | Some (did, seq) => emit (TrackEvent did seq evt)
      end
  | None => processEvt opts evt
  end.

(** [for await (const evt of this.sub)] over what is left of one
    connection.  Once the signal is aborted the socket rejects the
    pending read with [abortReason]. *)
Fixpoint forAwait (opts : FirehoseOptions)
    (pulls : list (Pull FrameChunk)) (finally : ConnectionEnd) : M unit :=
  aborted ← signalAborted;
  if aborted : bool then throw abortReason else
  match pulls with
  | [] =>
      match finally with
      | EndThrows err => throw err
      | EndReturns => mret ()
      end
  | Frame chunk :: rest =>
      evt ← nextEvent chunk;
      match evt with
      | Some evt => consume opts evt
      | None => mret ()
      end;;
      forAwait opts rest finally
  | DestroyCalled :: rest =>
      abort;;
      forAwait opts rest finally
  end.

(** [start]: each call opens one connection, the head of the script. *)
Fixpoint start (opts : FirehoseOptions)
    (script : list (Connection FrameChunk)) : M StartExit :=
  match script with
  | [] => mret Awaiting
  | conn :: later =>
      tryCatch
        (getUrl opts;;
         forAwait opts (conn_pulls conn) (conn_end conn);;
         mret Returned)
        (λ err,
           if isAbortError err then
             resolveDestroyDefer;;
             mret Returned
           else
             emit (OnError (SubscriptionError err));;
             emit (Wait (default (Number_ofZ 3000)
                           (subscriptionReconnectDelay opts)));;
             start opts later)
  end.

(** [destroy()], called when no [start] is running any more: the signal
    is aborted, then the promise of the deferred is awaited.  Only the
    catch of [start] resolves the deferred, so the call returns if the
    deferred is resolved already and keeps awaiting otherwise. *)
Definition destroy : M StartExit :=
  abort;;
  awaitDestroyDefer.

(** [new Firehose(opts)].  The instance keeps [opts], and the subscription
    it builds reads nothing else: the instance is its options. *)
Definition constructor (opts : FirehoseOptions) : Result FirehoseOptions :=
  match getCursor opts, runner opts with
  | Some _, Some _ =>
      Throw (newError "Must set only `getCursor` or `runner`")
  | _, _ => Ok opts
  end.
End Firehose.
End Firehose.

(** ** src/stream/jetstream.ts *)

Module Jetstream.
Section Jetstream.
Context `{Collaborators}.

#[local] Abbreviation M := (M JetstreamEventKind JetstreamEvent).

Record Runner : Type := { runner_getCursor : CursorSource }.

Record JetstreamOptions : Type := {
  service : option string;
  getCursor : option CursorSource;
  runner : option Runner;
  filterCollections : option (list string);
  filterDids : option (list string);
  compress : option bool;
  unauthenticatedHandles : bool;
  excludeCommit : bool;
  excludeAccount : bool;
  excludeIdentity : bool;
  subscriptionReconnectDelay : option Number;
  handleEvent : JetstreamEvent → Result unit;
}.

Definition method : string := "subscribe".

(** One connection attempt: the dictionary download, which precedes the
    first read of the socket, and the socket's chunks. *)
Record JetstreamConnection : Type := {
  jc_dictionary : Result ZstdDictionary;
  jc_socket : Connection FrameChunk;
}.


Fixpoint encodeQueryParam (value : JsValue) : Result Encoded :=
  match value with
  | VString s => Ok (EncString s)
  | VNumber n => Ok (EncString (Number_toString n))
  | VBoolean b => Ok (EncString (if b then "true" else "false"))
  | VUndefined => Ok (EncString "")
  | VDate d => s ← Date_toISOString d; Ok (EncString s)
  | VArray elems =>
      (* value.flatMap(encodeQueryParam) *)
      EncArray <$> flatMapR encodeQueryParam elems
  | VNull => Ok (EncString "")
  | VObject | VFunction | VSymbol | VBigInt =>
      Throw (newError
               ("Cannot encode " +:+ typeof value +:+ "s into query params"))
  end.

Fixpoint encodeQueryEntries (entries : ParamsObject)
    (params : URLSearchParams) : Result URLSearchParams :=
  match entries with
  | [] => Ok params
  | (key, value) :: rest =>
      encoded ← encodeQueryParam value;
      encodeQueryEntries rest
        match encoded with
        | EncArray encs =>
            fold_left (λ p enc, params_append p key enc) encs params
        | EncString enc =>
            (* if (encoded) params.set(key, encoded) *)
            if bool_decide (enc = "") then params
            else params_set params key enc
        end
  end.

Definition encodeQueryParams (obj : ParamsObject) : Result string :=
  params_toString <$> encodeQueryEntries obj [].

Definition formatCommitEvt (evt : JetstreamEventKindCommit)
  : Result (option JetstreamCommitEvt) :=
  time ← Date_toISOString (Date_ofMicros (kc_time_us evt));
  let commit := kc_commit evt in
  let meta :=
    {| jm_time_us := kc_time_us evt;
       jm_time := time;
       jm_rev := operation_rev commit;
       jm_uri := AtUri_make (kc_did evt)
                   (operation_collection commit +:+ "/"
                    +:+ operation_rkey commit);
       jm_did := kc_did evt;
       jm_collection := operation_collection commit;
       jm_rkey := operation_rkey commit |} in
  match commit with
  | OperationCreate _ _ _ record cid | OperationUpdate _ _ _ record cid =>
      cid ← CID_parse cid;
      record ← ipldToLex record;
      match asRecord record with
      | None => Throw (newError "lexicon records be a json object")
      | Some record =>
          Ok (Some {| jce_meta := meta;
                      jce_event := match commit with
                                   | OperationUpdate _ _ _ _ _ => "update"
                                   | _ => "create"
                                   end;
                      jce_cid := Some cid;
                      jce_record := Some record |})
      end
  | OperationDelete _ _ _ =>
      Ok (Some {| jce_meta := meta;
                  jce_event := "delete";
                  jce_cid := None;
                  jce_record := None |})
  end.

Definition parseJetstreamKindCommitUnauthenticated
    (evt : JetstreamEventKindCommit)
    (filterCollections filterDids : list string)
  : Result (option JetstreamCommitEvt) :=
  if (isEmpty filterCollections
      || includes filterCollections (operation_collection (kc_commit evt)))
     && (isEmpty filterDids || includes filterDids (kc_did evt))
  then formatCommitEvt evt
  else Ok None.

Definition parseEvt (opts : JetstreamOptions) (evt : JetstreamEventKind)
  : M (option JetstreamEvent) :=
  tryCatch
    match evt with
    | KindCommit evt =>
        if negb (excludeCommit opts) then
          fmap JCommit <$>
            liftR (parseJetstreamKindCommitUnauthenticated evt
                     (default [] (filterCollections opts))
                     (default [] (filterDids opts)))
        else mret None
    | KindAccount _ time_us account =>
        if negb (excludeAccount opts) then
          mret match Firehose.parseAccount account with
               | Some parsed => Some (JAccount parsed time_us)
               | None => None
               end
        else mret None
    | KindIdentity _ time_us identity =>
        if negb (excludeIdentity opts) then
          parsed ← liftR (Firehose.parseIdentity identity
                            (unauthenticatedHandles opts));
          mret match parsed with
               | Some parsed => Some (JIdentity parsed time_us)
               | None => None
               end
        else mret None
    end
    (λ err, emit (OnError (ParseError err evt));; mret None).

Definition processEvt (opts : JetstreamOptions) (evt : JetstreamEventKind)
  : M unit :=
  parsed ← parseEvt opts evt;
  match parsed with
  | Some parsed =>
      tryCatch
        (emit (HandleEvent parsed);; liftR (handleEvent opts parsed))
        (λ err, emit (OnError (HandlerError err parsed)))
  | None => mret ()
  end.

Definition stringArray (arr : option (list string)) : JsValue :=
  match arr with
  | Some arr => VArray (map VString arr)
  | None => VUndefined
  end.

(** [getParams] of the constructor. *)
Definition getCursorFn (opts : JetstreamOptions) : option CursorSource :=
  match runner opts with
  | Some r => Some (runner_getCursor r)
  | None => getCursor opts
  end.

Definition getParams (opts : JetstreamOptions) : M (option ParamsObject) :=
  cursor ←
    match getCursorFn opts with
    | Some getCursorFn => callCursor getCursorFn
    | None => mret None
    end;
  mret (Some [("wantedCollections", stringArray (filterCollections opts));
              ("wantedDids", stringArray (filterDids opts));
              ("cursor", match cursor with
                         | Some n => VNumber n
                         | None => VUndefined
                         end);
              ("compress", match compress opts with
                           | Some b => VBoolean b
                           | None => VUndefined
                           end)]).

Definition getUrl (opts : JetstreamOptions) : M string :=
  params ← getParams opts;
  query ← liftR (encodeQueryParams (default [] params));
  let url :=
    default "wss://jetstream1.us-east.bsky.network" (service opts)
    +:+ "/" +:+ method +:+ "?" +:+ query in
  emit (OnInfo ("Jetstream: " +:+ url));;
  mret url.

(** The body of the generator's loop. *)
Definition nextEvent (opts : JetstreamOptions) (dict : ZstdDictionary)
    (chunk : FrameChunk) : M (option JetstreamEventKind) :=
  tryCatch
    (if default false (compress opts) then
       decompressed ← liftR (decompressUsingDict chunk dict);
       record ← liftR (parseJetstreamFrame decompressed);
       mret (Some record)
     else
       record ← liftR (parseJetstreamFrame chunk);
       mret (Some record))
    (λ err, emit (OnError (DecompressError err));; mret None).

(** The closure [async () => { await this.processEvt(evt) }] that [start]
    hands to [runner.trackEvent]. *)
Definition trackedWork (opts : JetstreamOptions) (evt : JetstreamEventKind)
  : M unit :=
  processEvt opts evt.

(** The body of [start]'s loop.  As in the Firehose, with a runner the
    entry [TrackEvent did time_us evt] stands for the call
    [runner.trackEvent(did, time_us, work)], which [start] does not
    await; its closure is [trackedWork opts evt], and running it is the
    runner's doing. *)
Definition consume (opts : JetstreamOptions) (evt : JetstreamEventKind)
  : M unit :=
  match runner opts with
  | Some _ => emit (TrackEvent (kind_did evt) (kind_time_us evt) evt)
  | None => processEvt opts evt
  end.

Fixpoint forAwait (opts : JetstreamOptions) (dict : ZstdDictionary)
    (pulls : list (Pull FrameChunk)) (finally : ConnectionEnd) : M unit :=
  aborted ← signalAborted;
  if aborted : bool then throw abortReason else
  match pulls with
  | [] =>
      match finally with
      | EndThrows err => throw err
      | EndReturns => mret ()
      end
  | Frame chunk :: rest =>
      evt ← nextEvent opts dict chunk;
      match evt with
      | Some evt => consume opts evt
      | None => mret ()
      end;;
      forAwait opts dict rest finally
  | DestroyCalled :: rest =>
      abort;;
      forAwait opts dict rest finally
  end.

Fixpoint start (opts : JetstreamOptions)
    (script : list JetstreamConnection) : M StartExit :=
  match script with
  | [] => mret Awaiting
  | conn :: later =>
      tryCatch
        (dict ← liftR (jc_dictionary conn);
         getUrl opts;;
         forAwait opts dict
           (conn_pulls (jc_socket conn)) (conn_end (jc_socket conn));;
         mret Returned)
        (λ err,
           if isAbortError err then
             resolveDestroyDefer;;
             mret Returned
           else
             emit (OnError (SubscriptionError err));;
             emit (Wait (default (Number_ofZ 3000)
                           (subscriptionReconnectDelay opts)));;
             start opts later)
  end.
(** [new Jetstream(opts)] *)
Definition constructor (opts : JetstreamOptions) : Result JetstreamOptions :=
  match getCursor opts, runner opts with
  | Some _, Some _ =>
      Throw (newError "Must set only `getCursor` or `runner`")
  | _, _ => Ok opts
  end.
End Jetstream.
End Jetstream.

(** ** src/stream/turbostream.ts *)

Module Turbostream.
Section Turbostream.
Context `{Collaborators}.

#[local] Abbreviation M := (M TurbostreamEventKind TurbostreamCommitEvt).

Record TurbostreamOptions : Type := {
  service : option string;
  excludeCommit : bool;
  subscriptionReconnectDelay : option Number;
  handleEvent : TurbostreamCommitEvt → Result unit;
}.

Definition method : string := "turbostream".

Definition formatCommitEvt (evt : TurbostreamEventKind)
  : Result (option TurbostreamCommitEvt) :=
  let message := t_message evt in
  time ← Date_toISOString (Date_ofMicros (kc_time_us message));
  let commit := kc_commit message in
  let meta :=
    {| jm_time_us := kc_time_us message;
       jm_time := time;
       jm_rev := operation_rev commit;
       jm_uri := AtUri_make (t_did evt)
                   (operation_collection commit +:+ "/"
                    +:+ operation_rkey commit);
       jm_did := t_did evt;
       jm_collection := operation_collection commit;
       jm_rkey := operation_rkey commit |} in
  match commit with
  | OperationCreate _ _ _ record cid | OperationUpdate _ _ _ record cid =>
      cid ← CID_parse cid;
      record ← ipldToLex record;
      match asRecord record with
      | None => Throw (newError "lexicon records be a json object")
      | Some record =>
          Ok (Some {| tce_meta := meta;
                      tce_hydrated_metadata := t_hydrated_metadata evt;
                      tce_event := match commit with
                                   | OperationUpdate _ _ _ _ _ => "update"
                                   | _ => "create"
                                   end;
                      tce_cid := Some cid;
                      tce_record := Some record |})
      end
  | OperationDelete _ _ _ =>
      Ok (Some {| tce_meta := meta;
                  tce_hydrated_metadata := t_hydrated_metadata evt;
                  tce_event := "delete";
                  tce_cid := None;
                  tce_record := None |})
  end.

(** [evt.message.kind === 'commit'] holds of every frame of the declared
    type. *)
Definition parseEvt (opts : TurbostreamOptions) (evt : TurbostreamEventKind)
  : M (option TurbostreamCommitEvt) :=
  tryCatch
    (if negb (excludeCommit opts) then liftR (formatCommitEvt evt)
     else mret None)
    (λ err, emit (OnError (ParseError err evt));; mret None).

Definition processEvt (opts : TurbostreamOptions)
    (evt : TurbostreamEventKind) : M unit :=
  parsed ← parseEvt opts evt;
  match parsed with
  | Some parsed =>
      tryCatch
        (emit (HandleEvent parsed);; liftR (handleEvent opts parsed))
        (λ err, emit (OnError (HandlerError err parsed)))
  | None => mret ()
  end.

Definition getUrl (opts : TurbostreamOptions) : M string :=
  let url :=
    default "wss://api.graze.social" (service opts)
    +:+ "/app/api/v1/turbostream/" +:+ method in
  emit (OnInfo ("Turbostream: " +:+ url));;
  mret url.

Definition nextEvent (chunk : FrameChunk) : M (option TurbostreamEventKind) :=
  tryCatch
    (record ← liftR (parseTurbostreamFrame chunk);
     mret (Some record))
    (λ err, emit (OnError (DecompressError err));; mret None).

Fixpoint forAwait (opts : TurbostreamOptions)
    (pulls : list (Pull FrameChunk)) (finally : ConnectionEnd) : M unit :=
  aborted ← signalAborted;
  if aborted : bool then throw abortReason else
  match pulls with
  | [] =>
      match finally with
      | EndThrows err => throw err
      | EndReturns => mret ()
      end
  | Frame chunk :: rest =>
      evt ← nextEvent chunk;
      match evt with
      | Some evt => processEvt opts evt
      | None => mret ()
      end;;
      forAwait opts rest finally
  | DestroyCalled :: rest =>
      abort;;
      forAwait opts rest finally
  end.

Fixpoint start (opts : TurbostreamOptions)
    (script : list (Connection FrameChunk)) : M StartExit :=
  match script with
  | [] => mret Awaiting
  | conn :: later =>
      tryCatch
        (getUrl opts;;
         forAwait opts (conn_pulls conn) (conn_end conn);;
         mret Returned)
        (λ err,
           if isAbortError err then
             resolveDestroyDefer;;
             mret Returned
           else
             emit (OnError (SubscriptionError err));;
             emit (Wait (default (Number_ofZ 3000)
                           (subscriptionReconnectDelay opts)));;
             start opts later)
  end.
(** [new Turbostream(opts)]: no check of the options. *)
Definition constructor (opts : TurbostreamOptions)
  : Result TurbostreamOptions :=
  Ok opts.
End Turbostream.
End Turbostream.

(** ** src/ingester.ts *)

Module Ingester.
Section Ingester.
Context `{Collaborators}.

(** src/types.ts: [Event | JetstreamEvent | TurbostreamCommitEvt] *)
Inductive IngesterEvent : Type :=
| OfFirehose (evt : Event)
| OfJetstream (evt : JetstreamEvent)
| OfTurbostream (evt : TurbostreamCommitEvt).

Record Runner : Type := { runner_getCursor : CursorSource }.

Record IngesterOptions : Type := {
  service : option string;
  getCursor : option CursorSource;
  runner : option Runner;
  filterCollections : option (list string);
  filterDids : option (list string);
  compress : option bool;
  unauthenticatedCommits : bool;
  unauthenticatedHandles : bool;
  excludeCommit : bool;
  excludeAccount : bool;
  excludeIdentity : bool;
  excludeSync : bool;
  subscriptionReconnectDelay : option Number;
  handleEvent : IngesterEvent → Result unit;
}.

(** The three classes are handed the one options object; each reads the
    properties of its own options type. *)
Definition asFirehoseOptions (opts : IngesterOptions)
  : Firehose.FirehoseOptions :=
  {| Firehose.service := service opts;
     Firehose.getCursor := getCursor opts;
     Firehose.runner :=
       (λ r, {| Firehose.runner_getCursor := runner_getCursor r |})
         <$> runner opts;
     Firehose.filterCollections := filterCollections opts;
     Firehose.filterDids := filterDids opts;
     Firehose.unauthenticatedCommits := unauthenticatedCommits opts;
     Firehose.unauthenticatedHandles := unauthenticatedHandles opts;
     Firehose.excludeCommit := excludeCommit opts;
     Firehose.excludeAccount := excludeAccount opts;
     Firehose.excludeIdentity := excludeIdentity opts;
     Firehose.excludeSync := excludeSync opts;
     Firehose.subscriptionReconnectDelay := subscriptionReconnectDelay opts;
     Firehose.handleEvent := λ evt, handleEvent opts (OfFirehose evt) |}.

Definition asJetstreamOptions (opts : IngesterOptions)
  : Jetstream.JetstreamOptions :=
  {| Jetstream.service := service opts;
     Jetstream.getCursor := getCursor opts;
     Jetstream.runner :=
       (λ r, {| Jetstream.runner_getCursor := runner_getCursor r |})
         <$> runner opts;
     Jetstream.filterCollections := filterCollections opts;
     Jetstream.filterDids := filterDids opts;
     Jetstream.compress := compress opts;
     Jetstream.unauthenticatedHandles := unauthenticatedHandles opts;
     Jetstream.excludeCommit := excludeCommit opts;
     Jetstream.excludeAccount := excludeAccount opts;
     Jetstream.excludeIdentity := excludeIdentity opts;
     Jetstream.subscriptionReconnectDelay := subscriptionReconnectDelay opts;
     Jetstream.handleEvent := λ evt, handleEvent opts (OfJetstream evt) |}.

Definition asTurbostreamOptions (opts : IngesterOptions)
  : Turbostream.TurbostreamOptions :=
  {| Turbostream.service := service opts;
     Turbostream.excludeCommit := excludeCommit opts;
     Turbostream.subscriptionReconnectDelay :=
       subscriptionReconnectDelay opts;
     Turbostream.handleEvent := λ evt, handleEvent opts (OfTurbostream evt) |}.

(** [this.ing] *)
Inductive Ingester : Type :=
| IngFirehose (ing : Firehose.FirehoseOptions)
| IngJetstream (ing : Jetstream.JetstreamOptions)
| IngTurbostream (ing : Turbostream.TurbostreamOptions).

(** [new Ingester(mode, opts)]; [mode] is whatever string the caller
    passes. *)
Definition constructor (mode : string) (opts : IngesterOptions)
  : Result Ingester :=
  if bool_decide (mode = "Firehose")
  then IngFirehose <$> Firehose.constructor (asFirehoseOptions opts)
  else if bool_decide (mode = "Jetstream")
  then IngJetstream <$> Jetstream.constructor (asJetstreamOptions opts)
  else if bool_decide (mode = "Turbostream")
  then IngTurbostream <$> Turbostream.constructor (asTurbostreamOptions opts)
  else Throw (newError "Invalid ingester subscription mode.").
End Ingester.
End Ingester.


(** ** The words of the specification *)

Section Vocabulary.
Context `{Collaborators}.

(** The Filter Spec: both membership checks, an empty list matching all. *)
Definition filterSpec (wantedCollections wantedDids : list string)
    (collection did : string) : Prop :=
  (collection ∈ wantedCollections ∨ wantedCollections = [])
  ∧ (did ∈ wantedDids ∨ wantedDids = []).

(** An operation of a commit passes the Filter Spec. *)
Definition passesFilter (wantedCollections wantedDids : list string)
    (evt : Commit) (op : RepoOp) : Prop :=
  ∃ collection rkey,
    parseDataKey (path op) = Ok (collection, rkey)
    ∧ filterSpec wantedCollections wantedDids collection (c_repo evt).


(** An operation appears in a list of commit events. *)
Definition opInOutput (evt : Commit) (op : RepoOp) (evts : list CommitEvt)
  : Prop :=
  ∃ e, e ∈ evts
       ∧ m_uri (ce_meta e) = AtUri_make (c_repo evt) (path op)
       ∧ ce_event e = action op
       ∧ (action op = "delete" ∨ ce_cid e = cid op).

(** The block of a content-id is in the envelope's block set. *)
Definition blockPresent (evt : Commit) (c : CID) : Prop :=
  ∃ car, readCar (c_blocks evt) = Ok car ∧ is_Some (BlockMap_get car c).

(** What [formatCommitOps] asks of an operation to emit an event. *)
Definition emittable (evt : Commit) (op : RepoOp) : Prop :=
  action op = "delete"
  ∨ ((action op = "create" ∨ action op = "update")
     ∧ ∃ c, cid op = Some c ∧ blockPresent evt c).

(** What one turn of the loop of [formatCommitOps] pushes for an
    operation, or the error it stops with. *)
Definition opEvent (evt : Commit) (car : BlockMap) (op : RepoOp)
  : Result (option CommitEvt) :=
  match Firehose.formatCommitOps_loop evt car [op] [] with
  | Ok [] => Ok None
  | Ok (e :: _) => Ok (Some e)
  | Throw err => Throw err
  end.


(** The address the Firehose socket is given for a cursor. *)
Definition firehoseUrl (opts : Firehose.FirehoseOptions)
    (cursor : option Number) : string :=
  default "wss://bsky.network" (Firehose.service opts)
  +:+ "/xrpc/" +:+ Firehose.method +:+ "?"
  +:+ formUrlEncode "cursor" +:+ "="
  +:+ formUrlEncode match cursor with
                    | Some n => Number_toString n
                    | None => ""
                    end.

(** One turn of [start]'s loop over the Firehose: the generator decodes
    and validates the chunk, and the loop body takes what it yields. *)
Definition firehoseTurn (opts : Firehose.FirehoseOptions)
    (chunk : FrameChunk) : M RepoEvent Event unit :=
  evt ← Firehose.nextEvent chunk;
  match evt with
  | Some evt => Firehose.consume opts evt
  | None => mret ()
  end.

(** The same for the Jetstream and the Turbostream. *)
Definition jetstreamTurn (opts : Jetstream.JetstreamOptions)
    (dict : ZstdDictionary) (chunk : FrameChunk)
  : M JetstreamEventKind JetstreamEvent unit :=
  evt ← Jetstream.nextEvent opts dict chunk;
  match evt with
  | Some evt => Jetstream.consume opts evt
  | None => mret ()
  end.

Definition turbostreamTurn (opts : Turbostream.TurbostreamOptions)
    (chunk : FrameChunk)
  : M TurbostreamEventKind TurbostreamCommitEvt unit :=
  evt ← Turbostream.nextEvent chunk;
  match evt with
  | Some evt => Turbostream.processEvt opts evt
  | None => mret ()
  end.

(** The parameter object of the Jetstream socket for a cursor. *)
Definition jetstreamParams (opts : Jetstream.JetstreamOptions)
    (cursor : option Number) : ParamsObject :=
  [("wantedCollections",
    Jetstream.stringArray (Jetstream.filterCollections opts));
   ("wantedDids", Jetstream.stringArray (Jetstream.filterDids opts));
   ("cursor", match cursor with Some n => VNumber n | None => VUndefined end);
   ("compress", match Jetstream.compress opts with
                | Some b => VBoolean b
                | None => VUndefined
                end)].

(** The address the Jetstream socket is given for a query string. *)
Definition jetstreamUrl (opts : Jetstream.JetstreamOptions)
    (query : string) : string :=
  default "wss://jetstream1.us-east.bsky.network" (Jetstream.service opts)
  +:+ "/" +:+ Jetstream.method +:+ "?" +:+ query.

(** One connection attempt of the Jetstream up to the end of its frame
    sequence: the dictionary, the address, the frames. *)
Definition jetstreamAttempt (opts : Jetstream.JetstreamOptions)
    (conn : Jetstream.JetstreamConnection)
  : M JetstreamEventKind JetstreamEvent unit :=
  dict ← liftR (Jetstream.jc_dictionary conn);
  Jetstream.getUrl opts;;
  Jetstream.forAwait opts dict
    (conn_pulls (Jetstream.jc_socket conn))
    (conn_end (Jetstream.jc_socket conn)).

(** One connection attempt of the Firehose up to the end of its frame
    sequence. *)
Definition firehoseAttempt (opts : Firehose.FirehoseOptions)
    (conn : Connection FrameChunk) : M RepoEvent Event unit :=
  Firehose.getUrl opts;;
  Firehose.forAwait opts (conn_pulls conn) (conn_end conn).

Context {Env Ev : Type}.

(** The world after some more entries are logged. *)
Definition logged (w : World Env Ev) (l : list (Effect Env Ev))
  : World Env Ev :=
  {| w_log := w_log w ++ l;
     w_cursorCalls := w_cursorCalls w;
     w_aborted := w_aborted w;
     w_destroyResolved := w_destroyResolved w |}.

(** The world after the cursor source was asked once more and some
    entries are logged. *)
Definition asked (w : World Env Ev) (l : list (Effect Env Ev))
  : World Env Ev :=
  {| w_log := w_log w ++ l;
     w_cursorCalls := S (w_cursorCalls w);
     w_aborted := w_aborted w;
     w_destroyResolved := w_destroyResolved w |}.

(** A later world of the same run: the log has only grown, and the
    cursor source has been asked at least as often. *)
Definition grows (w w' : World Env Ev) : Prop :=
  (∃ l, w_log w' = w_log w ++ l) ∧ w_cursorCalls w ≤ w_cursorCalls w'.

Definition steady {A} (m : M Env Ev A) : Prop :=
  ∀ w r w', m w = (r, w') → grows w w'.

(** What handing the events to the caller's handler logs: the call, and
    the report of a handler error where it throws. *)
Definition handlerTrace (handler : Ev → Result unit) (parsed : list Ev)
  : list (Effect Env Ev) :=
  parsed ≫= λ write,
    HandleEvent write ::
    match handler write with
    | Ok _ => []
    | Throw err => [OnError (HandlerError err write)]
    end.
End Vocabulary.

(** ** The words of the further properties *)

Section Properties.
Context `{Collaborators}.

(** The events the loop of [formatCommitOps] pushes for a list of
    operations, in their order. *)
Definition opEvents (evt : Commit) (car : BlockMap) (ops : list RepoOp)
  : list CommitEvt :=
  ops ≫= λ op,
    match opEvent evt car op with
    | Ok (Some e) => [e]
    | _ => []
    end.

(** What the authenticated path asks of the identity resolver and of the
    proof check for one envelope of a repository: nothing, or a key from
    the cache and a check, and after a check a key with the refresh forced
    and a check of the same claims. *)
Definition lookupsOfEnvelope (did : string)
    (l : list (Effect RepoEvent Event)) : Prop :=
  l = []
  ∨ l = [ResolveAtprotoKey did false]
  ∨ ∃ claims key,
      l = [ResolveAtprotoKey did false; VerifyProofs claims key]
      ∨ l = [ResolveAtprotoKey did false; VerifyProofs claims key;
             ResolveAtprotoKey did true]
      ∨ ∃ key',
          l = [ResolveAtprotoKey did false; VerifyProofs claims key;
               ResolveAtprotoKey did true; VerifyProofs claims key'].

(** The value the Firehose generator hands to [validate]: the body of
    the frame, tagged with the frame's type when both are there. *)
Definition typedBody (message : FrameMessage) : option FrameBody :=
  match body message, header_t message with
  | Some clone, Some t =>
      Some (withType clone
              (if String.prefix "#" t then Firehose.method +:+ t else t))
  | clone, _ => clone
  end.

(** One connection attempt of the Turbostream up to the end of its frame
    sequence. *)
Definition turbostreamAttempt (opts : Turbostream.TurbostreamOptions)
    (conn : Connection FrameChunk)
  : M TurbostreamEventKind TurbostreamCommitEvt unit :=
  Turbostream.getUrl opts;;
  Turbostream.forAwait opts (conn_pulls conn) (conn_end conn).

(** The address of the Turbostream socket. *)
Definition turbostreamUrl (opts : Turbostream.TurbostreamOptions) : string :=
  default "wss://api.graze.social" (Turbostream.service opts)
  +:+ "/app/api/v1/turbostream/" +:+ Turbostream.method.

(** What the Jetstream generator reads off a chunk. *)
Definition jetstreamDecode (opts : Jetstream.JetstreamOptions)
    (dict : ZstdDictionary) (chunk : FrameChunk)
  : Result JetstreamEventKind :=
  if default false (Jetstream.compress opts)
  then decompressed ← decompressUsingDict chunk dict;
       parseJetstreamFrame decompressed
  else parseJetstreamFrame chunk.

(** The name-value pairs of the Jetstream query for a cursor. *)
Definition jetstreamQuery (opts : Jetstream.JetstreamOptions)
    (cursor : option Number) : URLSearchParams :=
  map (λ c, ("wantedCollections", c))
    (default [] (Jetstream.filterCollections opts))
  ++ map (λ d, ("wantedDids", d)) (default [] (Jetstream.filterDids opts))
  ++ match cursor with
     | Some n =>
         if bool_decide (Number_toString n = "") then []
         else [("cursor", Number_toString n)]
     | None => []
     end
  ++ match Jetstream.compress opts with
     | Some true => [("compress", "true")]
     | Some false => [("compress", "false")]
     | None => []
     end.

(** A status [parseAccount] lets through: none, the empty string, or one
    of the four known ones. *)
Definition statusKept (status : option string) : Prop :=
  ∀ s, status = Some s →
       s = "" ∨ s ∈ ["takendown"; "suspended"; "deleted"; "deactivated"].

(** The events the Firehose hands to the handler under given options: of
    a kind that is not excluded, and for a commit, of a record and a
    repository that pass the filter. *)
Definition firehoseDelivers (opts : Firehose.FirehoseOptions) (ev : Event)
  : Prop :=
  match ev with
  | ECommit e =>
      Firehose.excludeCommit opts = false
      ∧ ∃ collection rkey,
          parseDataKey (uri_pathname (m_uri (ce_meta e)))
          = Ok (collection, rkey)
          ∧ filterSpec (default [] (Firehose.filterCollections opts))
              (default [] (Firehose.filterDids opts))
              collection (m_did (ce_meta e))
  | EAccount e =>
      Firehose.excludeAccount opts = false ∧ statusKept (ae_status e)
  | EIdentity _ => Firehose.excludeIdentity opts = false
  | ESync _ => Firehose.excludeSync opts = false
  end.

Definition jetstreamDelivers (opts : Jetstream.JetstreamOptions)
    (ev : JetstreamEvent) : Prop :=
  match ev with
  | JCommit e =>
      Jetstream.excludeCommit opts = false
      ∧ filterSpec (default [] (Jetstream.filterCollections opts))
          (default [] (Jetstream.filterDids opts))
          (jm_collection (jce_meta e)) (jm_did (jce_meta e))
  | JAccount e _ =>
      Jetstream.excludeAccount opts = false ∧ statusKept (ae_status e)
  | JIdentity _ _ => Jetstream.excludeIdentity opts = false
  end.

(** What the Firehose may do under given options, in a run of [start]
    and in the closures it hands to a runner: which callbacks and
    collaborators it may call, and with what. *)
Definition firehoseMay (opts : Firehose.FirehoseOptions)
    (e : Effect RepoEvent Event) : Prop :=
  match e with
  | OnInfo _ | Wait _ | ResolveDestroy => True
  | OnError (ValidationError _) | OnError (SubscriptionError _) => True
  | OnError (DecompressError _) => False
  | GetCursor _ => is_Some (Firehose.getCursorFn opts)
  | TrackEvent _ _ _ => is_Some (Firehose.runner opts)
  | OnError (ParseError _ _) => True
  | HandleEvent ev | OnError (HandlerError _ ev) => firehoseDelivers opts ev
  | ResolveAtprotoKey _ _ | VerifyProofs _ _ =>
      Firehose.excludeCommit opts = false
      ∧ Firehose.unauthenticatedCommits opts = false
  end.

(** The same for the Jetstream, and for [Turbostream.start]. *)
Definition jetstreamMay (opts : Jetstream.JetstreamOptions)
    (e : Effect JetstreamEventKind JetstreamEvent) : Prop :=
  match e with
  | OnInfo _ | Wait _ | ResolveDestroy => True
  | OnError (DecompressError _) | OnError (SubscriptionError _) => True
  | OnError (ValidationError _) => False
  | GetCursor _ => is_Some (Jetstream.getCursorFn opts)
  | TrackEvent _ _ _ => is_Some (Jetstream.runner opts)
  | OnError (ParseError _ _) => True
  | HandleEvent ev | OnError (HandlerError _ ev) => jetstreamDelivers opts ev
  | ResolveAtprotoKey _ _ | VerifyProofs _ _ => False
  end.

Definition turbostreamMay (opts : Turbostream.TurbostreamOptions)
    (e : Effect TurbostreamEventKind TurbostreamCommitEvt) : Prop :=
  match e with
  | OnInfo _ | Wait _ | ResolveDestroy => True
  | OnError (DecompressError _) | OnError (SubscriptionError _) => True
  | OnError (ParseError _ _) => True
  | HandleEvent _ | OnError (HandlerError _ _) =>
      Turbostream.excludeCommit opts = false
  | OnError (ValidationError _) => False
  | GetCursor _ | TrackEvent _ _ _ => False
  | ResolveAtprotoKey _ _ | VerifyProofs _ _ => False
  end.

Context {Env Ev : Type}.

(** Whatever a computation adds to the log satisfies [P]. *)
Definition logsOnly {A} (P : Effect Env Ev → Prop) (m : M Env Ev A) : Prop :=
  ∀ w r w', m w = (r, w') → ∃ l, w_log w' = w_log w ++ l ∧ Forall P l.

(** Whatever a computation returns satisfies [Q]. *)
Definition yields {A} (Q : A → Prop) (m : M Env Ev A) : Prop :=
  ∀ w a w', m w = (Ok a, w') → Q a.

(** A computation does not ask the cursor source. *)
Definition keepsCursor {A} (m : M Env Ev A) : Prop :=
  ∀ w r w', m w = (r, w') → w_cursorCalls w' = w_cursorCalls w.

(** A computation leaves the deferred that [destroy] awaits as it is. *)
Definition keepsDeferred {A} (m : M Env Ev A) : Prop :=
  ∀ w r w', m w = (r, w') → w_destroyResolved w' = w_destroyResolved w.
End Properties.

(** ** A small concrete runtime and repository, to run the code on *)

Module Example.
(** Decimal digits of a natural number, most significant first. *)
Fixpoint digits (fuel n : nat) (acc : string) : string :=
  match fuel with
  | 0 => acc
  | S fuel =>
      let acc :=
        String (Ascii.ascii_of_nat (48 + Nat.modulo n 10)) acc in
      if Nat.eqb (Nat.div n 10) 0 then acc
      else digits fuel (Nat.div n 10) acc
  end.

Definition showZ (z : Z) : string :=
  match z with
  | Z0 => "0"
  | Zpos p => digits (Pos.to_nat p) (Pos.to_nat p) ""
  | Zneg p => "-" +:+ digits (Pos.to_nat p) (Pos.to_nat p) ""
  end.

(** Numbers are integers; a date is kept as the microseconds it was made
    from and prints as that number; nothing is percent-encoded. *)
Definition runtime : JsRuntime :=
  {| Number := Z;
     Number_ofZ := id;
     Number_toString := showZ;
     JsDate := Z;
     Date_toISOString := λ us, Ok ("T" +:+ showZ us);
     Date_ofMicros := id;
     formUrlEncode := id |}.

Fixpoint lookupBlock (car : list (nat * string)) (c : nat) : option string :=
  match car with
  | [] => None
  | (c', s) :: rest => if Nat.eqb c' c then Some s else lookupBlock rest c
  end.

(** Content-ids are numbers.  A container is the list of its blocks; a
    block decodes to the record it spells unless it is empty. *)
Definition data : RepoData :=
  {| CID := nat;
     Bytes := list (nat * string);
     BlockMap := list (nat * string);
     BlockMap_get := λ car c, (λ s, [(c, s)]) <$> lookupBlock car c;
     RepoRecord := string;
     SigningKey := bool;
     DidDocument := string;
     FrameChunk := nat;
     FrameBody := nat;
     JetstreamRecord := string;
     LexValue := string;
     HydratedMetadata := unit;
     ZstdDictionary := unit |}.

(** [key.split('/')] must give two parts. *)
Fixpoint splitAtSlash (s : string) : option (string * string) :=
  match s with
  | EmptyString => None
  | String c rest =>
      if bool_decide (String c EmptyString = "/") then Some (EmptyString, rest)
      else
        match splitAtSlash rest with
        | Some (a, b) => Some (String c a, b)
        | None => None
        end
  end.

Definition dataKey (key : string) : Result (string * string) :=
  match splitAtSlash key with
  | Some (collection, rkey) =>
      match splitAtSlash rkey with
      | None => Ok (collection, rkey)
      | Some _ => Throw (newError ("Invalid record key: " +:+ key))
      end
  | None => Throw (newError ("Invalid record key: " +:+ key))
  end.

#[local] Existing Instance runtime.
#[local] Existing Instance data.

Definition account (status : option string) : Account :=
  {| a_seq := 7%Z; a_did := "did:plc:alice"; a_time := "2025-01-01";
     a_active := false; a_status := status |}.

Definition identity : Identity :=
  {| i_seq := 8%Z; i_did := "did:plc:alice"; i_time := "2025-01-01" |}.

Definition commitOf (repo : string) (blocks : list (nat * string))
    (ops : list RepoOp) : Commit :=
  {| c_seq := 9%Z; c_repo := repo; c_commit := 0; c_rev := "rev";
     c_blocks := blocks; c_ops := ops; c_time := "2025-01-01" |}.

Definition post (action : string) (rkey : string) (cid : option nat)
  : RepoOp :=
  {| action := action; path := "app.bsky.feed.post/" +:+ rkey;
     cid := cid |}.

Definition jetstreamPost : JetstreamEventKindCommit :=
  {| kc_did := "did:plc:alice"; kc_time_us := 5000%Z;
     kc_commit := OperationCreate "rev" "app.bsky.feed.post" "3k" "hi" "c" |}.

(** The resolver's cache holds a stale key for did:plc:rotated until a
    refresh is forced, and no valid key for did:plc:revoked.  Under a
    valid key the proof check finds in the repository every claimed
    record whose key is not "forged"; it reads the block of each record
    it finds, and fails with a MissingBlockError when the container does
    not hold it; the claims it finds are the verified ones.
    did:web:broken sends a container that cannot be read. *)
Definition collaborators : Collaborators :=
  {| parseDataKey := dataKey;
     formatDataKey := λ collection rkey, collection +:+ "/" +:+ rkey;
     AtUri_collection := λ uri,
       match dataKey (uri_pathname uri) with
       | Ok (collection, _) => collection | Throw _ => "" end;
     AtUri_rkey := λ uri,
       match dataKey (uri_pathname uri) with
       | Ok (_, rkey) => rkey | Throw _ => "" end;
     readCar := λ bytes, Ok bytes;
     readCarWithRoot := λ bytes,
       match bytes with
       | (root, _) :: _ => Ok (root, bytes)
       | [] => Throw (newError "Expected one root")
       end;
     cborToLexRecord := λ bytes,
       match bytes with
       | [(_, s)] =>
           if bool_decide (s = "") then Throw (newError "Unexpected end")
           else Ok s
       | _ => Throw (newError "Unexpected end")
       end;
     verifyProofs := λ blocks claims did key,
       if bool_decide (did = "did:web:broken")
       then Throw (newError "Could not parse CAR")
       else if key : bool
       then
         let found :=
           List.filter
             (λ c, negb (bool_decide (claim_rkey c = "forged"))) claims in
         if forallb
              (λ c, match claim_cid c with
                    | Some cid =>
                        match lookupBlock blocks cid with
                        | Some _ => true
                        | None => false
                        end
                    | None => true
                    end)
              found
         then Ok found
         else Throw (NamedError "MissingBlockError" "block not found")
       else Throw (RepoVerificationError "Invalid signature on commit");
     resolveAtprotoKey := λ did forceRefresh,
       if bool_decide (did = "did:web:gone")
       then Throw (newError "Could not resolve DID")
       else Ok (negb (bool_decide (did = "did:plc:revoked"))
                && (forceRefresh
                    || negb (bool_decide (did = "did:plc:rotated"))));
     did_resolve := λ did, Ok (Some did);
     documentHandle := λ doc, Ok (Some "alice.test");
     handle_resolve := λ handle, Ok (Some "did:plc:alice");
     ensureChunkIsMessage := λ chunk,
       match chunk with
       | 0 => Throw (newError "Error frame")
       | _ => Ok {| header_t := Some "#account"; body := Some chunk |}
       end;
     withType := λ clone type, clone;
     assertValidXrpcMessage := λ value,
       match value with
       | Some 1 => Ok (EvtAccount (account (Some "deleted")))
       | Some 2 => Ok (EvtIdentity identity)
       | Some 3 => Ok EvtInfo
       | _ => Throw (newError "Message must have the property")
       end;
     CID_parse := λ s, Ok (String.length s);
     ipldToLex := λ record, Ok record;
     asRecord := λ v, if bool_decide (v = "") then None else Some v;
     decompressUsingDict := λ chunk dict, Ok chunk;
     parseJetstreamFrame := λ chunk,
       match chunk with
       | 1 => Ok (KindAccount "did:plc:alice" 5000%Z (account None))
       | 2 => Ok (KindCommit jetstreamPost)
       | _ => Throw (newError "Unexpected token")
       end;
     parseTurbostreamFrame := λ chunk,
       match chunk with
       | 1 => Ok {| t_at_uri := "at://did:plc:alice/app.bsky.feed.post/3k";
                    t_did := "did:plc:alice"; t_time_us := Some 5000%Z;
                    t_message := jetstreamPost;
                    t_hydrated_metadata := () |}
       | _ => Throw (newError "Unexpected token")
       end |}.
#[local] Existing Instance collaborators.

(** A fresh run: nothing logged, no cursor asked, no abort. *)
Definition world0 {Env Ev} : World Env Ev :=
  {| w_log := []; w_cursorCalls := 0;
     w_aborted := false; w_destroyResolved := false |}.

(** The cursor source of the examples: the n-th call answers 100 + n. *)
Definition cursors : CursorSource := λ n, Ok (Some (100 + Z.of_nat n)%Z).

Definition firehoseOptions (handler : Event → Result unit)
  : Firehose.FirehoseOptions :=
  {| Firehose.service := None;
     Firehose.getCursor := Some cursors;
     Firehose.runner := None;
     Firehose.filterCollections := None;
     Firehose.filterDids := None;
     Firehose.unauthenticatedCommits := false;
     Firehose.unauthenticatedHandles := false;
     Firehose.excludeCommit := false;
     Firehose.excludeAccount := false;
     Firehose.excludeIdentity := false;
     Firehose.excludeSync := false;
     Firehose.subscriptionReconnectDelay := None;
     Firehose.handleEvent := handler |}.

Definition jetstreamOptions (handler : JetstreamEvent → Result unit)
  : Jetstream.JetstreamOptions :=
  {| Jetstream.service := None;
     Jetstream.getCursor := Some cursors;
     Jetstream.runner := None;
     Jetstream.filterCollections := None;
     Jetstream.filterDids := None;
     Jetstream.compress := None;
     Jetstream.unauthenticatedHandles := false;
     Jetstream.excludeCommit := false;
     Jetstream.excludeAccount := false;
     Jetstream.excludeIdentity := false;
     Jetstream.subscriptionReconnectDelay := None;
     Jetstream.handleEvent := handler |}.

(** A commit of four operations whose container holds the one block
    they name: a create, an operation whose action is none of create,
    update and delete (the lexicon types the action as a plain string),
    a delete, and an update the repository does not back. *)
Definition commit1 : Commit :=
  commitOf "did:plc:alice" [(1, "hello")]
    [post "create" "a" (Some 1); post "archive" "d" (Some 1);
     post "delete" "c" None; post "update" "forged" (Some 1)].

(** A commit whose only block does not decode to a record. *)
Definition commit2 : Commit :=
  commitOf "did:plc:alice" [(1, "")]
    [post "create" "a" (Some 1); post "delete" "c" None].

(** A commit of a repository whose key no refresh makes valid. *)
Definition commit3 : Commit :=
  commitOf "did:plc:revoked" [(1, "hello")] [post "create" "a" (Some 1)].

Definition claim (rkey : string) (cid : option nat) : RecordCidClaim :=
  {| claim_collection := "app.bsky.feed.post"; claim_rkey := rkey;
     claim_cid := cid |}.

Definition jetstreamScript : list Jetstream.JetstreamConnection :=
  [{| Jetstream.jc_dictionary := Ok ();
      Jetstream.jc_socket :=
        {| conn_pulls := [Frame 1; Frame 2];
           conn_end := EndThrows (newError "ECONNRESET") |} |};
   {| Jetstream.jc_dictionary := Ok ();
      Jetstream.jc_socket :=
        {| conn_pulls := [Frame 1]; conn_end := EndReturns |} |}].

(** What the code gives on these inputs, evaluated. *)
Definition commit1_events : list CommitEvt :=
  Eval vm_compute in
    match (Firehose.parseCommitAuthenticated commit1 [] [] false world0).1 with
    | Ok evts => evts
    | Throw _ => []
    end.

Definition commit1_world : World RepoEvent Event :=
  Eval vm_compute in
    (Firehose.parseCommitAuthenticated commit1 [] [] false world0).2.

Definition reset : Connection FrameChunk :=
  {| conn_pulls := [Frame 1; Frame 2];
     conn_end := EndThrows (newError "ECONNRESET") |}.

Definition stopped : Connection FrameChunk :=
  {| conn_pulls := [Frame 3] ++ DestroyCalled :: [Frame 1];
     conn_end := EndReturns |}.

Definition quiet : Firehose.FirehoseOptions := firehoseOptions (λ _, Ok ()).

(** The world when the first connection of [script] is reset. *)
Definition reset_world : World RepoEvent Event :=
  Eval vm_compute in (firehoseAttempt quiet reset world0).2.

(** The address resolved and the world on connecting from [world0], and
    the world once the frame before the stop is consumed. *)
Definition connected_url : string :=
  Eval vm_compute in
    match (Firehose.getUrl quiet world0).1 with
    | Ok url => url
    | Throw _ => ""
    end.

Definition connected_world : World RepoEvent Event :=
  Eval vm_compute in (Firehose.getUrl quiet world0).2.

Definition streaming_world : World RepoEvent Event :=
  Eval vm_compute in
    (Firehose.forAwait quiet [Frame 3] EndReturns connected_world).2.
(** What the unauthenticated path gives for [commit1], and the event of
    its first operation. *)
Definition commit1_unverified : list CommitEvt :=
  Eval vm_compute in
    match Firehose.parseCommitUnauthenticated commit1 [] [] with
    | Ok evts => evts
    | Throw _ => []
    end.

Definition commit1_created : CommitEvt :=
  {| ce_meta :=
       Firehose.commitMeta commit1 (c_blocks commit1)
         (post "create" "a" (Some 1));
     ce_event := "create";
     ce_cid := Some 1;
     ce_record := Some "hello" |}.

(** Options that want the commits of one other repository only. *)
Definition onlyBob : Firehose.FirehoseOptions :=
  {| Firehose.service := None;
     Firehose.getCursor := Some cursors;
     Firehose.runner := None;
     Firehose.filterCollections := None;
     Firehose.filterDids := Some ["did:plc:bob"];
     Firehose.unauthenticatedCommits := false;
     Firehose.unauthenticatedHandles := false;
     Firehose.excludeCommit := false;
     Firehose.excludeAccount := false;
     Firehose.excludeIdentity := false;
     Firehose.excludeSync := false;
     Firehose.subscriptionReconnectDelay := None;
     Firehose.handleEvent := λ _, Ok () |}.

(** Options with a runner, and options whose cursor source fails. *)
Definition tracked : Firehose.FirehoseOptions :=
  {| Firehose.service := None;
     Firehose.getCursor := None;
     Firehose.runner := Some {| Firehose.runner_getCursor := cursors |};
     Firehose.filterCollections := None;
     Firehose.filterDids := None;
     Firehose.unauthenticatedCommits := false;
     Firehose.unauthenticatedHandles := false;
     Firehose.excludeCommit := false;
     Firehose.excludeAccount := false;
     Firehose.excludeIdentity := false;
     Firehose.excludeSync := false;
     Firehose.subscriptionReconnectDelay := None;
     Firehose.handleEvent := λ _, Ok () |}.

Definition failing : CursorSource := λ _, Throw (newError "ECONNREFUSED").

(** A cursor source whose own request is aborted, by a time limit of its
    own say: it throws an error named AbortError. *)
Definition aborting : CursorSource :=
  λ _, Throw (NamedError "AbortError" "The operation was aborted").

Definition impatient : Firehose.FirehoseOptions :=
  {| Firehose.service := None;
     Firehose.getCursor := Some aborting;
     Firehose.runner := None;
     Firehose.filterCollections := None;
     Firehose.filterDids := None;
     Firehose.unauthenticatedCommits := false;
     Firehose.unauthenticatedHandles := false;
     Firehose.excludeCommit := false;
     Firehose.excludeAccount := false;
     Firehose.excludeIdentity := false;
     Firehose.excludeSync := false;
     Firehose.subscriptionReconnectDelay := None;
     Firehose.handleEvent := λ _, Ok () |}.

Definition flaky : Firehose.FirehoseOptions :=
  {| Firehose.service := None;
     Firehose.getCursor := Some failing;
     Firehose.runner := None;
     Firehose.filterCollections := None;
     Firehose.filterDids := None;
     Firehose.unauthenticatedCommits := false;
     Firehose.unauthenticatedHandles := false;
     Firehose.excludeCommit := false;
     Firehose.excludeAccount := false;
     Firehose.excludeIdentity := false;
     Firehose.excludeSync := false;
     Firehose.subscriptionReconnectDelay := None;
     Firehose.handleEvent := λ _, Ok () |}.

(** A commit with an operation whose path is not a data key. *)
Definition unkeyed : RepoOp :=
  {| action := "delete"; path := "nopath"; cid := None |}.

Definition commit4 : Commit :=
  commitOf "did:plc:alice" [(1, "hello")]
    [post "create" "a" (Some 1); unkeyed].

Definition identity_parsed : option IdentityEvt :=
  Eval vm_compute in
    match Firehose.parseIdentity identity false with
    | Ok parsed => parsed
    | Throw _ => None
    end.

Definition quietJetstream : Jetstream.JetstreamOptions :=
  jetstreamOptions (λ _, Ok ()).

Definition quietTurbostream : Turbostream.TurbostreamOptions :=
  {| Turbostream.service := None;
     Turbostream.excludeCommit := false;
     Turbostream.subscriptionReconnectDelay := None;
     Turbostream.handleEvent := λ _, Ok () |}.

(** A connection attempt of the Jetstream whose dictionary download
    fails. *)
Definition noDictionary : Jetstream.JetstreamConnection :=
  {| Jetstream.jc_dictionary := Throw (newError "fetch failed");
     Jetstream.jc_socket := reset |}.

Definition trackedJetstream : Jetstream.JetstreamOptions :=
  {| Jetstream.service := None;
     Jetstream.getCursor := None;
     Jetstream.runner := Some {| Jetstream.runner_getCursor := cursors |};
     Jetstream.filterCollections := None;
     Jetstream.filterDids := None;
     Jetstream.compress := None;
     Jetstream.unauthenticatedHandles := false;
     Jetstream.excludeCommit := false;
     Jetstream.excludeAccount := false;
     Jetstream.excludeIdentity := false;
     Jetstream.subscriptionReconnectDelay := None;
     Jetstream.handleEvent := λ _, Ok () |}.

(** With a runner: the worlds at the end of a whole run of [start], and
    once the runner has run, from [world0], the closure it was handed
    for an envelope. *)
Definition tracked_end : World RepoEvent Event :=
  Eval vm_compute in (Firehose.start tracked [reset] world0).2.

Definition tracked_work_end : World RepoEvent Event :=
  Eval vm_compute in
    (Firehose.trackedWork tracked (EvtAccount (account (Some "deleted")))
       world0).2.

Definition jetstream_tracked_end
  : World JetstreamEventKind JetstreamEvent :=
  Eval vm_compute in
    (Jetstream.start trackedJetstream jetstreamScript world0).2.

Definition jetstream_work_end : World JetstreamEventKind JetstreamEvent :=
  Eval vm_compute in
    (Jetstream.trackedWork trackedJetstream (KindCommit jetstreamPost)
       world0).2.

(** A connection that delivers one frame and closes without an error,
    and the world when it has. *)
Definition calm : Connection FrameChunk :=
  {| conn_pulls := [Frame 1]; conn_end := EndReturns |}.

Definition calm_end : World RepoEvent Event :=
  Eval vm_compute in (firehoseAttempt quiet calm world0).2.

(** The worlds at the end of whole runs. *)
Definition reset_end : World RepoEvent Event :=
  Eval vm_compute in (Firehose.start quiet [reset] world0).2.

Definition stopped_end : World RepoEvent Event :=
  Eval vm_compute in (Firehose.start quiet [stopped] world0).2.

Definition jetstream_end : World JetstreamEventKind JetstreamEvent :=
  Eval vm_compute in (Jetstream.start quietJetstream jetstreamScript world0).2.

Definition turbostream_end
  : World TurbostreamEventKind TurbostreamCommitEvt :=
  Eval vm_compute in (Turbostream.start quietTurbostream [reset] world0).2.
(** The Jetstream and the Turbostream connected from [world0], and once
    a first frame is consumed; the Turbostream when its connection is
    reset. *)
Definition jetstream_url : string :=
  Eval vm_compute in
    match (Jetstream.getUrl quietJetstream world0).1 with
    | Ok url => url
    | Throw _ => ""
    end.

Definition jetstream_connected : World JetstreamEventKind JetstreamEvent :=
  Eval vm_compute in (Jetstream.getUrl quietJetstream world0).2.

Definition jetstream_streaming : World JetstreamEventKind JetstreamEvent :=
  Eval vm_compute in
    (Jetstream.forAwait quietJetstream () [Frame 1] EndReturns
       jetstream_connected).2.

Definition turbostream_url : string :=
  Eval vm_compute in
    match (Turbostream.getUrl quietTurbostream world0).1 with
    | Ok url => url
    | Throw _ => ""
    end.

Definition turbostream_connected
  : World TurbostreamEventKind TurbostreamCommitEvt :=
  Eval vm_compute in (Turbostream.getUrl quietTurbostream world0).2.

Definition turbostream_streaming
  : World TurbostreamEventKind TurbostreamCommitEvt :=
  Eval vm_compute in
    (Turbostream.forAwait quietTurbostream [Frame 1] EndReturns
       turbostream_connected).2.

Definition turbostream_reset
  : World TurbostreamEventKind TurbostreamCommitEvt :=
  Eval vm_compute in (turbostreamAttempt quietTurbostream reset world0).2.
End Example.

(** * Theorems *)

(** ** Query parameters *)

Section QueryParamFacts.
Context `{JsRuntime}.

(** The two copies of [encodeQueryParam] are the same function. *)
Lemma encodeQueryParam_same (value : JsValue) :
  Jetstream.encodeQueryParam value = Firehose.encodeQueryParam value.
Proof. reflexivity. Qed.

(** The rules of [encodeQueryParam] that do not depend on the variant. *)
Lemma encodeQueryParam_rules :
  (∀ s, Firehose.encodeQueryParam (VString s) = Ok (EncString s))
  ∧ (∀ n, Firehose.encodeQueryParam (VNumber n)
          = Ok (EncString (Number_toString n)))
  ∧ Firehose.encodeQueryParam (VBoolean true) = Ok (EncString "true")
  ∧ Firehose.encodeQueryParam (VBoolean false) = Ok (EncString "false")
  ∧ Firehose.encodeQueryParam VUndefined = Ok (EncString "")
  ∧ (∀ d iso, Date_toISOString d = Ok iso →
              Firehose.encodeQueryParam (VDate d) = Ok (EncString iso))
  ∧ (∀ ss, Firehose.encodeQueryParam (VArray (map VString ss))
           = Ok (EncArray ss))
  ∧ (∀ v, v = VObject ∨ v = VFunction ∨ v = VSymbol ∨ v = VBigInt →
          ∃ err, Firehose.encodeQueryParam v = Throw err).
Proof.
  repeat split; try done.
  - intros d iso Hd. cbn. by rewrite Hd.
  - intros ss. cbn. induction ss as [|s ss IH]; [done|].
    cbn in *. by destruct (flatMapR _ _); cbn in *; simplify_eq.
  - intros v [->|[->|[->| ->]]]; eauto.
Qed.

(** An array under a key: one occurrence of the key per element. *)
Lemma encodeQueryEntries_array (key : string) (ss : list string) :
  Firehose.encodeQueryEntries [(key, VArray (map VString ss))] []
  = Ok (map (λ s, (key, s)) ss)
  ∧ Jetstream.encodeQueryEntries [(key, VArray (map VString ss))] []
    = Ok (map (λ s, (key, s)) ss).
Proof.
  assert (Hfold : ∀ (acc : URLSearchParams),
             fold_left (λ p enc, params_append p key enc) ss acc
             = acc ++ map (λ s, (key, s)) ss).
  { induction ss as [|s ss IH]; intros acc; cbn.
    - by rewrite app_nil_r.
    - rewrite IH. unfold params_append. by rewrite <- app_assoc. }
  destruct encodeQueryParam_rules as (_ & _ & _ & _ & _ & _ & Harr & _).
  split.
  - unfold Firehose.encodeQueryEntries. rewrite Harr. cbn. by rewrite Hfold.
  - unfold Jetstream.encodeQueryEntries. rewrite encodeQueryParam_same, Harr.
    cbn. by rewrite Hfold.
Qed.

(** C5 (the code departs from it).  Under a key whose value is
    [undefined], the Jetstream encoder leaves the key out of the query,
    as the claim has it for both variants; the Firehose encoder sets the
    key to the empty string, so the query carries [key=]. *)
Theorem undefined_param_kept_by_firehose (key : string) :
  Firehose.encodeQueryEntries [(key, VUndefined)] [] = Ok [(key, "")]
  ∧ Firehose.encodeQueryParams [(key, VUndefined)]
    = Ok (formUrlEncode key +:+ "=" +:+ formUrlEncode "")
  ∧ Jetstream.encodeQueryEntries [(key, VUndefined)] [] = Ok []
  ∧ Jetstream.encodeQueryParams [(key, VUndefined)] = Ok "".
Proof. done. Qed.
End QueryParamFacts.

(** ** Account events *)

Section AccountFacts.
Context `{Collaborators}.

(** A status that is a non-empty string outside the enumeration drops the
    account event. *)
Lemma parseAccount_unknown_status (evt : Account) (status : string) :
  a_status evt = Some status →
  status ≠ "" →
  status ∉ ["takendown"; "suspended"; "deleted"; "deactivated"] →
  Firehose.parseAccount evt = None.
Proof.
  intros Hs Hne Hnot. unfold Firehose.parseAccount. rewrite Hs.
  unfold Firehose.isValidStatus, includes.
  by rewrite !bool_decide_eq_false_2.
Qed.

(** C9 (the code departs from it).  The empty string is a status that is
    present and is not in the enumeration, and the event is emitted with
    it: the guard [evt.status && ...] takes the empty string for an absent
    status. *)
Theorem parseAccount_keeps_empty_status
    (seq : Number) (did time : string) (active : bool) :
  Firehose.parseAccount
    {| a_seq := seq; a_did := did; a_time := time;
       a_active := active; a_status := Some "" |}
  = Some {| ae_seq := seq; ae_time := time; ae_did := did;
            ae_active := active; ae_status := Some "" |}
  ∧ "" ∉ ["takendown"; "suspended"; "deleted"; "deactivated"].
Proof.
  split; [done|]. intros Hin.
  repeat (apply elem_of_cons in Hin as [?|Hin]; [done|]).
  by apply elem_of_nil in Hin.
Qed.

(** C10.  An account envelope without a status is emitted, with an
    undefined status: the enumeration is not consulted. *)
Theorem parseAccount_absent_status (evt : Account) :
  a_status evt = None →
  Firehose.parseAccount evt
  = Some {| ae_seq := a_seq evt; ae_time := a_time evt;
            ae_did := a_did evt; ae_active := a_active evt;
            ae_status := None |}.
Proof. intros Hs. unfold Firehose.parseAccount. by rewrite Hs. Qed.
End AccountFacts.

(** ** The filter *)

Section FilterFacts.
Context `{Collaborators}.

Lemma isEmpty_true {A} (l : list A) : isEmpty l = true ↔ l = [].
Proof. by destruct l. Qed.

(** The test written in [maybeFilterOps] and in
    [parseJetstreamKindCommitUnauthenticated] decides the Filter Spec. *)
Lemma filter_test_spec (fc fd : list string) (collection did : string) :
  (isEmpty fc || includes fc collection)
  && (isEmpty fd || includes fd did) = true
  ↔ filterSpec fc fd collection did.
Proof.
  unfold filterSpec, includes.
  rewrite andb_true_iff, !orb_true_iff, !isEmpty_true, !bool_decide_eq_true.
  tauto.
Qed.

Lemma filterR_Ok {A} (f : A → Result bool) (xs kept : list A) :
  filterR f xs = Ok kept →
  ∀ x, x ∈ kept ↔ x ∈ xs ∧ f x = Ok true.
Proof.
  revert kept. induction xs as [|y xs IH]; intros kept; cbn.
  - intros [= <-] x. split; [by intros ?%elem_of_nil|].
    by intros [?%elem_of_nil _].
  - destruct (f y) as [keep|] eqn:Hy; cbn; [|done].
    destruct (filterR f xs) as [ys|]; cbn; [|done].
    intros [= <-] x. specialize (IH ys eq_refl x).
    destruct keep; rewrite ?elem_of_cons, IH;
      intuition (subst; congruence).
Qed.

Lemma filterR_all {A} (f : A → Result bool) (xs : list A) :
  (∀ x, x ∈ xs → f x = Ok true) → filterR f xs = Ok xs.
Proof.
  induction xs as [|y xs IH]; intros Hall; [done|]. cbn.
  rewrite (Hall y) by left. cbn. rewrite IH; [done|].
  intros x Hx. apply Hall. by right.
Qed.

Lemma filterR_each {A} (f : A → Result bool) (xs kept : list A) :
  filterR f xs = Ok kept → ∀ x, x ∈ xs → ∃ keep, f x = Ok keep.
Proof.
  revert kept. induction xs as [|y xs IH]; intros kept; cbn.
  - by intros _ x ?%elem_of_nil.
  - destruct (f y) as [keep|] eqn:Hy; cbn; [|done].
    destruct (filterR f xs) as [ys|]; cbn; [|done].
    intros _ x [->|Hx]%elem_of_cons; eauto.
Qed.

Lemma maybeFilterOps_spec (evt : Commit) (fc fd : list string)
    (kept : list RepoOp) :
  Firehose.maybeFilterOps evt fc fd = Ok kept →
  ∀ op, op ∈ kept ↔ op ∈ c_ops evt ∧ passesFilter fc fd evt op.
Proof.
  intros Hk op. unfold Firehose.maybeFilterOps in Hk.
  rewrite (filterR_Ok _ _ _ Hk op). unfold passesFilter.
  split; intros [Hin Hp]; (split; [done|]).
  - destruct (parseDataKey (path op)) as [[collection rkey]|]; [|done].
    cbn in Hp. exists collection, rkey. split; [done|].
    apply filter_test_spec. by simplify_eq.
  - destruct Hp as (collection & rkey & -> & Hp). cbn.
    apply filter_test_spec in Hp. by rewrite Hp.
Qed.

Lemma filterR_none {A} (f : A → Result bool) (xs : list A) :
  (∀ x, x ∈ xs → f x = Ok false) → filterR f xs = Ok [].
Proof.
  induction xs as [|x xs IH]; intros Hf; [done|]. cbn.
  rewrite (Hf x) by left. cbn. rewrite IH; [done|].
  intros y Hy. apply Hf. by right.
Qed.

Lemma filterR_Throw {A} (f : A → Result bool) (xs : list A) (x : A)
    (err : Exn) :
  x ∈ xs → f x = Throw err → ∃ err', filterR f xs = Throw err'.
Proof.
  induction xs as [|y xs IH]; intros Hin Hf; [by apply elem_of_nil in Hin|].
  cbn. destruct (f y) as [keep|err'] eqn:Hy; cbn; [|by eauto].
  apply elem_of_cons in Hin as [->|Hin]; [congruence|].
  destruct (IH Hin Hf) as [err' ->]. cbn. by eauto.
Qed.

Lemma filterR_returns {A} (f : A → Result bool) (xs : list A) :
  (∀ x, x ∈ xs → ∃ keep, f x = Ok keep) → ∃ kept, filterR f xs = Ok kept.
Proof.
  induction xs as [|x xs IH]; intros Hf; [by eexists|]. cbn.
  destruct (Hf x) as [keep ->]; [by left|]. cbn.
  destruct IH as [kept ->]; [|by eexists].
  intros y Hy. apply Hf. by right.
Qed.

(** C4 (amended).  For an envelope all of whose operation paths are data
    keys the Firehose filter returns, and an operation passes exactly
    when both membership checks hold, an empty list matching everything:
    with both lists empty every operation passes.  An operation whose
    path is not a data key makes the filter throw, whatever the lists:
    then no operation of the envelope passes.  In the Jetstream, where
    the collection is a field of the frame, the commit is formatted
    exactly under the same conjunction. *)
Theorem filter_is_conjunction (evt : Commit)
    (jevt : JetstreamEventKindCommit) (fc fd : list string) :
  ((∀ op, op ∈ c_ops evt → ∃ key, parseDataKey (path op) = Ok key) →
   ∃ kept,
     Firehose.maybeFilterOps evt fc fd = Ok kept
     ∧ (∀ op, op ∈ kept ↔ op ∈ c_ops evt ∧ passesFilter fc fd evt op)
     ∧ (fc = [] → fd = [] → kept = c_ops evt))
  ∧ (∀ op err,
       op ∈ c_ops evt →
       parseDataKey (path op) = Throw err →
       ∃ err', Firehose.maybeFilterOps evt fc fd = Throw err')
  ∧ (filterSpec fc fd (operation_collection (kc_commit jevt)) (kc_did jevt)
     → Jetstream.parseJetstreamKindCommitUnauthenticated jevt fc fd
       = Jetstream.formatCommitEvt jevt)
  ∧ (¬ filterSpec fc fd (operation_collection (kc_commit jevt))
         (kc_did jevt)
     → Jetstream.parseJetstreamKindCommitUnauthenticated jevt fc fd
       = Ok None)
  ∧ Jetstream.parseJetstreamKindCommitUnauthenticated jevt [] []
    = Jetstream.formatCommitEvt jevt.
Proof.
  split; [|split; [|split; [|split; [|done]]]].
  - intros Hkeys.
    destruct (filterR_returns
                (λ op,
                   '(collection, _) ← parseDataKey (path op);
                   Ok ((isEmpty fc || includes fc collection)
                       && (isEmpty fd || includes fd (c_repo evt))))
                (c_ops evt)) as [kept Hk].
    { intros op Hop. destruct (Hkeys op Hop) as [[collection rkey] ->].
      by eexists. }
    exists kept. split; [done|]. split; [by apply maybeFilterOps_spec|].
    intros -> ->. unfold Firehose.maybeFilterOps in Hk.
    rewrite filterR_all in Hk; [by simplify_eq|].
    intros op Hop. by destruct (Hkeys op Hop) as [[collection rkey] ->].
  - intros op err Hop Hkey.
    apply (filterR_Throw _ _ op err Hop). by rewrite Hkey.
  - intros Hp%filter_test_spec.
    unfold Jetstream.parseJetstreamKindCommitUnauthenticated.
    by rewrite Hp.
  - intros Hp. unfold Jetstream.parseJetstreamKindCommitUnauthenticated.
    destruct (_ && _) eqn:E; [|done].
    by apply filter_test_spec in E.
Qed.
End FilterFacts.

(** ** Formatting the operations of a commit *)

Section FormatFacts.
Context `{Collaborators}.

Lemma formatCommitOps_loop_cons (evt : Commit) (car : BlockMap)
    (op : RepoOp) (rest : list RepoOp) (evts : list CommitEvt) :
  Firehose.formatCommitOps_loop evt car (op :: rest) evts
  = e ← opEvent evt car op;
    Firehose.formatCommitOps_loop evt car rest (evts ++ option_list e).
Proof.
  unfold opEvent. cbn.
  destruct (_ || _).
  - destruct (cid op) as [c|]; cbn; [|by rewrite app_nil_r].
    destruct (BlockMap_get car c); cbn; [|by rewrite app_nil_r].
    by destruct (cborToLexRecord _).
  - destruct (bool_decide _); cbn; [done|by rewrite app_nil_r].
Qed.

Lemma formatCommitOps_loop_app (evt : Commit) (car : BlockMap)
    (before after : list RepoOp) (evts : list CommitEvt) :
  Firehose.formatCommitOps_loop evt car (before ++ after) evts
  = evts' ← Firehose.formatCommitOps_loop evt car before evts;
    Firehose.formatCommitOps_loop evt car after evts'.
Proof.
  revert evts. induction before as [|op before IH]; intros evts; [done|].
  rewrite <- app_comm_cons, !formatCommitOps_loop_cons.
  destruct (opEvent evt car op); cbn; [apply IH|done].
Qed.

(** An operation the loop leaves out: a create or update without a
    content-id, or whose block is not in the block set. *)
Lemma opEvent_skipped (evt : Commit) (car : BlockMap) (op : RepoOp) :
  action op = "create" ∨ action op = "update" →
  cid op = None ∨ (∃ c, cid op = Some c ∧ BlockMap_get car c = None) →
  opEvent evt car op = Ok None.
Proof.
  intros Hact Hcid. unfold opEvent. cbn.
  replace (_ || _) with true
    by (by destruct Hact as [-> | ->]).
  by destruct Hcid as [-> | (c & -> & ->)].
Qed.

Lemma opEvent_undecodable (evt : Commit) (car : BlockMap) (op : RepoOp)
    (c : CID) (recordBytes : Bytes) (err : Exn) :
  action op = "create" ∨ action op = "update" →
  cid op = Some c →
  BlockMap_get car c = Some recordBytes →
  cborToLexRecord recordBytes = Throw err →
  opEvent evt car op = Throw err.
Proof.
  intros Hact Hc Hb Hd. unfold opEvent. cbn.
  replace (_ || _) with true
    by (by destruct Hact as [-> | ->]).
  by rewrite Hc, Hb, Hd.
Qed.

Lemma formatCommitOps_loop_each (evt : Commit) (car : BlockMap)
    (ops : list RepoOp) (acc evts : list CommitEvt) :
  Firehose.formatCommitOps_loop evt car ops acc = Ok evts →
  ∀ op, op ∈ ops → ∃ oe, opEvent evt car op = Ok oe.
Proof.
  revert acc. induction ops as [|op' ops IH]; intros acc Hloop op Hin.
  - by apply elem_of_nil in Hin.
  - rewrite formatCommitOps_loop_cons in Hloop.
    destruct (opEvent evt car op') as [oe|] eqn:Hoe; [|done].
    apply elem_of_cons in Hin as [->|Hin]; [eauto|].
    by eapply IH.
Qed.

Lemma formatCommitOps_loop_elem (evt : Commit) (car : BlockMap)
    (ops : list RepoOp) (acc evts : list CommitEvt) :
  Firehose.formatCommitOps_loop evt car ops acc = Ok evts →
  ∀ e, e ∈ evts
       ↔ e ∈ acc ∨ ∃ op, op ∈ ops ∧ opEvent evt car op = Ok (Some e).
Proof.
  revert acc. induction ops as [|op' ops IH]; intros acc Hloop e.
  - cbn in Hloop. simplify_eq. split; [by left|].
    intros [?|(op & ?%elem_of_nil & _)]; done.
  - rewrite formatCommitOps_loop_cons in Hloop.
    destruct (opEvent evt car op') as [oe|] eqn:Hoe; [|done].
    cbn in Hloop. rewrite (IH _ Hloop e), elem_of_app. split.
    + intros [[?|Hin]|(op & Hin & Hop)].
      * by left.
      * right. exists op'. split; [by left|].
        destruct oe as [e'|]; cbn in Hin;
          [apply list_elem_of_singleton in Hin as ->|
           apply elem_of_nil in Hin]; done.
      * right. exists op. split; [by right|done].
    + intros [?|(op & [->|Hin]%elem_of_cons & Hop)].
      * by left; left.
      * left; right. rewrite Hop in Hoe. simplify_eq. cbn. by left.
      * right. eauto.
Qed.

(** What the pushed event says of its operation. *)
Lemma opEvent_Some (evt : Commit) (car : BlockMap) (op : RepoOp)
    (e : CommitEvt) :
  opEvent evt car op = Ok (Some e) →
  m_uri (ce_meta e) = AtUri_make (c_repo evt) (path op)
  ∧ ce_event e = action op
  ∧ ((action op = "delete" ∧ ce_cid e = None)
     ∨ ((action op = "create" ∨ action op = "update")
        ∧ ∃ c, cid op = Some c ∧ ce_cid e = Some c
               ∧ is_Some (BlockMap_get car c))).
Proof.
  unfold opEvent. cbn.
  destruct (bool_decide (action op = "create")) eqn:Hc;
    [|destruct (bool_decide (action op = "update")) eqn:Hu]; cbn.
  1,2: destruct (cid op) as [c|]; cbn; [|done];
       destruct (BlockMap_get car c) as [bytes|] eqn:Hb; cbn; [|done];
       destruct (cborToLexRecord bytes); cbn; [|done];
       intros [= <-]; cbn; (split; [done|]); (split; [done|]); right;
       (split; [|by eauto]).
  - left. by apply bool_decide_eq_true in Hc.
  - right. by apply bool_decide_eq_true in Hu.
  - destruct (bool_decide (action op = "delete")) eqn:Hd; cbn; [|done].
    apply bool_decide_eq_true in Hd. intros [= <-]. cbn. rewrite Hd. eauto.
Qed.

(** A delete always pushes its event; a create or update whose block is
    there pushes one unless the record fails to decode. *)
Lemma opEvent_emits (evt : Commit) (car : BlockMap) (op : RepoOp)
    (oe : option CommitEvt) :
  opEvent evt car op = Ok oe →
  action op = "delete"
  ∨ ((action op = "create" ∨ action op = "update")
     ∧ ∃ c, cid op = Some c ∧ is_Some (BlockMap_get car c)) →
  ∃ e, oe = Some e.
Proof.
  unfold opEvent. cbn. intros Hoe [Hd|[Hcu (c & Hc & [bytes Hb])]].
  - rewrite Hd in Hoe. repeat case_bool_decide; try done.
    cbn in Hoe. simplify_eq. eauto.
  - replace (_ || _) with true in Hoe by (by destruct Hcu as [-> | ->]).
    rewrite Hc, Hb in Hoe. cbn in Hoe.
    destruct (cborToLexRecord bytes); cbn in Hoe; simplify_eq. eauto.
Qed.
End FormatFacts.

(** ** Running the state-and-exception monad *)

Section MonadFacts.
Context `{JsRuntime} `{RepoData} {Env Ev : Type}.
Implicit Types (w : World Env Ev).

Lemma run_bind {A B} (m : M Env Ev A) (f : A → M Env Ev B) w :
  (m ≫= f) w
  = match m w with
    | (Ok a, w') => f a w'
    | (Throw e, w') => (Throw e, w')
    end.
Proof. done. Qed.

Lemma run_fmap {A B} (f : A → B) (m : M Env Ev A) w :
  (f <$> m) w
  = match m w with
    | (Ok a, w') => (Ok (f a), w')
    | (Throw e, w') => (Throw e, w')
    end.
Proof. done. Qed.

Lemma run_tryCatch {A} (m : M Env Ev A) (h : Exn → M Env Ev A) w :
  tryCatch m h w
  = match m w with
    | (Ok a, w') => (Ok a, w')
    | (Throw e, w') => h e w'
    end.
Proof. done. Qed.

Lemma run_ret {A} (a : A) w : (mret a : M Env Ev A) w = (Ok a, w).
Proof. done. Qed.

Lemma run_liftR {A} (r : Result A) w : liftR r w = (r, w).
Proof. done. Qed.

Lemma run_throw {A} (e : Exn) w : throw (A := A) e w = (Throw e, w).
Proof. done. Qed.

Lemma run_emit (e : Effect Env Ev) w : emit e w = (Ok (), logged w [e]).
Proof. done. Qed.

Lemma run_tryCatch_bind {A B} (m : M Env Ev A) (k : A → M Env Ev B)
    (h : Exn → M Env Ev B) w :
  tryCatch (m ≫= k) h w
  = match m w with
    | (Ok a, w') => tryCatch (k a) h w'
    | (Throw e, w') => h e w'
    end.
Proof.
  rewrite run_tryCatch, run_bind. destruct (m w) as [[a|e] w']; [|done].
  by rewrite run_tryCatch.
Qed.

Lemma logged_nil w : logged w [] = w.
Proof. destruct w. unfold logged. cbn. by rewrite app_nil_r. Qed.

Lemma logged_app w (l1 l2 : list (Effect Env Ev)) :
  logged (logged w l1) l2 = logged w (l1 ++ l2).
Proof. unfold logged. cbn. by rewrite app_assoc. Qed.
End MonadFacts.

Section SteadyFacts.
Context `{JsRuntime} `{RepoData} {Env Ev : Type}.
Implicit Types (w : World Env Ev).

Lemma grows_refl w : grows w w.
Proof. split; [exists []; by rewrite app_nil_r|done]. Qed.

Lemma grows_trans w1 w2 w3 : grows w1 w2 → grows w2 w3 → grows w1 w3.
Proof.
  intros [[l1 Hl1] Hc1] [[l2 Hl2] Hc2]. split; [|lia].
  exists (l1 ++ l2). by rewrite Hl2, Hl1, app_assoc.
Qed.

Lemma grows_logged w (l : list (Effect Env Ev)) : grows w (logged w l).
Proof. split; [by exists l|done]. Qed.

Lemma steady_ret {A} (a : A) : steady (mret a : M Env Ev A).
Proof. intros w r w' [= _ <-]. apply grows_refl. Qed.

Lemma steady_liftR {A} (r : Result A) : steady (liftR r : M Env Ev A).
Proof. intros w r' w' [= _ <-]. apply grows_refl. Qed.

Lemma steady_throw {A} (e : Exn) : steady (throw e : M Env Ev A).
Proof. apply steady_liftR. Qed.

Lemma steady_emit (e : Effect Env Ev) : steady (emit e).
Proof. intros w r w' [= _ <-]. apply (grows_logged w [e]). Qed.

Lemma steady_callCursor (source : CursorSource) :
  steady (callCursor source : M Env Ev _).
Proof.
  intros w r w' [= _ <-]. split; cbn; [by eexists|lia].
Qed.

Lemma steady_abort : steady (abort : M Env Ev _).
Proof. intros w r w' [= _ <-]. split; cbn; [exists []; by rewrite app_nil_r|done]. Qed.

Lemma steady_signalAborted : steady (signalAborted : M Env Ev _).
Proof. intros w r w' [= _ <-]. apply grows_refl. Qed.

Lemma steady_resolveDestroyDefer :
  steady (resolveDestroyDefer : M Env Ev _).
Proof. intros w r w' [= _ <-]. split; cbn; [by eexists|done]. Qed.

Lemma steady_bind {A B} (m : M Env Ev A) (f : A → M Env Ev B) :
  steady m → (∀ a, steady (f a)) → steady (m ≫= f).
Proof.
  intros Hm Hf w r w'. rewrite run_bind.
  destruct (m w) as [[a|e] w1] eqn:Hrun.
  - intros Hfa. eapply grows_trans; [by eapply Hm|by eapply Hf].
  - intros [= _ <-]. by eapply Hm.
Qed.

Lemma steady_fmap {A B} (f : A → B) (m : M Env Ev A) :
  steady m → steady (f <$> m).
Proof.
  intros Hm w r w'. rewrite run_fmap.
  destruct (m w) as [[a|e] w1] eqn:Hrun; intros [= _ <-]; by eapply Hm.
Qed.

Lemma steady_tryCatch {A} (m : M Env Ev A) (h : Exn → M Env Ev A) :
  steady m → (∀ e, steady (h e)) → steady (tryCatch m h).
Proof.
  intros Hm Hh w r w'. rewrite run_tryCatch.
  destruct (m w) as [[a|e] w1] eqn:Hrun.
  - intros [= _ <-]. by eapply Hm.
  - intros Hhe. eapply grows_trans; [by eapply Hm|by eapply Hh].
Qed.
End SteadyFacts.

(** Breaks a [steady] goal down along the monadic structure of the code. *)
Ltac steady_step :=
  first
    [ apply steady_ret | apply steady_liftR | apply steady_throw
    | apply steady_emit | apply steady_callCursor | apply steady_abort
    | apply steady_signalAborted | apply steady_resolveDestroyDefer
    | apply steady_bind; [|intros ?]
    | apply steady_fmap
    | apply steady_tryCatch; [|intros ?]
    | match goal with
      | |- steady (match ?x with _ => _ end) => destruct x
      | |- steady (let '(_, _) := ?x in _) => destruct x
      end ].

Ltac run_step :=
  repeat (first [ rewrite run_bind | rewrite run_fmap | rewrite run_tryCatch
                | rewrite run_ret | rewrite run_liftR | rewrite run_throw
                | rewrite run_emit | rewrite logged_app ];
          cbn beta iota);
  cbn [app].

(** ** The authenticated commit path *)

Section AuthenticatedFacts.
Context `{Collaborators}.
Implicit Types (w : World RepoEvent Event).

(** With the refresh forced, the body never takes the retry. *)
Lemma parseCommitAuthenticated_body_forced
    (retry retry' : M RepoEvent Event (list CommitEvt))
    (evt : Commit) (fc fd : list string) w :
  Firehose.parseCommitAuthenticated_body retry evt fc fd true w
  = Firehose.parseCommitAuthenticated_body retry' evt fc fd true w.
Proof.
  unfold Firehose.parseCommitAuthenticated_body. run_step.
  destruct (Firehose.maybeFilterOps evt fc fd) as [ops|]; [|done].
  destruct (isEmpty ops); [done|]. run_step.
  destruct (mapR _ _) as [claims|]; [|done]. run_step.
  destruct (resolveAtprotoKey _ _) as [key|]; [|done]. run_step.
  destruct (verifyProofs _ _ _ _) as [verified|]; run_step; [done|].
  by rewrite andb_false_r.
Qed.

(** The recursive equation of the source: the function is its body, with
    the call [parseCommitAuthenticated(.., true)] for the retry. *)
Lemma parseCommitAuthenticated_rec (evt : Commit) (fc fd : list string)
    (forceKeyRefresh : bool) w :
  Firehose.parseCommitAuthenticated evt fc fd forceKeyRefresh w
  = Firehose.parseCommitAuthenticated_body
      (Firehose.parseCommitAuthenticated evt fc fd true)
      evt fc fd forceKeyRefresh w.
Proof.
  unfold Firehose.parseCommitAuthenticated at 1.
  unfold Firehose.parseCommitAuthenticated_body at 1. run_step.
  unfold Firehose.parseCommitAuthenticated_body at 2. run_step.
  destruct (Firehose.maybeFilterOps evt fc fd) as [ops|]; [|done].
  destruct (isEmpty ops); [done|]. run_step.
  destruct (mapR _ _) as [claims|]; [|done]. run_step.
  destruct (resolveAtprotoKey _ _) as [key|]; [|done]. run_step.
  destruct (verifyProofs _ _ _ _) as [verified|]; run_step; [done|].
  destruct (_ && _); [|done]. run_step.
  unfold Firehose.parseCommitAuthenticated.
  by rewrite (parseCommitAuthenticated_body_forced _
                (Firehose.parseCommitAuthenticated_body (throw Nullish)
                   evt fc fd true)).
Qed.

(** [parseEvt] on a commit, in the authenticated mode: the events of
    [parseCommitAuthenticated], or its error reported as a parse error
    and no event. *)
Lemma parseEvt_authenticated (opts : Firehose.FirehoseOptions)
    (evt : Commit) w :
  Firehose.excludeCommit opts = false →
  Firehose.unauthenticatedCommits opts = false →
  Firehose.parseEvt opts (EvtCommit evt) w
  = match Firehose.parseCommitAuthenticated evt
            (default [] (Firehose.filterCollections opts))
            (default [] (Firehose.filterDids opts)) false w with
    | (Ok evts, w') => (Ok (map ECommit evts), w')
    | (Throw err, w') =>
        (Ok [], logged w' [OnError (ParseError err (EvtCommit evt))])
    end.
Proof.
  intros Hex Hun. unfold Firehose.parseEvt. rewrite Hex, Hun. cbn [negb].
  run_step.
  destruct (Firehose.parseCommitAuthenticated _ _ _ _ _) as [[evts|err] w'];
    by run_step.
Qed.

(** The run up to a failed proof check. *)
Lemma parseCommitAuthenticated_verify_fails (evt : Commit)
    (fc fd : list string) (forceKeyRefresh : bool) w
    (ops : list RepoOp) (claims : list RecordCidClaim) (key : SigningKey)
    (err : Exn) :
  Firehose.maybeFilterOps evt fc fd = Ok ops →
  ops ≠ [] →
  mapR Firehose.claimOf ops = Ok claims →
  resolveAtprotoKey (c_repo evt) forceKeyRefresh = Ok key →
  verifyProofs (c_blocks evt) claims (c_repo evt) key = Throw err →
  Firehose.parseCommitAuthenticated evt fc fd forceKeyRefresh w
  = if instanceofRepoVerificationError err && negb forceKeyRefresh
    then Firehose.parseCommitAuthenticated evt fc fd true
           (logged w [ResolveAtprotoKey (c_repo evt) forceKeyRefresh;
                      VerifyProofs claims key])
    else (Throw err,
          logged w [ResolveAtprotoKey (c_repo evt) forceKeyRefresh;
                    VerifyProofs claims key]).
Proof.
  intros Hops Hne Hclaims Hkey Hverify.
  rewrite parseCommitAuthenticated_rec.
  unfold Firehose.parseCommitAuthenticated_body. run_step.
  rewrite Hops. destruct ops as [|op ops]; [done|]. cbn [isEmpty].
  run_step. rewrite Hclaims. run_step. rewrite Hkey. run_step.
  rewrite Hverify. run_step.
  destruct (_ && _); run_step; [|done].
  by destruct (Firehose.parseCommitAuthenticated _ _ _ _ _) as [[?|?] ?].
Qed.

(** The run once the proof check has succeeded: the reconciled
    operations are formatted, the others are not looked at again. *)
Lemma parseCommitAuthenticated_verified (evt : Commit)
    (fc fd : list string) (forceKeyRefresh : bool) w
    (ops : list RepoOp) (claims verified : list RecordCidClaim)
    (key : SigningKey) :
  Firehose.maybeFilterOps evt fc fd = Ok ops →
  ops ≠ [] →
  mapR Firehose.claimOf ops = Ok claims →
  resolveAtprotoKey (c_repo evt) forceKeyRefresh = Ok key →
  verifyProofs (c_blocks evt) claims (c_repo evt) key = Ok verified →
  Firehose.parseCommitAuthenticated evt fc fd forceKeyRefresh w
  = (Firehose.formatCommitOps evt
       (List.filter
          (Firehose.isVerifiedOp (Firehose.verifiedCidsOf verified)) ops),
     logged w [ResolveAtprotoKey (c_repo evt) forceKeyRefresh;
               VerifyProofs claims key]).
Proof.
  intros Hops Hne Hclaims Hkey Hverify.
  rewrite parseCommitAuthenticated_rec.
  unfold Firehose.parseCommitAuthenticated_body. run_step.
  rewrite Hops. destruct ops as [|op ops]; [done|]. cbn [isEmpty].
  run_step. rewrite Hclaims. run_step. rewrite Hkey. run_step.
  rewrite Hverify. by run_step.
Qed.

(** C2.  A proof check that fails with a repo verification error on the
    first attempt is followed by one more attempt, under a key resolved
    with the refresh forced; an error of that second attempt propagates,
    after exactly two key resolutions and two proof checks, and [parseEvt]
    reports it as a parse error of the envelope; when the second attempt
    succeeds its verified claims are the ones reconciled.  Any other error
    of the first attempt propagates at once. *)
Theorem stale_key_retried_once (opts : Firehose.FirehoseOptions)
    (evt : Commit) w (ops : list RepoOp) (claims : list RecordCidClaim)
    (key : SigningKey) (err : Exn) :
  Firehose.excludeCommit opts = false →
  Firehose.unauthenticatedCommits opts = false →
  Firehose.maybeFilterOps evt
    (default [] (Firehose.filterCollections opts))
    (default [] (Firehose.filterDids opts)) = Ok ops →
  ops ≠ [] →
  mapR Firehose.claimOf ops = Ok claims →
  resolveAtprotoKey (c_repo evt) false = Ok key →
  verifyProofs (c_blocks evt) claims (c_repo evt) key = Throw err →
  (instanceofRepoVerificationError err = false →
   Firehose.parseCommitAuthenticated evt
     (default [] (Firehose.filterCollections opts))
     (default [] (Firehose.filterDids opts)) false w
   = (Throw err,
      logged w [ResolveAtprotoKey (c_repo evt) false;
                VerifyProofs claims key]))
  ∧ (instanceofRepoVerificationError err = true →
     Firehose.parseCommitAuthenticated evt
       (default [] (Firehose.filterCollections opts))
       (default [] (Firehose.filterDids opts)) false w
     = Firehose.parseCommitAuthenticated evt
         (default [] (Firehose.filterCollections opts))
         (default [] (Firehose.filterDids opts)) true
         (logged w [ResolveAtprotoKey (c_repo evt) false;
                    VerifyProofs claims key])
     ∧ (∀ key' err',
         resolveAtprotoKey (c_repo evt) true = Ok key' →
         verifyProofs (c_blocks evt) claims (c_repo evt) key'
         = Throw err' →
         Firehose.parseCommitAuthenticated evt
           (default [] (Firehose.filterCollections opts))
           (default [] (Firehose.filterDids opts)) false w
         = (Throw err',
            logged w [ResolveAtprotoKey (c_repo evt) false;
                      VerifyProofs claims key;
                      ResolveAtprotoKey (c_repo evt) true;
                      VerifyProofs claims key'])
         ∧ Firehose.parseEvt opts (EvtCommit evt) w
           = (Ok [],
              logged w [ResolveAtprotoKey (c_repo evt) false;
                        VerifyProofs claims key;
                        ResolveAtprotoKey (c_repo evt) true;
                        VerifyProofs claims key';
                        OnError (ParseError err' (EvtCommit evt))]))
     ∧ ∀ key' verified,
         resolveAtprotoKey (c_repo evt) true = Ok key' →
         verifyProofs (c_blocks evt) claims (c_repo evt) key'
         = Ok verified →
         Firehose.parseCommitAuthenticated evt
           (default [] (Firehose.filterCollections opts))
           (default [] (Firehose.filterDids opts)) false w
         = (Firehose.formatCommitOps evt
              (List.filter
                 (Firehose.isVerifiedOp (Firehose.verifiedCidsOf verified))
                 ops),
            logged w [ResolveAtprotoKey (c_repo evt) false;
                      VerifyProofs claims key;
                      ResolveAtprotoKey (c_repo evt) true;
                      VerifyProofs claims key'])).
Proof.
  intros Hex Hun Hops Hne Hclaims Hkey Hverify.
  pose proof (parseCommitAuthenticated_verify_fails evt _ _ false w
                ops claims key err Hops Hne Hclaims Hkey Hverify) as Hfirst.
  split; intros Hkind; rewrite Hkind in Hfirst; cbn in Hfirst; [done|].
  split; [done|]. split; cycle 1.
  { intros key' verified Hkey' Hverify'. rewrite Hfirst.
    rewrite (parseCommitAuthenticated_verified evt _ _ true _
               ops claims verified key' Hops Hne Hclaims Hkey' Hverify').
    by rewrite logged_app. }
  intros key' err' Hkey' Hverify'.
  assert (Firehose.parseCommitAuthenticated evt
            (default [] (Firehose.filterCollections opts))
            (default [] (Firehose.filterDids opts)) false w
          = (Throw err',
             logged w [ResolveAtprotoKey (c_repo evt) false;
                       VerifyProofs claims key;
                       ResolveAtprotoKey (c_repo evt) true;
                       VerifyProofs claims key'])) as Hboth.
  { rewrite Hfirst.
    rewrite (parseCommitAuthenticated_verify_fails evt _ _ true _
               ops claims key' err' Hops Hne Hclaims Hkey' Hverify').
    rewrite andb_false_r. by rewrite logged_app. }
  split; [done|].
  rewrite parseEvt_authenticated, Hboth by done. by rewrite logged_app.
Qed.

(** A run that returns events has built a Verified Result Map and
    formatted the reconciled operations, unless the filter left none. *)
Lemma parseCommitAuthenticated_Ok (evt : Commit) (fc fd : list string)
    (forceKeyRefresh : bool) w (evts : list CommitEvt) w' :
  Firehose.parseCommitAuthenticated evt fc fd forceKeyRefresh w
  = (Ok evts, w') →
  (Firehose.maybeFilterOps evt fc fd = Ok [] ∧ evts = [])
  ∨ ∃ ops claims refresh key verified,
      Firehose.maybeFilterOps evt fc fd = Ok ops
      ∧ mapR Firehose.claimOf ops = Ok claims
      ∧ resolveAtprotoKey (c_repo evt) refresh = Ok key
      ∧ verifyProofs (c_blocks evt) claims (c_repo evt) key = Ok verified
      ∧ Firehose.formatCommitOps evt
          (List.filter
             (Firehose.isVerifiedOp (Firehose.verifiedCidsOf verified))
             ops)
        = Ok evts.
Proof.
  assert (Hforced : ∀ w,
    Firehose.parseCommitAuthenticated evt fc fd true w = (Ok evts, w') →
    (Firehose.maybeFilterOps evt fc fd = Ok [] ∧ evts = [])
    ∨ ∃ ops claims refresh key verified,
        Firehose.maybeFilterOps evt fc fd = Ok ops
        ∧ mapR Firehose.claimOf ops = Ok claims
        ∧ resolveAtprotoKey (c_repo evt) refresh = Ok key
        ∧ verifyProofs (c_blocks evt) claims (c_repo evt) key = Ok verified
        ∧ Firehose.formatCommitOps evt
            (List.filter
               (Firehose.isVerifiedOp (Firehose.verifiedCidsOf verified))
               ops)
          = Ok evts).
  { intros w0. rewrite parseCommitAuthenticated_rec.
    unfold Firehose.parseCommitAuthenticated_body. run_step.
    destruct (Firehose.maybeFilterOps evt fc fd) as [ops|] eqn:Hops;
      [|done].
    destruct ops as [|op ops]; cbn [isEmpty]; run_step.
    { intros [= <- _]. by left. }
    destruct (mapR _ _) as [claims|] eqn:Hclaims; run_step; [|done].
    destruct (resolveAtprotoKey _ _) as [key|] eqn:Hkey; run_step; [|done].
    destruct (verifyProofs _ _ _ _) as [verified|] eqn:Hverify; run_step.
    - intros [= Hfmt _]. right.
      by exists (op :: ops), claims, true, key, verified.
    - by rewrite andb_false_r. }
  destruct forceKeyRefresh; [apply Hforced|].
  rewrite parseCommitAuthenticated_rec.
  unfold Firehose.parseCommitAuthenticated_body. run_step.
  destruct (Firehose.maybeFilterOps evt fc fd) as [ops|] eqn:Hops; [|done].
  destruct ops as [|op ops]; cbn [isEmpty]; run_step.
  { intros [= <- _]. by left. }
  destruct (mapR _ _) as [claims|] eqn:Hclaims; run_step; [|done].
  destruct (resolveAtprotoKey _ _) as [key|] eqn:Hkey; run_step; [|done].
  destruct (verifyProofs _ _ _ _) as [verified|] eqn:Hverify; run_step.
  - intros [= Hfmt _]. right.
    by exists (op :: ops), claims, false, key, verified.
  - destruct (_ && _); run_step; [|done].
    destruct (Firehose.parseCommitAuthenticated _ _ _ _ _)
      as [[evts'|?] w''] eqn:Hretry; [|done].
    intros [= -> ->]. by eapply Hforced.
Qed.


Lemma elem_of_List_filter {A} (f : A → bool) (l : list A) (x : A) :
  x ∈ List.filter f l ↔ x ∈ l ∧ f x = true.
Proof. rewrite !list_elem_of_In. apply filter_In. Qed.


(** C3 (amended).  In [formatCommitOps] a create or update without a
    content-id, or whose block is not in the block set, is passed over:
    the loop gives what it gives without that operation, events and error
    alike.  A record that fails to decode is not passed over: the loop
    throws, and in the authenticated path [parseEvt] reports a parse error
    for the envelope and returns no event of it. *)
Theorem missing_block_skipped_bad_record_reported
    (opts : Firehose.FirehoseOptions) (evt : Commit) (car : BlockMap)
    (before after : list RepoOp) (op : RepoOp) (evts : list CommitEvt) :
  action op = "create" ∨ action op = "update" →
  (cid op = None ∨ (∃ c, cid op = Some c ∧ BlockMap_get car c = None) →
   Firehose.formatCommitOps_loop evt car (before ++ op :: after) evts
   = Firehose.formatCommitOps_loop evt car (before ++ after) evts)
  ∧ (∀ c recordBytes err evts',
       cid op = Some c →
       BlockMap_get car c = Some recordBytes →
       cborToLexRecord recordBytes = Throw err →
       Firehose.formatCommitOps_loop evt car before evts = Ok evts' →
       Firehose.formatCommitOps_loop evt car (before ++ op :: after) evts
       = Throw err)
  ∧ (∀ w ops claims key verified err,
       Firehose.excludeCommit opts = false →
       Firehose.unauthenticatedCommits opts = false →
       Firehose.maybeFilterOps evt
         (default [] (Firehose.filterCollections opts))
         (default [] (Firehose.filterDids opts)) = Ok ops →
       ops ≠ [] →
       mapR Firehose.claimOf ops = Ok claims →
       resolveAtprotoKey (c_repo evt) false = Ok key →
       verifyProofs (c_blocks evt) claims (c_repo evt) key = Ok verified →
       Firehose.formatCommitOps evt
         (List.filter
            (Firehose.isVerifiedOp (Firehose.verifiedCidsOf verified)) ops)
       = Throw err →
       Firehose.parseEvt opts (EvtCommit evt) w
       = (Ok [],
          logged w [ResolveAtprotoKey (c_repo evt) false;
                    VerifyProofs claims key;
                    OnError (ParseError err (EvtCommit evt))])).
Proof.
  intros Hact. split; [|split].
  - intros Hskip.
    rewrite !formatCommitOps_loop_app.
    destruct (Firehose.formatCommitOps_loop evt car before evts); [|done].
    cbn -[Firehose.formatCommitOps_loop].
    rewrite formatCommitOps_loop_cons.
    rewrite (opEvent_skipped _ _ _ Hact Hskip). cbn. by rewrite app_nil_r.
  - intros c recordBytes err evts' Hc Hb Hd Hbefore.
    rewrite formatCommitOps_loop_app, Hbefore.
    cbn -[Firehose.formatCommitOps_loop].
    by rewrite formatCommitOps_loop_cons,
      (opEvent_undecodable _ _ _ _ _ _ Hact Hc Hb Hd).
  - intros w ops claims key verified err Hex Hun Hops Hne Hclaims Hkey
      Hverify Hfmt.
    rewrite parseEvt_authenticated by done.
    rewrite (parseCommitAuthenticated_verified _ _ _ _ _ _ _ _ _
               Hops Hne Hclaims Hkey Hverify), Hfmt.
    by rewrite logged_app.
Qed.
End AuthenticatedFacts.

(** ** Dispatch to the handler *)

Section DispatchFacts.
Context `{Collaborators}.


Lemma firehose_processEvt_loop_run (opts : Firehose.FirehoseOptions)
    (parsed : list Event) (w : World RepoEvent Event) :
  Firehose.processEvt_loop opts parsed w
  = (Ok (), logged w (handlerTrace (Firehose.handleEvent opts) parsed)).
Proof.
  revert w. induction parsed as [|write rest IH]; intros w.
  - cbn. by rewrite logged_nil.
  - cbn [Firehose.processEvt_loop]. run_step.
    destruct (Firehose.handleEvent opts write) as [[]|err] eqn:Hh;
      run_step; rewrite IH, logged_app; cbn; by rewrite Hh.
Qed.



(** A turn of the loop of [start] is the turn of [forAwait]. *)
Lemma jetstream_forAwait_frame (opts : Jetstream.JetstreamOptions)
    dict chunk rest finally (w : World JetstreamEventKind JetstreamEvent) :
  w_aborted w = false →
  Jetstream.forAwait opts dict (Frame chunk :: rest) finally w
  = match jetstreamTurn opts dict chunk w with
    | (Ok _, w1) => Jetstream.forAwait opts dict rest finally w1
    | (Throw err, w1) => (Throw err, w1)
    end.
Proof.
  intros Hab. cbn [Jetstream.forAwait]. rewrite run_bind.
  unfold signalAborted. rewrite Hab. cbn beta iota.
  unfold jetstreamTurn. rewrite !run_bind.
  destruct (Jetstream.nextEvent opts dict chunk w) as [[[evt|]|?] w1];
    rewrite ?run_bind, ?run_ret; [|done..].
  by destruct (Jetstream.consume opts evt w1) as [[[]|?] ?].
Qed.

Lemma turbostream_forAwait_frame (opts : Turbostream.TurbostreamOptions)
    chunk rest finally
    (w : World TurbostreamEventKind TurbostreamCommitEvt) :
  w_aborted w = false →
  Turbostream.forAwait opts (Frame chunk :: rest) finally w
  = match turbostreamTurn opts chunk w with
    | (Ok _, w1) => Turbostream.forAwait opts rest finally w1
    | (Throw err, w1) => (Throw err, w1)
    end.
Proof.
  intros Hab. cbn [Turbostream.forAwait]. rewrite run_bind.
  unfold signalAborted. rewrite Hab. cbn beta iota.
  unfold turbostreamTurn. rewrite !run_bind.
  destruct (Turbostream.nextEvent chunk w) as [[[evt|]|?] w1];
    rewrite ?run_bind, ?run_ret; [|done..].
  by destruct (Turbostream.processEvt opts evt w1) as [[[]|?] ?].
Qed.




End DispatchFacts.

(** ** The connection supervisor of the Firehose *)

Section FirehoseSupervisor.
Context `{Collaborators}.
Implicit Types (w : World RepoEvent Event).
Implicit Types (opts : Firehose.FirehoseOptions).

Lemma steady_parseCommitAuthenticated_body
    (retry : M RepoEvent Event (list CommitEvt)) evt fc fd force :
  steady retry →
  steady (Firehose.parseCommitAuthenticated_body retry evt fc fd force).
Proof.
  intros Hretry. unfold Firehose.parseCommitAuthenticated_body.
  by repeat steady_step.
Qed.

Lemma steady_parseEvt opts evt : steady (Firehose.parseEvt opts evt).
Proof.
  unfold Firehose.parseEvt. steady_step; [|by repeat steady_step].
  destruct evt; by repeat steady_step.
Qed.

Lemma steady_processEvt opts evt : steady (Firehose.processEvt opts evt).
Proof.
  unfold Firehose.processEvt. steady_step; [apply steady_parseEvt|].
  induction a as [|write rest IH]; cbn [Firehose.processEvt_loop];
    by repeat steady_step.
Qed.

Lemma steady_getUrl opts : steady (Firehose.getUrl opts).
Proof.
  unfold Firehose.getUrl, Firehose.getParams. by repeat steady_step.
Qed.

Lemma steady_forAwait opts pulls finally :
  steady (Firehose.forAwait opts pulls finally).
Proof.
  induction pulls as [|[chunk|] rest IH]; cbn [Firehose.forAwait];
    unfold Firehose.consume;
    repeat first [assumption | apply steady_processEvt | steady_step].
Qed.

Lemma steady_start opts script : steady (Firehose.start opts script).
Proof.
  induction script as [|conn later IH]; cbn [Firehose.start];
    repeat first [assumption | apply steady_getUrl | apply steady_forAwait
                 | steady_step].
Qed.

(** [getUrl] with a cursor source: the source is asked, and its answer
    is the cursor of the address. *)
Lemma firehose_getUrl_run opts (source : CursorSource) w :
  Firehose.getCursorFn opts = Some source →
  Firehose.getUrl opts w
  = match source (w_cursorCalls w) with
    | Ok cursor =>
        (Ok (firehoseUrl opts cursor),
         asked w [GetCursor (w_cursorCalls w);
                  OnInfo ("Firehose: " +:+ firehoseUrl opts cursor)])
    | Throw err => (Throw err, asked w [GetCursor (w_cursorCalls w)])
    end.
Proof.
  intros Hsource. unfold Firehose.getUrl, Firehose.getParams.
  rewrite Hsource. rewrite !run_bind. unfold callCursor at 1.
  destruct (source (w_cursorCalls w)) as [cursor|err]; [|done].
  run_step.
  assert (Firehose.encodeQueryParams
            (default []
               (Some [("cursor",
                       match cursor with
                       | Some n => VNumber n
                       | None => VUndefined
                       end)]))
          = Ok (formUrlEncode "cursor" +:+ "="
                +:+ formUrlEncode match cursor with
                                  | Some n => Number_toString n
                                  | None => ""
                                  end)) as ->
    by (by destruct cursor).
  run_step. unfold asked, logged, firehoseUrl. cbn [w_log w_cursorCalls
    w_aborted w_destroyResolved]. by rewrite <- app_assoc.
Qed.

Lemma forAwait_aborted opts pulls finally w :
  w_aborted w = true →
  Firehose.forAwait opts pulls finally w = (Throw abortReason, w).
Proof.
  intros Hab. destruct pulls as [|[chunk|] rest]; cbn [Firehose.forAwait];
    rewrite run_bind; unfold signalAborted; by rewrite Hab.
Qed.

Lemma forAwait_frame opts chunk rest finally w :
  w_aborted w = false →
  Firehose.forAwait opts (Frame chunk :: rest) finally w
  = match firehoseTurn opts chunk w with
    | (Ok _, w1) => Firehose.forAwait opts rest finally w1
    | (Throw err, w1) => (Throw err, w1)
    end.
Proof.
  intros Hab. cbn [Firehose.forAwait]. rewrite run_bind.
  unfold signalAborted. rewrite Hab. cbn beta iota.
  unfold firehoseTurn. rewrite !run_bind.
  destruct (Firehose.nextEvent chunk w) as [[[evt|]|?] w1];
    rewrite ?run_bind, ?run_ret; [|done..].
  by destruct (Firehose.consume opts evt w1) as [[[]|?] ?].
Qed.

Lemma forAwait_destroy opts rest finally w :
  w_aborted w = false →
  Firehose.forAwait opts (DestroyCalled :: rest) finally w
  = (Throw abortReason,
     {| w_log := w_log w; w_cursorCalls := w_cursorCalls w;
        w_aborted := true; w_destroyResolved := w_destroyResolved w |}).
Proof.
  intros Hab. cbn [Firehose.forAwait]. rewrite run_bind.
  unfold signalAborted. rewrite Hab. cbn beta iota. rewrite run_bind.
  unfold abort at 1. cbn beta iota. by rewrite forAwait_aborted.
Qed.

(** Frames consumed without anything raised leave the signal as it was:
    not aborted. *)
Lemma forAwait_Ok_not_aborted opts pulls w w' :
  Firehose.forAwait opts pulls EndReturns w = (Ok (), w') →
  w_aborted w' = false.
Proof.
  revert w. induction pulls as [|[chunk|] rest IH]; intros w;
    destruct (w_aborted w) eqn:Hab;
    try (by rewrite forAwait_aborted).
  - cbn [Firehose.forAwait]. rewrite run_bind. unfold signalAborted.
    rewrite Hab. by intros [= <-].
  - rewrite forAwait_frame by done.
    destruct (firehoseTurn opts chunk w) as [[[]|?] w1]; [apply IH|done].
  - by rewrite forAwait_destroy.
Qed.

Lemma forAwait_app opts before rest finally w wb :
  Firehose.forAwait opts before EndReturns w = (Ok (), wb) →
  Firehose.forAwait opts (before ++ rest) finally w
  = Firehose.forAwait opts rest finally wb.
Proof.
  revert w. induction before as [|[chunk|] before IH]; intros w;
    destruct (w_aborted w) eqn:Hab;
    try (by rewrite forAwait_aborted).
  - cbn [Firehose.forAwait]. rewrite run_bind. unfold signalAborted.
    rewrite Hab. by intros [= <-].
  - cbn [app]. rewrite !forAwait_frame by done.
    destruct (firehoseTurn opts chunk w) as [[[]|?] w1]; [apply IH|done].
  - by rewrite forAwait_destroy.
Qed.

(** After an error that is not the abort, [start] reports it, waits,
    and calls itself on what is left of the script. *)
Lemma firehose_start_reconnects opts conn later w err w1 :
  firehoseAttempt opts conn w = (Throw err, w1) →
  isAbortError err = false →
  Firehose.start opts (conn :: later) w
  = Firehose.start opts later
      (logged w1
         [OnError (SubscriptionError err);
          Wait (default (Number_ofZ 3000)
                  (Firehose.subscriptionReconnectDelay opts))]).
Proof.
  intros Hraise Hkind. cbn [Firehose.start].
  rewrite run_tryCatch_bind. unfold firehoseAttempt in Hraise.
  rewrite run_bind in Hraise.
  destruct (Firehose.getUrl opts w) as [[url|e] w0].
  - rewrite run_tryCatch_bind, Hraise, Hkind. by run_step.
  - injection Hraise as -> ->. rewrite Hkind. by run_step.
Qed.

(** A call of [start] with a connection to open asks the cursor source
    first, and announces the address made of its answer. *)
Lemma firehose_start_asks_cursor opts (source : CursorSource)
    conn later w :
  Firehose.getCursorFn opts = Some source →
  ∃ l, w_log (Firehose.start opts (conn :: later) w).2
       = w_log w ++ GetCursor (w_cursorCalls w) :: l
       ∧ ∀ cursor, source (w_cursorCalls w) = Ok cursor →
           ∃ l', l = OnInfo ("Firehose: " +:+ firehoseUrl opts cursor)
                     :: l'.
Proof.
  intros Hsource. cbn [Firehose.start].
  rewrite run_tryCatch_bind, (firehose_getUrl_run _ _ _ Hsource).
  destruct (source (w_cursorCalls w)) as [cursor|err].
  - match goal with
    | |- context [tryCatch ?m ?h ?w0] =>
        assert (steady (tryCatch m h)) as Hsteady
          by (repeat first [ apply steady_forAwait | apply steady_start
                           | steady_step ]);
        destruct (tryCatch m h w0) as [r w3] eqn:Hrun;
        destruct (Hsteady _ _ _ Hrun) as [[l Hl] _]
    end.
    exists (OnInfo ("Firehose: " +:+ firehoseUrl opts cursor) :: l).
    split; [|intros ? [= <-]; by eexists].
    cbn in *. by rewrite Hl, <- app_assoc.
  - match goal with
    | |- context [(if ?b then ?m1 else ?m2) ?w0] =>
        assert (steady (if b then m1 else m2)) as Hsteady
          by (repeat first [ apply steady_start | steady_step ]);
        destruct ((if b then m1 else m2) w0) as [r w3] eqn:Hrun;
        destruct (Hsteady _ _ _ Hrun) as [[l Hl] _]
    end.
    exists l. split; [|done]. cbn in *. by rewrite Hl, <- app_assoc.
Qed.

Lemma firehose_attempt_asks opts (source : CursorSource) conn w r w1 :
  Firehose.getCursorFn opts = Some source →
  firehoseAttempt opts conn w = (r, w1) →
  w_cursorCalls w < w_cursorCalls w1.
Proof.
  intros Hsource. unfold firehoseAttempt.
  rewrite run_bind, (firehose_getUrl_run _ _ _ Hsource).
  destruct (source (w_cursorCalls w)) as [cursor|err].
  - intros Hrun. apply steady_forAwait in Hrun as [_ Hc]. cbn in Hc. lia.
  - intros [= _ <-]. cbn. lia.
Qed.

(** C7.  With the stream running (the address resolved, some frames
    consumed and nothing raised), a call of [destroy] makes [start] return
    normally: the deferred [destroy] awaits is resolved, and from the call
    on nothing is logged but that: no subscription error, no wait, and the
    frames and connections left in the script are not touched. *)
Theorem destroy_stops_without_reconnect opts
    (before after : list (Pull FrameChunk)) (finally : ConnectionEnd)
    (later : list (Connection FrameChunk)) w (url : string) w0 wb :
  Firehose.getUrl opts w = (Ok url, w0) →
  Firehose.forAwait opts before EndReturns w0 = (Ok (), wb) →
  ∃ w',
    Firehose.start opts
      ({| conn_pulls := before ++ DestroyCalled :: after;
          conn_end := finally |} :: later) w
    = (Ok Returned, w')
    ∧ w_destroyResolved w' = true
    ∧ w_aborted w' = true
    ∧ w_log w' = w_log wb ++ [ResolveDestroy]
    ∧ w_cursorCalls w' = w_cursorCalls wb.
Proof.
  intros Hurl Hbefore. eexists. split.
  - cbn [Firehose.start conn_pulls conn_end].
    rewrite run_tryCatch_bind, Hurl, run_tryCatch_bind.
    rewrite (forAwait_app _ _ _ _ _ _ Hbefore).
    rewrite forAwait_destroy
      by (by eapply forAwait_Ok_not_aborted).
    reflexivity.
  - done.
Qed.
End FirehoseSupervisor.

(** ** The connection supervisor of the Jetstream *)

Section JetstreamSupervisor.
Context `{Collaborators}.
Implicit Types (w : World JetstreamEventKind JetstreamEvent).
Implicit Types (opts : Jetstream.JetstreamOptions).

Lemma steady_jetstream_processEvt opts evt :
  steady (Jetstream.processEvt opts evt).
Proof.
  unfold Jetstream.processEvt, Jetstream.parseEvt.
  steady_step; [|by repeat steady_step].
  steady_step; [|by repeat steady_step].
  destruct evt; by repeat steady_step.
Qed.

Lemma steady_jetstream_getUrl opts : steady (Jetstream.getUrl opts).
Proof.
  unfold Jetstream.getUrl, Jetstream.getParams. by repeat steady_step.
Qed.

Lemma steady_jetstream_forAwait opts dict pulls finally :
  steady (Jetstream.forAwait opts dict pulls finally).
Proof.
  induction pulls as [|[chunk|] rest IH]; cbn [Jetstream.forAwait];
    unfold Jetstream.consume, Jetstream.nextEvent;
    repeat first [assumption | apply steady_jetstream_processEvt
                 | steady_step].
Qed.

Lemma steady_jetstream_start opts script :
  steady (Jetstream.start opts script).
Proof.
  induction script as [|conn later IH]; cbn [Jetstream.start];
    repeat first [assumption | apply steady_jetstream_getUrl
                 | apply steady_jetstream_forAwait | steady_step].
Qed.

Lemma jetstream_getUrl_run opts (source : CursorSource) w :
  Jetstream.getCursorFn opts = Some source →
  Jetstream.getUrl opts w
  = match source (w_cursorCalls w) with
    | Ok cursor =>
        match Jetstream.encodeQueryParams (jetstreamParams opts cursor) with
        | Ok query =>
            (Ok (jetstreamUrl opts query),
             asked w [GetCursor (w_cursorCalls w);
                      OnInfo ("Jetstream: " +:+ jetstreamUrl opts query)])
        | Throw err => (Throw err, asked w [GetCursor (w_cursorCalls w)])
        end
    | Throw err => (Throw err, asked w [GetCursor (w_cursorCalls w)])
    end.
Proof.
  intros Hsource. unfold Jetstream.getUrl, Jetstream.getParams.
  rewrite Hsource. rewrite !run_bind. unfold callCursor at 1.
  destruct (source (w_cursorCalls w)) as [cursor|err]; [|done].
  run_step. cbn [default]. fold (jetstreamParams opts cursor).
  destruct (Jetstream.encodeQueryParams _) as [query|err]; [|done].
  run_step. unfold asked, logged, jetstreamUrl. cbn [w_log w_cursorCalls
    w_aborted w_destroyResolved]. by rewrite <- app_assoc.
Qed.

Lemma jetstream_start_reconnects opts conn later w err w1 :
  jetstreamAttempt opts conn w = (Throw err, w1) →
  isAbortError err = false →
  Jetstream.start opts (conn :: later) w
  = Jetstream.start opts later
      (logged w1
         [OnError (SubscriptionError err);
          Wait (default (Number_ofZ 3000)
                  (Jetstream.subscriptionReconnectDelay opts))]).
Proof.
  intros Hraise Hkind. cbn [Jetstream.start].
  rewrite run_tryCatch_bind. unfold jetstreamAttempt in Hraise.
  rewrite run_bind in Hraise. rewrite run_liftR in *.
  destruct (Jetstream.jc_dictionary conn) as [dict|e].
  - rewrite run_tryCatch_bind. rewrite run_bind in Hraise.
    destruct (Jetstream.getUrl opts w) as [[url|e] w0].
    + rewrite run_tryCatch_bind, Hraise, Hkind. by run_step.
    + injection Hraise as -> ->. rewrite Hkind. by run_step.
  - injection Hraise as -> ->. rewrite Hkind. by run_step.
Qed.

Lemma jetstream_start_asks_cursor opts (source : CursorSource)
    conn later w (dict : ZstdDictionary) :
  Jetstream.getCursorFn opts = Some source →
  Jetstream.jc_dictionary conn = Ok dict →
  ∃ l, w_log (Jetstream.start opts (conn :: later) w).2
       = w_log w ++ GetCursor (w_cursorCalls w) :: l
       ∧ ∀ cursor query,
           source (w_cursorCalls w) = Ok cursor →
           Jetstream.encodeQueryParams (jetstreamParams opts cursor)
           = Ok query →
           ∃ l', l = OnInfo ("Jetstream: " +:+ jetstreamUrl opts query)
                     :: l'.
Proof.
  intros Hsource Hdict. cbn [Jetstream.start].
  rewrite run_tryCatch_bind, Hdict, run_liftR, run_tryCatch_bind.
  rewrite (jetstream_getUrl_run _ _ _ Hsource).
  destruct (source (w_cursorCalls w)) as [cursor|err];
    [destruct (Jetstream.encodeQueryParams _) as [query|err] eqn:Hq|].
  - match goal with
    | |- context [tryCatch ?m ?h ?w0] =>
        assert (steady (tryCatch m h)) as Hsteady
          by (repeat first [ apply steady_jetstream_forAwait
                           | apply steady_jetstream_start | steady_step ]);
        destruct (tryCatch m h w0) as [r w3] eqn:Hrun;
        destruct (Hsteady _ _ _ Hrun) as [[l Hl] _]
    end.
    exists (OnInfo ("Jetstream: " +:+ jetstreamUrl opts query) :: l).
    split; [|intros ? ? [= <-]; rewrite Hq; intros [= <-]; by eexists].
    cbn in *. by rewrite Hl, <- app_assoc.
  - match goal with
    | |- context [(if ?b then ?m1 else ?m2) ?w0] =>
        assert (steady (if b then m1 else m2)) as Hsteady
          by (repeat first [ apply steady_jetstream_start | steady_step ]);
        destruct ((if b then m1 else m2) w0) as [r w3] eqn:Hrun;
        destruct (Hsteady _ _ _ Hrun) as [[l Hl] _]
    end.
    exists l. split; [|intros ? ? [= <-]; by rewrite Hq].
    cbn in *. by rewrite Hl, <- app_assoc.
  - match goal with
    | |- context [(if ?b then ?m1 else ?m2) ?w0] =>
        assert (steady (if b then m1 else m2)) as Hsteady
          by (repeat first [ apply steady_jetstream_start | steady_step ]);
        destruct ((if b then m1 else m2) w0) as [r w3] eqn:Hrun;
        destruct (Hsteady _ _ _ Hrun) as [[l Hl] _]
    end.
    exists l. split; [|done]. cbn in *. by rewrite Hl, <- app_assoc.
Qed.
End JetstreamSupervisor.

(** ** Reconnecting *)

Section ReconnectFacts.
Context `{Collaborators}.

(** X30.  When a connection attempt ends with an error that is not named
    AbortError, [start] reports a subscription error, waits the configured
    delay, 3000 when none is set, and starts over on the next connection.
    With a cursor source, the new attempt asks the source again, and the
    address of the new connection is made of that answer.  Firehose and
    Jetstream alike. *)
Theorem reconnect_asks_cursor_again :
  (∀ (opts : Firehose.FirehoseOptions) conn later w err w1,
     firehoseAttempt opts conn w = (Throw err, w1) →
     isAbortError err = false →
     Firehose.start opts (conn :: later) w
     = Firehose.start opts later
         (logged w1
            [OnError (SubscriptionError err);
             Wait (default (Number_ofZ 3000)
                     (Firehose.subscriptionReconnectDelay opts))]))
  ∧ (∀ (opts : Firehose.FirehoseOptions) (source : CursorSource)
       conn next later w err w1,
       Firehose.getCursorFn opts = Some source →
       firehoseAttempt opts conn w = (Throw err, w1) →
       isAbortError err = false →
       w_cursorCalls w < w_cursorCalls w1
       ∧ ∃ l,
           w_log (Firehose.start opts (conn :: next :: later) w).2
           = w_log w1
             ++ OnError (SubscriptionError err)
                :: Wait (default (Number_ofZ 3000)
                           (Firehose.subscriptionReconnectDelay opts))
                :: GetCursor (w_cursorCalls w1) :: l
           ∧ ∀ cursor,
               source (w_cursorCalls w1) = Ok cursor →
               ∃ l', l = OnInfo ("Firehose: " +:+ firehoseUrl opts cursor)
                         :: l')
  ∧ (∀ (opts : Jetstream.JetstreamOptions) conn later w err w1,
       jetstreamAttempt opts conn w = (Throw err, w1) →
       isAbortError err = false →
       Jetstream.start opts (conn :: later) w
       = Jetstream.start opts later
           (logged w1
              [OnError (SubscriptionError err);
               Wait (default (Number_ofZ 3000)
                       (Jetstream.subscriptionReconnectDelay opts))]))
  ∧ (∀ (opts : Jetstream.JetstreamOptions) (source : CursorSource)
       conn next later w err w1 dict,
       Jetstream.getCursorFn opts = Some source →
       jetstreamAttempt opts conn w = (Throw err, w1) →
       isAbortError err = false →
       Jetstream.jc_dictionary next = Ok dict →
       ∃ l,
         w_log (Jetstream.start opts (conn :: next :: later) w).2
         = w_log w1
           ++ OnError (SubscriptionError err)
              :: Wait (default (Number_ofZ 3000)
                         (Jetstream.subscriptionReconnectDelay opts))
              :: GetCursor (w_cursorCalls w1) :: l
         ∧ ∀ cursor query,
             source (w_cursorCalls w1) = Ok cursor →
             Jetstream.encodeQueryParams (jetstreamParams opts cursor)
             = Ok query →
             ∃ l', l = OnInfo ("Jetstream: "
                               +:+ jetstreamUrl opts query) :: l').
Proof.
  split; [exact firehose_start_reconnects|].
  split; [|split; [exact jetstream_start_reconnects|]].
  - intros opts source conn next later w err w1 Hsource Hraise Hkind.
    split; [by eapply firehose_attempt_asks|].
    rewrite (firehose_start_reconnects opts conn (next :: later)
               w err w1 Hraise Hkind).
    destruct (firehose_start_asks_cursor opts source next later
                (logged w1
                   [OnError (SubscriptionError err);
                    Wait (default (Number_ofZ 3000)
                            (Firehose.subscriptionReconnectDelay opts))])
                Hsource) as (l & Hl & Hinfo).
    exists l. split; [|done]. rewrite Hl. cbn. by rewrite <- app_assoc.
  - intros opts source conn next later w err w1 dict Hsource Hraise Hkind
      Hdict.
    rewrite (jetstream_start_reconnects opts conn (next :: later)
               w err w1 Hraise Hkind).
    destruct (jetstream_start_asks_cursor opts source next later
                (logged w1
                   [OnError (SubscriptionError err);
                    Wait (default (Number_ofZ 3000)
                            (Jetstream.subscriptionReconnectDelay opts))])
                dict Hsource Hdict) as (l & Hl & Hinfo).
    exists l. split; [|done]. rewrite Hl. cbn. by rewrite <- app_assoc.
Qed.

(** C6 (the code departs from it).  [start] tells the cooperative
    cancellation by the name of the error alone, not by the abort signal:
    every error named AbortError that ends a connection attempt makes
    [start] resolve the deferred and return, with no subscription error
    reported, no wait and no reconnect, the connections that follow left
    alone.  So does a cursor source that throws such an error while the
    signal was never aborted: [destroy] was not called, and the stream
    is over for good.  Firehose and Jetstream alike. *)
Theorem abort_named_error_stops_start :
  (∀ (opts : Firehose.FirehoseOptions) conn later w err w1,
     firehoseAttempt opts conn w = (Throw err, w1) →
     isAbortError err = true →
     Firehose.start opts (conn :: later) w
     = (Ok Returned,
        {| w_log := w_log w1 ++ [ResolveDestroy];
           w_cursorCalls := w_cursorCalls w1;
           w_aborted := w_aborted w1;
           w_destroyResolved := true |}))
  ∧ (∀ (opts : Firehose.FirehoseOptions) (source : CursorSource)
       conn later w err,
       Firehose.getCursorFn opts = Some source →
       source (w_cursorCalls w) = Throw err →
       isAbortError err = true →
       w_aborted w = false →
       Firehose.start opts (conn :: later) w
       = (Ok Returned,
          {| w_log := w_log w ++ [GetCursor (w_cursorCalls w);
                                  ResolveDestroy];
             w_cursorCalls := S (w_cursorCalls w);
             w_aborted := false;
             w_destroyResolved := true |}))
  ∧ (∀ (opts : Jetstream.JetstreamOptions) conn later w err w1,
       jetstreamAttempt opts conn w = (Throw err, w1) →
       isAbortError err = true →
       Jetstream.start opts (conn :: later) w
       = (Ok Returned,
          {| w_log := w_log w1 ++ [ResolveDestroy];
             w_cursorCalls := w_cursorCalls w1;
             w_aborted := w_aborted w1;
             w_destroyResolved := true |}))
  ∧ (∀ (opts : Jetstream.JetstreamOptions) (source : CursorSource)
       conn later w err dict,
       Jetstream.getCursorFn opts = Some source →
       Jetstream.jc_dictionary conn = Ok dict →
       source (w_cursorCalls w) = Throw err →
       isAbortError err = true →
       w_aborted w = false →
       Jetstream.start opts (conn :: later) w
       = (Ok Returned,
          {| w_log := w_log w ++ [GetCursor (w_cursorCalls w);
                                  ResolveDestroy];
             w_cursorCalls := S (w_cursorCalls w);
             w_aborted := false;
             w_destroyResolved := true |})).
Proof.
  assert (∀ (opts : Firehose.FirehoseOptions) conn later w err w1,
    firehoseAttempt opts conn w = (Throw err, w1) →
    isAbortError err = true →
    Firehose.start opts (conn :: later) w
    = (Ok Returned,
       {| w_log := w_log w1 ++ [ResolveDestroy];
          w_cursorCalls := w_cursorCalls w1;
          w_aborted := w_aborted w1;
          w_destroyResolved := true |})) as Hfirehose.
  { intros opts conn later w err w1 Hraise Hkind. cbn [Firehose.start].
    rewrite run_tryCatch_bind. unfold firehoseAttempt in Hraise.
    rewrite run_bind in Hraise.
    destruct (Firehose.getUrl opts w) as [[url|e] w0].
    - rewrite run_tryCatch_bind, Hraise, Hkind. by run_step.
    - injection Hraise as -> ->. rewrite Hkind. by run_step. }
  assert (∀ (opts : Jetstream.JetstreamOptions) conn later w err w1,
    jetstreamAttempt opts conn w = (Throw err, w1) →
    isAbortError err = true →
    Jetstream.start opts (conn :: later) w
    = (Ok Returned,
       {| w_log := w_log w1 ++ [ResolveDestroy];
          w_cursorCalls := w_cursorCalls w1;
          w_aborted := w_aborted w1;
          w_destroyResolved := true |})) as Hjetstream.
  { intros opts conn later w err w1 Hraise Hkind. cbn [Jetstream.start].
    rewrite run_tryCatch_bind. unfold jetstreamAttempt in Hraise.
    rewrite run_bind in Hraise. rewrite run_liftR in *.
    destruct (Jetstream.jc_dictionary conn) as [dict|e].
    - rewrite run_tryCatch_bind. rewrite run_bind in Hraise.
      destruct (Jetstream.getUrl opts w) as [[url|e] w0].
      + rewrite run_tryCatch_bind, Hraise, Hkind. by run_step.
      + injection Hraise as -> ->. rewrite Hkind. by run_step.
    - injection Hraise as -> ->. rewrite Hkind. by run_step. }
  split; [exact Hfirehose|]. split; [|split; [exact Hjetstream|]].
  - intros opts source conn later w err Hsource Hthrow Hkind Hab.
    rewrite (Hfirehose opts conn later w err
               (asked w [GetCursor (w_cursorCalls w)])); [| |done].
    + cbn. by rewrite Hab, <- app_assoc.
    + unfold firehoseAttempt.
      by rewrite run_bind, (firehose_getUrl_run _ _ _ Hsource), Hthrow.
  - intros opts source conn later w err dict Hsource Hdict Hthrow Hkind Hab.
    rewrite (Hjetstream opts conn later w err
               (asked w [GetCursor (w_cursorCalls w)])); [| |done].
    + cbn. by rewrite Hab, <- app_assoc.
    + unfold jetstreamAttempt.
      rewrite run_bind, run_liftR, Hdict.
      by rewrite run_bind, (jetstream_getUrl_run _ _ _ Hsource), Hthrow.
Qed.
End ReconnectFacts.

(** ** The events of a commit *)

Section CommitEventFacts.
Context `{Collaborators}.
Implicit Types (w : World RepoEvent Event).

Lemma opEvents_cons (evt : Commit) (car : BlockMap) (op : RepoOp)
    (ops : list RepoOp) :
  opEvents evt car (op :: ops)
  = match opEvent evt car op with
    | Ok (Some e) => [e]
    | _ => []
    end ++ opEvents evt car ops.
Proof. done. Qed.

(** The loop in closed form: when it returns, it has appended the events
    of the operations, in their order. *)
Lemma formatCommitOps_loop_closed (evt : Commit) (car : BlockMap)
    (ops : list RepoOp) (acc evts : list CommitEvt) :
  Firehose.formatCommitOps_loop evt car ops acc = Ok evts →
  evts = acc ++ opEvents evt car ops.
Proof.
  revert acc. induction ops as [|op ops IH]; intros acc Hloop.
  - cbn in Hloop. simplify_eq. by rewrite app_nil_r.
  - rewrite formatCommitOps_loop_cons in Hloop.
    destruct (opEvent evt car op) as [oe|] eqn:Hoe; [|done].
    cbn in Hloop. apply IH in Hloop as ->.
    rewrite opEvents_cons, Hoe, <- app_assoc. by destruct oe.
Qed.

Lemma formatCommitOps_closed (evt : Commit) (ops : list RepoOp)
    (evts : list CommitEvt) :
  Firehose.formatCommitOps evt ops = Ok evts →
  ∃ car, readCar (c_blocks evt) = Ok car ∧ evts = opEvents evt car ops.
Proof.
  unfold Firehose.formatCommitOps.
  destruct (readCar (c_blocks evt)) as [car|]; [|done]. cbn.
  intros Hloop%formatCommitOps_loop_closed. by exists car.
Qed.

Lemma opEvents_emitted (evt : Commit) (car : BlockMap) (ops : list RepoOp) :
  ∃ emitted,
    emitted `sublist_of` ops
    ∧ Forall2 (λ op e, opEvent evt car op = Ok (Some e))
        emitted (opEvents evt car ops).
Proof.
  induction ops as [|op ops (emitted & Hsub & Hall)].
  - exists []. by split.
  - rewrite opEvents_cons.
    destruct (opEvent evt car op) as [[e|]|] eqn:Hoe; cbn.
    + exists (op :: emitted). split; [by constructor|by constructor].
    + exists emitted. split; [by constructor|done].
    + exists emitted. split; [by constructor|done].
Qed.

(** X1.  The events come in the order of the operations, at most one for each:
    they are the events of a sub-sequence of the operations, each with
    the path and the action of its operation. *)
Theorem events_follow_operation_order (evt : Commit) (ops : list RepoOp)
    (evts : list CommitEvt) :
  Firehose.formatCommitOps evt ops = Ok evts →
  ∃ emitted,
    emitted `sublist_of` ops
    ∧ Forall2
        (λ op e, m_uri (ce_meta e) = AtUri_make (c_repo evt) (path op)
                 ∧ ce_event e = action op)
        emitted evts.
Proof.
  intros (car & _ & Hevts)%formatCommitOps_closed. rewrite Hevts.
  destruct (opEvents_emitted evt car ops) as (emitted & Hsub & Hall).
  exists emitted. split; [done|].
  eapply Forall2_impl; [done|]. cbn.
  by intros op e (? & ? & _)%opEvent_Some.
Qed.

(** What one turn of the loop pushes, in full. *)
Lemma opEvent_shape (evt : Commit) (car : BlockMap) (op : RepoOp)
    (e : CommitEvt) :
  opEvent evt car op = Ok (Some e) →
  ce_meta e = Firehose.commitMeta evt car op
  ∧ ((ce_event e = "delete" ∧ ce_cid e = None ∧ ce_record e = None)
     ∨ ((ce_event e = "create" ∨ ce_event e = "update")
        ∧ ∃ c recordBytes record,
            ce_cid e = Some c
            ∧ BlockMap_get car c = Some recordBytes
            ∧ cborToLexRecord recordBytes = Ok record
            ∧ ce_record e = Some record)).
Proof.
  unfold opEvent. cbn.
  destruct (bool_decide (action op = "create")) eqn:Hc;
    [|destruct (bool_decide (action op = "update")) eqn:Hu]; cbn.
  1,2: destruct (cid op) as [c|]; cbn; [|done];
       destruct (BlockMap_get car c) as [bytes|] eqn:Hb; cbn; [|done];
       destruct (cborToLexRecord bytes) as [record|] eqn:Hr; cbn; [|done];
       intros [= <-]; cbn; (split; [done|]); right;
       (split; [|by exists c, bytes, record]).
  - left. by apply bool_decide_eq_true in Hc.
  - right. by apply bool_decide_eq_true in Hu.
  - destruct (bool_decide (action op = "delete")) eqn:Hd; cbn; [|done].
    intros [= <-]. cbn. split; [done|]. by left.
Qed.

(** X2.  Every event of [formatCommitOps] holds the envelope's sequence
    number, time, commit and revision, the decoded block set, and the
    repository as its DID and as the host of its URI; a delete event has
    no content-id and no record, and the record of a create or update
    event is the decoding of the block that the block set holds under the
    event's content-id. *)
Theorem commit_event_shape (evt : Commit) (ops : list RepoOp)
    (evts : list CommitEvt) (e : CommitEvt) :
  Firehose.formatCommitOps evt ops = Ok evts →
  e ∈ evts →
  ∃ car,
    readCar (c_blocks evt) = Ok car
    ∧ m_seq (ce_meta e) = c_seq evt
    ∧ m_time (ce_meta e) = c_time evt
    ∧ m_commit (ce_meta e) = c_commit evt
    ∧ m_rev (ce_meta e) = c_rev evt
    ∧ m_blocks (ce_meta e) = car
    ∧ m_did (ce_meta e) = c_repo evt
    ∧ uri_host (m_uri (ce_meta e)) = c_repo evt
    ∧ m_collection (ce_meta e) = AtUri_collection (m_uri (ce_meta e))
    ∧ m_rkey (ce_meta e) = AtUri_rkey (m_uri (ce_meta e))
    ∧ ((ce_event e = "delete" ∧ ce_cid e = None ∧ ce_record e = None)
       ∨ ((ce_event e = "create" ∨ ce_event e = "update")
          ∧ ∃ c recordBytes record,
              ce_cid e = Some c
              ∧ BlockMap_get car c = Some recordBytes
              ∧ cborToLexRecord recordBytes = Ok record
              ∧ ce_record e = Some record)).
Proof.
  unfold Firehose.formatCommitOps.
  destruct (readCar (c_blocks evt)) as [car|] eqn:Hcar; [|done]. cbn.
  intros Hloop He. exists car. split; [done|].
  apply (formatCommitOps_loop_elem _ _ _ _ _ Hloop) in He
    as [?%elem_of_nil|(op & _ & Hop)]; [done|].
  apply opEvent_shape in Hop as [-> Hshape]. by cbn.
Qed.

(** X3.  In the unauthenticated path an operation of the envelope appears in
    the returned events exactly when it passes the filter and is a
    delete, or a create or update with a content-id whose block is in
    the envelope's block set. *)
Theorem unauthenticated_output (evt : Commit) (fc fd : list string)
    (evts : list CommitEvt) :
  Firehose.parseCommitUnauthenticated evt fc fd = Ok evts →
  ∀ op, op ∈ c_ops evt →
    (opInOutput evt op evts ↔ passesFilter fc fd evt op ∧ emittable evt op).
Proof.
  unfold Firehose.parseCommitUnauthenticated.
  destruct (Firehose.maybeFilterOps evt fc fd) as [ops|] eqn:Hops; [|done].
  cbn. unfold Firehose.formatCommitOps.
  destruct (readCar (c_blocks evt)) as [car|] eqn:Hcar; [|done].
  cbn. intros Hfmt op Hop.
  pose proof (formatCommitOps_loop_elem _ _ _ _ _ Hfmt) as Helem.
  pose proof (formatCommitOps_loop_each _ _ _ _ _ Hfmt) as Heach.
  split.
  - intros (e & He & Huri & Hact & Hcid).
    apply Helem in He as [?%elem_of_nil|(op' & Hin' & Hop')]; [done|].
    apply (maybeFilterOps_spec _ _ _ _ Hops op') in Hin'
      as [_ (collection & rkey & Hkey' & Hspec)].
    apply opEvent_Some in Hop' as (Huri' & Hact' & Hshape).
    assert (path op' = path op) as Hpath.
    { rewrite Huri in Huri'. by injection Huri'. }
    assert (action op' = action op) as Haction by congruence.
    split.
    + exists collection, rkey. by rewrite <- Hpath.
    + destruct Hshape as [[Hd _]|[Hcu (c & Hc & Hec & Hb)]].
      * left. congruence.
      * right. rewrite <- Haction. split; [done|].
        exists c. split; [|by exists car].
        destruct Hcid as [Hd|<-]; [|congruence].
        rewrite <- Haction in Hd. destruct Hcu; congruence.
  - intros (Hpass & Hemit).
    assert (op ∈ ops) as Hkept
      by (by apply (maybeFilterOps_spec _ _ _ _ Hops op)).
    assert (action op = "delete"
            ∨ ((action op = "create" ∨ action op = "update")
               ∧ ∃ c, cid op = Some c ∧ is_Some (BlockMap_get car c)))
      as Hemit'.
    { destruct Hemit as [?|[Hcu (c & Hc & car' & Hcar' & Hb)]]; [by left|].
      right. split; [done|]. exists c. split; [done|]. congruence. }
    destruct (Heach op Hkept) as [oe Hoe].
    destruct (opEvent_emits _ _ _ _ Hoe Hemit') as [e ->].
    pose proof (opEvent_Some _ _ _ _ Hoe) as (Huri & Hact & Hshape).
    exists e. split; [apply Helem; right; eauto|].
    split; [done|]. split; [done|].
    destruct Hshape as [[? _]|[_ (c & -> & -> & _)]]; [by left|by right].
Qed.

Lemma opEvents_filter_sublist (evt : Commit) (car : BlockMap)
    (keep : RepoOp → bool) (ops : list RepoOp) :
  opEvents evt car (List.filter keep ops) `sublist_of` opEvents evt car ops.
Proof.
  induction ops as [|op ops IH]; [done|]. cbn [List.filter].
  destruct (keep op).
  - rewrite !opEvents_cons. by apply sublist_app.
  - rewrite opEvents_cons. by apply sublist_inserts_l.
Qed.

(** X4.  Verification only removes: the events of the authenticated path are
    a sub-sequence of those the unauthenticated path gives for the same
    envelope and filters. *)
Theorem authenticated_within_unauthenticated (evt : Commit)
    (fc fd : list string) (forceKeyRefresh : bool) w
    (evts : list CommitEvt) w' (unverified : list CommitEvt) :
  Firehose.parseCommitAuthenticated evt fc fd forceKeyRefresh w
  = (Ok evts, w') →
  Firehose.parseCommitUnauthenticated evt fc fd = Ok unverified →
  evts `sublist_of` unverified.
Proof.
  intros Hrun Hun.
  destruct (parseCommitAuthenticated_Ok _ _ _ _ _ _ _ Hrun)
    as [[_ ->]|(ops & claims & refresh & key & verified
                & Hops & _ & _ & _ & Hfmt)]; [apply sublist_nil_l|].
  unfold Firehose.parseCommitUnauthenticated in Hun.
  rewrite Hops in Hun. cbn in Hun.
  apply formatCommitOps_closed in Hfmt as (car & Hcar & Hevts).
  apply formatCommitOps_closed in Hun as (car' & Hcar' & Hunv).
  rewrite Hevts, Hunv. replace car' with car by congruence.
  apply opEvents_filter_sublist.
Qed.

Lemma verifiedCidsOf_lookup (verified : list RecordCidClaim)
    (key : string) (c : option CID) :
  Firehose.verifiedCidsOf verified !! key = Some c →
  ∃ cl, cl ∈ verified
        ∧ formatDataKey (claim_collection cl) (claim_rkey cl) = key
        ∧ claim_cid cl = c.
Proof.
  unfold Firehose.verifiedCidsOf.
  assert (∀ m : gmap string (option CID),
    foldl (λ verifiedCids op,
             <[formatDataKey (claim_collection op) (claim_rkey op)
               := claim_cid op]> verifiedCids) m verified !! key = Some c →
    m !! key = Some c
    ∨ ∃ cl, cl ∈ verified
            ∧ formatDataKey (claim_collection cl) (claim_rkey cl) = key
            ∧ claim_cid cl = c) as Hgen.
  { induction verified as [|cl verified IH]; intros m; cbn; [by left|].
    intros [Hm|(cl' & Hin & Hk & Hc)]%IH.
    - apply lookup_insert_Some in Hm as [[Hk Hc]|[_ Hm]]; [|by left].
      right. exists cl. split; [by left|done].
    - right. exists cl'. split; [by right|done]. }
  intros [Hm|?]%Hgen; [|done]. by rewrite lookup_empty in Hm.
Qed.

(** X5.  Every event of the authenticated path is backed by a claim the proof
    check verified, under a key the resolver gave: the claim names the
    event's record and holds the event's content-id (none, for a
    delete). *)
Theorem events_backed_by_verified_claims (evt : Commit)
    (fc fd : list string) (forceKeyRefresh : bool) w
    (evts : list CommitEvt) w' (e : CommitEvt) :
  Firehose.parseCommitAuthenticated evt fc fd forceKeyRefresh w
  = (Ok evts, w') →
  e ∈ evts →
  ∃ refresh key claims verified cl,
    resolveAtprotoKey (c_repo evt) refresh = Ok key
    ∧ verifyProofs (c_blocks evt) claims (c_repo evt) key = Ok verified
    ∧ cl ∈ verified
    ∧ formatDataKey (claim_collection cl) (claim_rkey cl)
      = uri_pathname (m_uri (ce_meta e))
    ∧ claim_cid cl = ce_cid e.
Proof.
  intros Hrun He.
  destruct (parseCommitAuthenticated_Ok _ _ _ _ _ _ _ Hrun)
    as [[_ ->]|(ops & claims & refresh & key & verified
                & Hops & _ & Hkey & Hverify & Hfmt)];
    [by apply elem_of_nil in He|].
  unfold Firehose.formatCommitOps in Hfmt.
  destruct (readCar (c_blocks evt)) as [car|]; [|done]. cbn in Hfmt.
  pose proof (formatCommitOps_loop_elem _ _ _ _ _ Hfmt e) as Helem.
  destruct (proj1 Helem He) as [Hnil|(op & Hin & Hop)];
    [by apply elem_of_nil in Hnil|].
  apply elem_of_List_filter in Hin as [_ Hver].
  apply opEvent_Some in Hop as (Huri & Hact & Hshape).
  exists refresh, key, claims, verified.
  unfold Firehose.isVerifiedOp in Hver. rewrite Huri. cbn.
  destruct Hshape as [[Hd ->]|[Hcu (c & Hc & -> & _)]].
  - rewrite Hd in Hver. cbn in Hver.
    apply bool_decide_eq_true, verifiedCidsOf_lookup in Hver
      as (cl & ? & ? & ?).
    by exists cl.
  - rewrite Hc in Hver.
    destruct (bool_decide (action op = "delete")) eqn:Hd.
    { apply bool_decide_eq_true in Hd. destruct Hcu; congruence. }
    apply bool_decide_eq_true, verifiedCidsOf_lookup in Hver
      as (cl & ? & ? & ?).
    by exists cl.
Qed.
End CommitEventFacts.

(** ** One envelope through [parseEvt] and [processEvt] *)

Section EnvelopeFacts.
Context `{Collaborators}.
Implicit Types (w : World RepoEvent Event).

Lemma firehose_processEvt_run (opts : Firehose.FirehoseOptions)
    (evt : RepoEvent) w (parsed : list Event) w' :
  Firehose.parseEvt opts evt w = (Ok parsed, w') →
  Firehose.processEvt opts evt w
  = (Ok (), logged w' (handlerTrace (Firehose.handleEvent opts) parsed)).
Proof.
  intros Hparse. unfold Firehose.processEvt. rewrite run_bind, Hparse.
  apply firehose_processEvt_loop_run.
Qed.

(** X6.  With [filterDids] set, a commit of a repository that is not listed
    costs nothing in the authenticated mode: no key is resolved, no proof
    is checked, the container is not read, the handler is not called and
    nothing is reported. *)
Theorem unwanted_repo_costs_nothing (opts : Firehose.FirehoseOptions)
    (evt : Commit) (fd : list string) w :
  Firehose.unauthenticatedCommits opts = false →
  Firehose.filterDids opts = Some fd →
  fd ≠ [] →
  c_repo evt ∉ fd →
  (∀ op, op ∈ c_ops evt → ∃ key, parseDataKey (path op) = Ok key) →
  Firehose.processEvt opts (EvtCommit evt) w = (Ok (), w).
Proof.
  intros Hun Hfd Hne Hrepo Hkeys.
  rewrite <- (logged_nil w) at 2.
  apply (firehose_processEvt_run _ _ _ []).
  destruct (Firehose.excludeCommit opts) eqn:Hex.
  { unfold Firehose.parseEvt. by rewrite Hex. }
  rewrite parseEvt_authenticated by done.
  rewrite parseCommitAuthenticated_rec.
  unfold Firehose.parseCommitAuthenticated_body. run_step.
  assert (Firehose.maybeFilterOps evt
            (default [] (Firehose.filterCollections opts))
            (default [] (Firehose.filterDids opts)) = Ok []) as ->; [|done].
  apply filterR_none. intros op Hop.
  destruct (Hkeys op Hop) as [[collection rkey] ->]. cbn.
  rewrite Hfd. cbn. destruct fd as [|d fd]; [done|]. cbn [isEmpty].
  unfold includes. rewrite (bool_decide_eq_false_2 _ Hrepo).
  by rewrite andb_false_r.
Qed.

(** X7.  One operation whose path is not a data key fails the whole commit,
    in either mode and whatever the filters: the envelope is reported as
    a parse error, and the handler gets none of its operations. *)
Theorem malformed_path_rejects_whole_commit (opts : Firehose.FirehoseOptions)
    (evt : Commit) (op : RepoOp) (err : Exn) w :
  Firehose.excludeCommit opts = false →
  op ∈ c_ops evt →
  parseDataKey (path op) = Throw err →
  ∃ err',
    Firehose.processEvt opts (EvtCommit evt) w
    = (Ok (), logged w [OnError (ParseError err' (EvtCommit evt))]).
Proof.
  intros Hex Hop Hkey.
  destruct (filterR_Throw
              (λ op,
                 '(collection, _) ← parseDataKey (path op);
                 Ok ((isEmpty (default [] (Firehose.filterCollections opts))
                      || includes (default [] (Firehose.filterCollections opts))
                           collection)
                     && (isEmpty (default [] (Firehose.filterDids opts))
                         || includes (default [] (Firehose.filterDids opts))
                              (c_repo evt))))
              (c_ops evt) op err Hop) as [err' Hfilter].
  { by rewrite Hkey. }
  exists err'.
  rewrite <- (logged_nil (logged w _)).
  apply (firehose_processEvt_run _ _ _ []).
  destruct (Firehose.unauthenticatedCommits opts) eqn:Hun.
  - unfold Firehose.parseEvt. rewrite Hex, Hun. cbn [negb].
    unfold Firehose.parseCommitUnauthenticated, Firehose.maybeFilterOps.
    rewrite Hfilter. by run_step.
  - rewrite parseEvt_authenticated by done.
    rewrite parseCommitAuthenticated_rec.
    unfold Firehose.parseCommitAuthenticated_body, Firehose.maybeFilterOps.
    run_step. rewrite Hfilter. by run_step.
Qed.

Lemma parseCommitAuthenticated_lookups (evt : Commit)
    (fc fd : list string) w :
  ∃ r lookups,
    Firehose.parseCommitAuthenticated evt fc fd false w
    = (r, logged w lookups)
    ∧ lookupsOfEnvelope (c_repo evt) lookups.
Proof.
  rewrite parseCommitAuthenticated_rec.
  unfold Firehose.parseCommitAuthenticated_body at 1. run_step.
  destruct (Firehose.maybeFilterOps evt fc fd) as [ops|] eqn:Hops.
  2: { eexists _, []. split; [by rewrite logged_nil|by left]. }
  destruct ops as [|op ops]; cbn [isEmpty]; run_step.
  { eexists _, []. split; [by rewrite logged_nil|by left]. }
  destruct (mapR _ _) as [claims|] eqn:Hclaims; run_step.
  2: { eexists _, []. split; [by rewrite logged_nil|by left]. }
  destruct (resolveAtprotoKey _ false) as [key|] eqn:Hkey; run_step.
  2: { eexists _, _. split; [done|]. right. by left. }
  destruct (verifyProofs _ _ _ key) as [verified|err] eqn:Hverify; run_step.
  { eexists _, _. split; [done|]. right. right. exists claims, key.
    by left. }
  destruct (instanceofRepoVerificationError err); cbn [andb negb]; run_step.
  2: { eexists _, _. split; [done|]. right. right. exists claims, key.
       by left. }
  rewrite parseCommitAuthenticated_rec.
  unfold Firehose.parseCommitAuthenticated_body. run_step.
  rewrite Hops. cbn [isEmpty]. run_step. rewrite Hclaims. run_step.
  destruct (resolveAtprotoKey _ true) as [key'|] eqn:Hkey'; run_step.
  2: { eexists _, _. split; [done|]. right. right. exists claims, key.
       right. by left. }
  destruct (verifyProofs _ _ _ key') as [verified|err'] eqn:Hverify';
    run_step.
  - destruct (Firehose.formatCommitOps _ _); run_step;
      (eexists _, _; split; [done|]); right; right; exists claims, key;
      right; right; by exists key'.
  - rewrite andb_false_r. run_step.
    eexists _, _. split; [done|]. right. right. exists claims, key.
    right. right. by exists key'.
Qed.

(** X8.  What [parseEvt] does for one envelope.  It returns; before that it
    has asked the resolver and the proof check at most twice each, in
    the order resolve, check, resolve with the refresh forced, check, and
    only for a commit; and it has reported at most one error, a parse
    error that carries the envelope and comes with no event. *)
Theorem parseEvt_lookup_protocol (opts : Firehose.FirehoseOptions)
    (evt : RepoEvent) w :
  ∃ parsed lookups report,
    Firehose.parseEvt opts evt w = (Ok parsed, logged w (lookups ++ report))
    ∧ match evt with
      | EvtCommit commit => lookupsOfEnvelope (c_repo commit) lookups
      | _ => lookups = []
      end
    ∧ (report = []
       ∨ (parsed = []
          ∧ ∃ cause, report = [OnError (ParseError cause evt)])).
Proof.
  assert (∀ parsed : list Event,
            (Ok parsed, w) = (Ok parsed, logged w ([] ++ [])))
    as Hsame by (intros; cbn [app]; by rewrite logged_nil).
  destruct evt as [commit|sync|identity|account|].
  - destruct (Firehose.excludeCommit opts) eqn:Hex.
    { exists [], [], []. unfold Firehose.parseEvt. rewrite Hex. cbn [negb].
      run_step. split; [apply Hsame|]. split; [by left|by left]. }
    destruct (Firehose.unauthenticatedCommits opts) eqn:Hun.
    + unfold Firehose.parseEvt. rewrite Hex, Hun. cbn [negb]. run_step.
      destruct (Firehose.parseCommitUnauthenticated _ _ _) as [evts|err];
        run_step.
      * eexists _, [], []. split; [apply Hsame|]. split; [by left|by left].
      * eexists [], [], _. split; [done|]. split; [by left|].
        right. by eauto.
    + rewrite parseEvt_authenticated by done.
      destruct (parseCommitAuthenticated_lookups commit
                  (default [] (Firehose.filterCollections opts))
                  (default [] (Firehose.filterDids opts)) w)
        as (r & lookups & -> & Hlookups).
      destruct r as [evts|err].
      * eexists _, lookups, []. rewrite app_nil_r.
        split; [done|]. split; [done|by left].
      * eexists [], lookups, _. rewrite logged_app.
        split; [done|]. split; [done|]. right. by eauto.
  - unfold Firehose.parseEvt.
    destruct (Firehose.excludeSync opts); cbn [negb]; run_step.
    { eexists _, [], []. split; [apply Hsame|]. by split; [|left]. }
    destruct (Firehose.parseSync sync) as [parsed|err]; run_step.
    + eexists _, [], []. split; [apply Hsame|]. by split; [|left].
    + eexists [], [], _. split; [done|]. split; [done|]. right. by eauto.
  - unfold Firehose.parseEvt.
    destruct (Firehose.excludeIdentity opts); cbn [negb]; run_step.
    { eexists _, [], []. split; [apply Hsame|]. by split; [|left]. }
    destruct (Firehose.parseIdentity identity _) as [parsed|err]; run_step.
    + eexists _, [], []. split; [apply Hsame|]. by split; [|left].
    + eexists [], [], _. split; [done|]. split; [done|]. right. by eauto.
  - unfold Firehose.parseEvt.
    destruct (Firehose.excludeAccount opts); cbn [negb]; run_step;
      (eexists _, [], []; split; [apply Hsame|]; by split; [|left]).
  - eexists _, [], []. split; [apply Hsame|]. by split; [|left].
Qed.

(** X9.  The handle of an identity event is verified both ways: it is there
    only in the authenticated mode, when the DID's document names a
    handle that is not empty and that handle resolves back to the DID of
    the envelope.  The event itself is always given, with the envelope's
    sequence number, time and DID and the resolved document. *)
Theorem identity_handle_verified_both_ways (evt : Identity)
    (unauthenticated : bool) (parsed : option IdentityEvt) :
  Firehose.parseIdentity evt unauthenticated = Ok parsed →
  ∃ e,
    parsed = Some e
    ∧ ie_seq e = i_seq evt
    ∧ ie_time e = i_time evt
    ∧ ie_did e = i_did evt
    ∧ did_resolve (i_did evt) = Ok (ie_didDocument e)
    ∧ ∀ handle,
        ie_handle e = Some handle →
        unauthenticated = false
        ∧ handle ≠ ""
        ∧ ∃ doc,
            ie_didDocument e = Some doc
            ∧ documentHandle doc = Ok (Some handle)
            ∧ handle_resolve handle = Ok (Some (i_did evt)).
Proof.
  unfold Firehose.parseIdentity.
  destruct (did_resolve (i_did evt)) as [res|] eqn:Hres; [|done]. cbn.
  destruct res as [doc|]; cbn.
  2: { intros [= <-]. eexists. by repeat (split; [done|]). }
  destruct unauthenticated; cbn.
  { intros [= <-]. eexists. by repeat (split; [done|]). }
  unfold Firehose.verifyHandle.
  destruct (documentHandle doc) as [[handle|]|] eqn:Hdoc; cbn; [| |done].
  2: { intros [= <-]. eexists. by repeat (split; [done|]). }
  case_bool_decide as Hempty; cbn.
  { intros [= <-]. eexists. by repeat (split; [done|]). }
  destruct (handle_resolve handle) as [back|] eqn:Hback; cbn; [|done].
  intros [= <-]. eexists. do 5 (split; [done|]). cbn.
  case_bool_decide as Hsame; [|done].
  intros ? [= <-]. split; [done|]. split; [done|].
  exists doc. by rewrite Hback, Hsame.
Qed.

(** X10.  An account envelope whose status is a non-empty string outside the
    four known ones is dropped without a trace, in the Firehose and in
    the Jetstream: the handler is not called and no error is reported. *)
Theorem unknown_status_dropped_silently
    (fopts : Firehose.FirehoseOptions) (jopts : Jetstream.JetstreamOptions)
    (account : Account) (status did : string) (time_us : Number)
    (wf : World RepoEvent Event)
    (wj : World JetstreamEventKind JetstreamEvent) :
  a_status account = Some status →
  status ≠ "" →
  status ∉ ["takendown"; "suspended"; "deleted"; "deactivated"] →
  Firehose.processEvt fopts (EvtAccount account) wf = (Ok (), wf)
  ∧ Jetstream.processEvt jopts (KindAccount did time_us account) wj
    = (Ok (), wj).
Proof.
  intros Hs Hne Hout.
  pose proof (parseAccount_unknown_status _ _ Hs Hne Hout) as Hdrop.
  split.
  - unfold Firehose.processEvt, Firehose.parseEvt. rewrite Hdrop.
    by destruct (Firehose.excludeAccount fopts).
  - unfold Jetstream.processEvt, Jetstream.parseEvt. rewrite Hdrop.
    by destruct (Jetstream.excludeAccount jopts).
Qed.
End EnvelopeFacts.

(** ** What a whole run may log *)

Section LogFacts.
Context `{JsRuntime} `{RepoData} {Env Ev : Type}.
Implicit Types (w : World Env Ev) (P : Effect Env Ev → Prop).

Lemma logsOnly_ret {A} P (a : A) : logsOnly P (mret a : M Env Ev A).
Proof. intros w r w' [= _ <-]. exists []. by rewrite app_nil_r. Qed.

Lemma logsOnly_liftR {A} P (r : Result A) : logsOnly P (liftR r : M Env Ev A).
Proof. intros w r' w' [= _ <-]. exists []. by rewrite app_nil_r. Qed.

Lemma logsOnly_throw {A} P (e : Exn) : logsOnly P (throw e : M Env Ev A).
Proof. apply logsOnly_liftR. Qed.

Lemma logsOnly_emit P (e : Effect Env Ev) : P e → logsOnly P (emit e).
Proof. intros He w r w' [= _ <-]. exists [e]. split; [done|by constructor]. Qed.

Lemma logsOnly_callCursor P (source : CursorSource) :
  (∀ n, P (GetCursor n)) → logsOnly P (callCursor source : M Env Ev _).
Proof.
  intros Hn w r w' [= _ <-]. exists [GetCursor (w_cursorCalls w)].
  split; [done|by constructor].
Qed.

Lemma logsOnly_abort P : logsOnly P (abort : M Env Ev _).
Proof. intros w r w' [= _ <-]. exists []. by rewrite app_nil_r. Qed.

Lemma logsOnly_signalAborted P : logsOnly P (signalAborted : M Env Ev _).
Proof. intros w r w' [= _ <-]. exists []. by rewrite app_nil_r. Qed.

Lemma logsOnly_resolveDestroyDefer P :
  P ResolveDestroy → logsOnly P (resolveDestroyDefer : M Env Ev _).
Proof.
  intros Hr w r w' [= _ <-]. exists [ResolveDestroy].
  split; [done|by constructor].
Qed.

Lemma logsOnly_bind_yields {A B} P (Q : A → Prop) (m : M Env Ev A)
    (f : A → M Env Ev B) :
  logsOnly P m → yields Q m → (∀ a, Q a → logsOnly P (f a)) →
  logsOnly P (m ≫= f).
Proof.
  intros Hm HQ Hf w r w'. rewrite run_bind.
  destruct (m w) as [[a|e] w1] eqn:Hrun.
  - intros Hrest.
    destruct (Hm _ _ _ Hrun) as (l1 & Hl1 & HP1).
    destruct (Hf a (HQ _ _ _ Hrun) _ _ _ Hrest) as (l2 & Hl2 & HP2).
    exists (l1 ++ l2). split; [by rewrite Hl2, Hl1, app_assoc|].
    by apply Forall_app.
  - intros [= _ <-]. by apply (Hm _ _ _ Hrun).
Qed.

Lemma logsOnly_bind {A B} P (m : M Env Ev A) (f : A → M Env Ev B) :
  logsOnly P m → (∀ a, logsOnly P (f a)) → logsOnly P (m ≫= f).
Proof.
  intros Hm Hf. apply (logsOnly_bind_yields P (λ _, True)); [done|done|].
  intros a _. apply Hf.
Qed.

Lemma logsOnly_fmap {A B} P (f : A → B) (m : M Env Ev A) :
  logsOnly P m → logsOnly P (f <$> m).
Proof.
  intros Hm w r w'. rewrite run_fmap.
  destruct (m w) as [[a|e] w1] eqn:Hrun; intros [= _ <-];
    by apply (Hm _ _ _ Hrun).
Qed.

Lemma logsOnly_tryCatch {A} P (m : M Env Ev A) (h : Exn → M Env Ev A) :
  logsOnly P m → (∀ e, logsOnly P (h e)) → logsOnly P (tryCatch m h).
Proof.
  intros Hm Hh w r w'. rewrite run_tryCatch.
  destruct (m w) as [[a|e] w1] eqn:Hrun.
  - intros [= _ <-]. by apply (Hm _ _ _ Hrun).
  - intros Hrest.
    destruct (Hm _ _ _ Hrun) as (l1 & Hl1 & HP1).
    destruct (Hh e _ _ _ Hrest) as (l2 & Hl2 & HP2).
    exists (l1 ++ l2). split; [by rewrite Hl2, Hl1, app_assoc|].
    by apply Forall_app.
Qed.
End LogFacts.

Ltac only_step :=
  first
    [ apply logsOnly_ret | apply logsOnly_liftR | apply logsOnly_throw
    | apply logsOnly_emit | apply logsOnly_callCursor | apply logsOnly_abort
    | apply logsOnly_signalAborted | apply logsOnly_resolveDestroyDefer
    | apply logsOnly_bind; [|intros ?]
    | apply logsOnly_fmap
    | apply logsOnly_tryCatch; [|intros ?]
    | match goal with
      | |- logsOnly _ (match ?x with _ => _ end) => destruct x eqn:?
      | |- logsOnly _ (let '(_, _) := ?x in _) => destruct x eqn:?
      end ].

Section FirehoseRun.
Context `{Collaborators}.
Implicit Types (w : World RepoEvent Event).
Variable opts : Firehose.FirehoseOptions.

Lemma parseAccount_statusKept (evt : Account) (e : AccountEvt) :
  Firehose.parseAccount evt = Some e → statusKept (ae_status e).
Proof.
  unfold Firehose.parseAccount, statusKept.
  destruct (a_status evt) as [status|] eqn:Hs.
  - case_bool_decide as Hempty; cbn.
    + intros [= <-] s. cbn. intros [= <-]. by left.
    + destruct (Firehose.isValidStatus status) eqn:Hvalid; cbn; [|done].
      intros [= <-] s. cbn. intros [= <-]. right.
      by apply bool_decide_eq_true in Hvalid.
  - intros [= <-] s. by cbn.
Qed.

(** The events formatted from operations that pass the filter name
    records and a repository that pass the filter. *)
Lemma formatted_pass_filter (evt : Commit) (fc fd : list string)
    (ops : list RepoOp) (evts : list CommitEvt) :
  (∀ op, op ∈ ops → passesFilter fc fd evt op) →
  Firehose.formatCommitOps evt ops = Ok evts →
  Forall
    (λ e, ∃ collection rkey,
            parseDataKey (uri_pathname (m_uri (ce_meta e)))
            = Ok (collection, rkey)
            ∧ filterSpec fc fd collection (m_did (ce_meta e)))
    evts.
Proof.
  intros Hpass. unfold Firehose.formatCommitOps.
  destruct (readCar (c_blocks evt)) as [car|]; [|done]. cbn.
  intros Hloop. apply Forall_forall. intros e He.
  destruct (proj1 (formatCommitOps_loop_elem _ _ _ _ _ Hloop e) He)
    as [Hnil|(op & Hin & Hop)]; [by apply elem_of_nil in Hnil|].
  destruct (Hpass op Hin) as (collection & rkey & Hkey & Hspec).
  apply opEvent_shape in Hop as [-> _]. cbn. by exists collection, rkey.
Qed.

Lemma firehose_parseEvt_delivers (evt : RepoEvent) :
  yields (Forall (firehoseDelivers opts)) (Firehose.parseEvt opts evt).
Proof.
  intros w parsed w'. destruct evt as [commit|sync|identity|account|].
  - destruct (Firehose.excludeCommit opts) eqn:Hex.
    { unfold Firehose.parseEvt. rewrite Hex. by intros [= <- _]. }
    assert (∀ evts : list CommitEvt,
      Forall
        (λ e, ∃ collection rkey,
                parseDataKey (uri_pathname (m_uri (ce_meta e)))
                = Ok (collection, rkey)
                ∧ filterSpec (default [] (Firehose.filterCollections opts))
                    (default [] (Firehose.filterDids opts))
                    collection (m_did (ce_meta e)))
        evts →
      Forall (firehoseDelivers opts) (map ECommit evts)) as Hmap.
    { intros evts Hall. apply Forall_fmap.
      eapply Forall_impl; [done|]. by intros e He. }
    destruct (Firehose.unauthenticatedCommits opts) eqn:Hun.
    + unfold Firehose.parseEvt. rewrite Hex, Hun. cbn [negb]. run_step.
      unfold Firehose.parseCommitUnauthenticated.
      destruct (Firehose.maybeFilterOps _ _ _) as [ops|] eqn:Hops; cbn.
      2: { run_step. by intros [= <- _]. }
      destruct (Firehose.formatCommitOps commit ops) as [evts|] eqn:Hfmt;
        run_step; intros [= <- _]; [|done].
      apply Hmap. eapply formatted_pass_filter; [|done].
      intros op Hop. by apply (maybeFilterOps_spec _ _ _ _ Hops op).
    + rewrite parseEvt_authenticated by done.
      destruct (Firehose.parseCommitAuthenticated _ _ _ _ _)
        as [[evts|err] w1] eqn:Hrun; intros [= <- _]; [|done].
      apply Hmap.
      destruct (parseCommitAuthenticated_Ok _ _ _ _ _ _ _ Hrun)
        as [[_ ->]|(ops & claims & refresh & key & verified
                    & Hops & _ & _ & _ & Hfmt)]; [done|].
      eapply formatted_pass_filter; [|done].
      intros op [Hop _]%elem_of_List_filter.
      by apply (maybeFilterOps_spec _ _ _ _ Hops op).
  - unfold Firehose.parseEvt.
    destruct (Firehose.excludeSync opts) eqn:Hex; cbn [negb]; run_step.
    { by intros [= <- _]. }
    destruct (Firehose.parseSync sync) as [[e|]|]; run_step;
      intros [= <- _]; [|done|done].
    by repeat constructor.
  - unfold Firehose.parseEvt.
    destruct (Firehose.excludeIdentity opts) eqn:Hex; cbn [negb]; run_step.
    { by intros [= <- _]. }
    destruct (Firehose.parseIdentity identity _) as [[e|]|]; run_step;
      intros [= <- _]; [|done|done].
    by repeat constructor.
  - unfold Firehose.parseEvt.
    destruct (Firehose.excludeAccount opts) eqn:Hex; cbn [negb]; run_step.
    { by intros [= <- _]. }
    destruct (Firehose.parseAccount account) as [e|] eqn:Hacc;
      intros [= <- _]; [|done].
    constructor; [|done]. split; [done|].
    by eapply parseAccount_statusKept.
  - by intros [= <- _].
Qed.

Lemma firehose_body_logs (retry : M RepoEvent Event (list CommitEvt))
    evt fc fd force :
  Firehose.excludeCommit opts = false →
  Firehose.unauthenticatedCommits opts = false →
  logsOnly (firehoseMay opts) retry →
  logsOnly (firehoseMay opts)
    (Firehose.parseCommitAuthenticated_body retry evt fc fd force).
Proof.
  intros Hex Hun Hretry. unfold Firehose.parseCommitAuthenticated_body.
  repeat first [assumption | only_step]; by cbn.
Qed.

Lemma firehose_parseEvt_logs (evt : RepoEvent) :
  logsOnly (firehoseMay opts) (Firehose.parseEvt opts evt).
Proof.
  unfold Firehose.parseEvt.
  apply logsOnly_tryCatch; [|intros err; by repeat only_step].
  destruct evt as [commit|sync|identity|account|];
    try (by repeat only_step).
  destruct (Firehose.excludeCommit opts) eqn:Hex; cbn [negb];
    [by only_step|].
  apply logsOnly_fmap.
  destruct (Firehose.unauthenticatedCommits opts) eqn:Hun; [by only_step|].
  unfold Firehose.parseCommitAuthenticated.
  apply firehose_body_logs; try done.
  apply firehose_body_logs; try done. apply logsOnly_throw.
Qed.

Lemma firehose_processEvt_loop_logs (parsed : list Event) :
  Forall (firehoseDelivers opts) parsed →
  logsOnly (firehoseMay opts) (Firehose.processEvt_loop opts parsed).
Proof.
  induction 1 as [|write rest Hwrite Hrest IH]; cbn.
  - apply logsOnly_ret.
  - repeat first [assumption | only_step]; by cbn.
Qed.

Lemma firehose_processEvt_logs (evt : RepoEvent) :
  logsOnly (firehoseMay opts) (Firehose.processEvt opts evt).
Proof.
  unfold Firehose.processEvt.
  eapply logsOnly_bind_yields.
  - apply firehose_parseEvt_logs.
  - apply firehose_parseEvt_delivers.
  - intros parsed Hparsed. by apply firehose_processEvt_loop_logs.
Qed.

Lemma firehose_getUrl_logs :
  logsOnly (firehoseMay opts) (Firehose.getUrl opts).
Proof.
  unfold Firehose.getUrl, Firehose.getParams.
  destruct (Firehose.getCursorFn opts) as [source|] eqn:Hsource;
    repeat only_step; cbn; by rewrite ?Hsource.
Qed.

Lemma firehose_consume_logs (evt : RepoEvent) :
  logsOnly (firehoseMay opts) (Firehose.consume opts evt).
Proof.
  unfold Firehose.consume.
  destruct (Firehose.runner opts) as [r|] eqn:Hr.
  - repeat only_step. cbn. by rewrite Hr.
  - apply firehose_processEvt_logs.
Qed.

Lemma firehose_forAwait_logs pulls finally :
  logsOnly (firehoseMay opts) (Firehose.forAwait opts pulls finally).
Proof.
  induction pulls as [|[chunk|] rest IH]; cbn;
    repeat first [assumption | apply firehose_consume_logs | only_step];
    by cbn.
Qed.

Lemma firehose_start_logs (script : list (Connection FrameChunk)) :
  logsOnly (firehoseMay opts) (Firehose.start opts script).
Proof.
  induction script as [|conn later IH]; cbn.
  - apply logsOnly_ret.
  - repeat first [ assumption | apply firehose_getUrl_logs
                 | apply firehose_forAwait_logs | only_step ];
      by cbn.
Qed.

(** X11.  The Firehose stays within its options, in a whole run of
    [start] and in every closure that [start] hands to a runner, whenever
    the runner runs it.  The cursor is asked only of a configured
    source, and [trackEvent] is called only on a configured runner.  Keys
    are resolved and proofs checked only when commits are neither
    excluded nor unauthenticated.  Every event the handler gets, or a
    handler error reports, is of a kind that is not excluded, a commit
    event naming a record and a repository that pass the filter, an
    account event with no status, an empty one or a known one. *)
Theorem firehose_run_within_options
    (script : list (Connection FrameChunk)) (evt : RepoEvent) :
  logsOnly (firehoseMay opts) (Firehose.start opts script)
  ∧ logsOnly (firehoseMay opts) (Firehose.trackedWork opts evt).
Proof.
  split; [apply firehose_start_logs|apply firehose_processEvt_logs].
Qed.
End FirehoseRun.

Section JetstreamRun.
Context `{Collaborators}.
Implicit Types (w : World JetstreamEventKind JetstreamEvent).
Variable opts : Jetstream.JetstreamOptions.

(** What a formatted Jetstream commit event says of its frame. *)
Lemma jetstream_formatCommitEvt_meta (evt : JetstreamEventKindCommit)
    (e : JetstreamCommitEvt) :
  Jetstream.formatCommitEvt evt = Ok (Some e) →
  jm_did (jce_meta e) = kc_did evt
  ∧ jm_collection (jce_meta e) = operation_collection (kc_commit evt).
Proof.
  unfold Jetstream.formatCommitEvt.
  destruct (Date_toISOString _) as [time|]; [|done]. cbn.
  destruct (kc_commit evt) as [? ? ? record cid|? ? ? record cid|? ? ?];
    cbn.
  1,2: destruct (CID_parse cid); [|done]; cbn;
       destruct (ipldToLex record) as [v|]; [|done]; cbn;
       destruct (asRecord v); [|done].
  all: by intros [= <-].
Qed.

Lemma jetstream_parseEvt_delivers (evt : JetstreamEventKind) :
  yields (λ parsed, ∀ ev, parsed = Some ev → jetstreamDelivers opts ev)
    (Jetstream.parseEvt opts evt).
Proof.
  intros w parsed w'. unfold Jetstream.parseEvt.
  destruct evt as [commit|did time_us account|did time_us identity].
  - destruct (Jetstream.excludeCommit opts) eqn:Hex; cbn [negb]; run_step.
    { by intros [= <- _]. }
    unfold Jetstream.parseJetstreamKindCommitUnauthenticated.
    destruct (_ && _) eqn:Hfilter; run_step; [|by intros [= <- _]].
    apply filter_test_spec in Hfilter.
    destruct (Jetstream.formatCommitEvt commit) as [[e|]|] eqn:Hfmt;
      run_step; intros [= <- _]; [|done|done].
    intros ev [= <-]. cbn. split; [done|].
    apply jetstream_formatCommitEvt_meta in Hfmt as [-> ->]. done.
  - destruct (Jetstream.excludeAccount opts) eqn:Hex; cbn [negb]; run_step.
    { by intros [= <- _]. }
    destruct (Firehose.parseAccount account) as [e|] eqn:Hacc;
      intros [= <- _]; [|done].
    intros ev [= <-]. split; [done|]. by eapply parseAccount_statusKept.
  - destruct (Jetstream.excludeIdentity opts) eqn:Hex; cbn [negb]; run_step.
    { by intros [= <- _]. }
    destruct (Firehose.parseIdentity identity _) as [[e|]|]; run_step;
      intros [= <- _]; [|done|done].
    by intros ev [= <-].
Qed.

Lemma jetstream_parseEvt_logs (evt : JetstreamEventKind) :
  logsOnly (jetstreamMay opts) (Jetstream.parseEvt opts evt).
Proof.
  unfold Jetstream.parseEvt.
  apply logsOnly_tryCatch; [|intros err; by repeat only_step].
  destruct evt; by repeat only_step.
Qed.

Lemma jetstream_processEvt_logs (evt : JetstreamEventKind) :
  logsOnly (jetstreamMay opts) (Jetstream.processEvt opts evt).
Proof.
  unfold Jetstream.processEvt.
  eapply logsOnly_bind_yields.
  - apply jetstream_parseEvt_logs.
  - apply jetstream_parseEvt_delivers.
  - intros [ev|] Hparsed; [|apply logsOnly_ret].
    specialize (Hparsed ev eq_refl). by repeat only_step.
Qed.

Lemma jetstream_getUrl_logs :
  logsOnly (jetstreamMay opts) (Jetstream.getUrl opts).
Proof.
  unfold Jetstream.getUrl, Jetstream.getParams.
  destruct (Jetstream.getCursorFn opts) as [source|] eqn:Hsource;
    repeat only_step; cbn; by rewrite ?Hsource.
Qed.

Lemma jetstream_consume_logs (evt : JetstreamEventKind) :
  logsOnly (jetstreamMay opts) (Jetstream.consume opts evt).
Proof.
  unfold Jetstream.consume.
  destruct (Jetstream.runner opts) as [r|] eqn:Hr.
  - repeat only_step. cbn. by rewrite Hr.
  - apply jetstream_processEvt_logs.
Qed.

Lemma jetstream_forAwait_logs dict pulls finally :
  logsOnly (jetstreamMay opts) (Jetstream.forAwait opts dict pulls finally).
Proof.
  induction pulls as [|[chunk|] rest IH]; cbn;
    repeat first [assumption | apply jetstream_consume_logs | only_step];
    by cbn.
Qed.

Lemma jetstream_start_logs (script : list Jetstream.JetstreamConnection) :
  logsOnly (jetstreamMay opts) (Jetstream.start opts script).
Proof.
  induction script as [|conn later IH]; cbn.
  - apply logsOnly_ret.
  - repeat first [ assumption | apply jetstream_getUrl_logs
                 | apply jetstream_forAwait_logs | only_step ];
      by cbn.
Qed.

(** X12.  The Jetstream stays within its options, in a whole run of
    [start] and in every closure that [start] hands to a runner, whenever
    the runner runs it.  It never resolves a signing key and never checks
    a proof: its commits are taken as the relay sends them.  The cursor
    is asked only of a configured source, and [trackEvent] is called only
    on a configured runner.  Every event the handler gets, or a handler
    error reports, is of a kind that is not excluded, a commit event of
    a collection and a repository that pass the filter, an account event
    with no status, an empty one or a known one. *)
Theorem jetstream_run_within_options
    (script : list Jetstream.JetstreamConnection)
    (evt : JetstreamEventKind) :
  logsOnly (jetstreamMay opts) (Jetstream.start opts script)
  ∧ logsOnly (jetstreamMay opts) (Jetstream.trackedWork opts evt).
Proof.
  split; [apply jetstream_start_logs|apply jetstream_processEvt_logs].
Qed.
End JetstreamRun.

Section TurbostreamRun.
Context `{Collaborators}.
Variable opts : Turbostream.TurbostreamOptions.

Lemma turbostream_processEvt_logs (evt : TurbostreamEventKind) :
  logsOnly (turbostreamMay opts) (Turbostream.processEvt opts evt).
Proof.
  unfold Turbostream.processEvt, Turbostream.parseEvt.
  destruct (Turbostream.excludeCommit opts) eqn:Hex; cbn [negb].
  - eapply (logsOnly_bind_yields _ (λ parsed, parsed = None)).
    + by repeat only_step.
    + intros w parsed w'. run_step. by intros [= <- _].
    + intros parsed ->. apply logsOnly_ret.
  - by repeat only_step.
Qed.

Lemma turbostream_forAwait_logs pulls finally :
  logsOnly (turbostreamMay opts) (Turbostream.forAwait opts pulls finally).
Proof.
  induction pulls as [|[chunk|] rest IH]; cbn;
    repeat first [ assumption | apply turbostream_processEvt_logs
                 | only_step ];
    by cbn.
Qed.

(** X13.  A run of the Turbostream asks no cursor, tracks nothing, resolves no
    key and checks no proof; and the handler is called only when commits
    are not excluded. *)
Theorem turbostream_run_within_options
    (script : list (Connection FrameChunk)) :
  logsOnly (turbostreamMay opts) (Turbostream.start opts script).
Proof.
  induction script as [|conn later IH]; cbn.
  - apply logsOnly_ret.
  - repeat first [ assumption | apply turbostream_forAwait_logs
                 | only_step ];
      by cbn.
Qed.
End TurbostreamRun.

(** ** How a run ends, and what a bad frame costs *)

Section RunFacts.
Context `{Collaborators}.

Lemma firehose_start_returns (opts : Firehose.FirehoseOptions)
    (script : list (Connection FrameChunk)) (w : World RepoEvent Event) :
  ∃ exit w', Firehose.start opts script w = (Ok exit, w').
Proof.
  revert w. induction script as [|conn later IH]; intros w; cbn.
  { by eexists _, _. }
  rewrite run_tryCatch.
  destruct ((Firehose.getUrl opts;;
             Firehose.forAwait opts (conn_pulls conn) (conn_end conn);;
             mret Returned) w) as [[exit|err] w1]; [by eexists _, _|].
  destruct (isAbortError err); run_step; [by eexists _, _|].
  apply IH.
Qed.

Lemma jetstream_start_returns (opts : Jetstream.JetstreamOptions)
    (script : list Jetstream.JetstreamConnection)
    (w : World JetstreamEventKind JetstreamEvent) :
  ∃ exit w', Jetstream.start opts script w = (Ok exit, w').
Proof.
  revert w. induction script as [|conn later IH]; intros w; cbn.
  { by eexists _, _. }
  rewrite run_tryCatch.
  destruct ((dict ← liftR (Jetstream.jc_dictionary conn);
             Jetstream.getUrl opts;;
             Jetstream.forAwait opts dict
               (conn_pulls (Jetstream.jc_socket conn))
               (conn_end (Jetstream.jc_socket conn));;
             mret Returned) w) as [[exit|err] w1]; [by eexists _, _|].
  destruct (isAbortError err); run_step; [by eexists _, _|].
  apply IH.
Qed.

Lemma turbostream_start_returns (opts : Turbostream.TurbostreamOptions)
    (script : list (Connection FrameChunk))
    (w : World TurbostreamEventKind TurbostreamCommitEvt) :
  ∃ exit w', Turbostream.start opts script w = (Ok exit, w').
Proof.
  revert w. induction script as [|conn later IH]; intros w; cbn.
  { by eexists _, _. }
  rewrite run_tryCatch.
  destruct ((Turbostream.getUrl opts;;
             Turbostream.forAwait opts (conn_pulls conn) (conn_end conn);;
             mret Returned) w) as [[exit|err] w1]; [by eexists _, _|].
  destruct (isAbortError err); run_step; [by eexists _, _|].
  apply IH.
Qed.

(** X14.  [start] never throws, in any of the three variants: whatever the
    socket, the cursor source, the collaborators and the handler throw is
    caught on the way, so the promise [start] returns is never rejected
    (the callbacks [onError] and [onInfo] are taken not to throw). *)
Theorem start_never_throws :
  (∀ (opts : Firehose.FirehoseOptions) script w,
     ∃ exit w', Firehose.start opts script w = (Ok exit, w'))
  ∧ (∀ (opts : Jetstream.JetstreamOptions) script w,
       ∃ exit w', Jetstream.start opts script w = (Ok exit, w'))
  ∧ (∀ (opts : Turbostream.TurbostreamOptions) script w,
       ∃ exit w', Turbostream.start opts script w = (Ok exit, w')).
Proof.
  split; [|split]; intros opts script w.
  - apply firehose_start_returns.
  - apply jetstream_start_returns.
  - apply turbostream_start_returns.
Qed.

Lemma firehose_forAwait_Ok (opts : Firehose.FirehoseOptions) pulls finally
    (w w' : World RepoEvent Event) :
  Firehose.forAwait opts pulls finally w = (Ok (), w') →
  w_aborted w' = false.
Proof.
  revert w. induction pulls as [|[chunk|] rest IH]; intros w;
    destruct (w_aborted w) eqn:Hab;
    try (by rewrite forAwait_aborted).
  - cbn [Firehose.forAwait]. rewrite run_bind. unfold signalAborted.
    rewrite Hab. destruct finally; [done|]. by intros [= <-].
  - rewrite forAwait_frame by done.
    destruct (firehoseTurn opts chunk w) as [[[]|?] w1]; [apply IH|done].
  - by rewrite forAwait_destroy.
Qed.

Lemma firehose_start_resolved (opts : Firehose.FirehoseOptions)
    (script : list (Connection FrameChunk)) (w w' : World RepoEvent Event) :
  Firehose.start opts script w = (Ok Returned, w') →
  w_aborted w' = true →
  w_destroyResolved w' = true.
Proof.
  revert w. induction script as [|conn later IH]; intros w; cbn; [done|].
  rewrite run_tryCatch, run_bind.
  destruct (Firehose.getUrl opts w) as [[url|err] w0].
  - rewrite run_bind.
    destruct (Firehose.forAwait opts (conn_pulls conn) (conn_end conn) w0)
      as [[[]|err] w1] eqn:Hloop.
    + run_step. intros [= <-] Hab.
      apply firehose_forAwait_Ok in Hloop. congruence.
    + destruct (isAbortError err); run_step.
      * by intros [= <-].
      * apply IH.
  - destruct (isAbortError err); run_step.
    + by intros [= <-].
    + apply IH.
Qed.

Lemma keepsDeferred_ret {Env Ev A} (a : A) :
  keepsDeferred (mret a : M Env Ev A).
Proof. by intros w r w' [= _ <-]. Qed.

Lemma keepsDeferred_liftR {Env Ev A} (r : Result A) :
  keepsDeferred (liftR r : M Env Ev A).
Proof. by intros w r' w' [= _ <-]. Qed.

Lemma keepsDeferred_throw {Env Ev A} (e : Exn) :
  keepsDeferred (throw e : M Env Ev A).
Proof. apply keepsDeferred_liftR. Qed.

Lemma keepsDeferred_emit {Env Ev} (e : Effect Env Ev) :
  keepsDeferred (emit e).
Proof. by intros w r w' [= _ <-]. Qed.

Lemma keepsDeferred_callCursor {Env Ev} (source : CursorSource) :
  keepsDeferred (callCursor source : M Env Ev _).
Proof. by intros w r w' [= _ <-]. Qed.

Lemma keepsDeferred_abort {Env Ev} : keepsDeferred (abort : M Env Ev _).
Proof. by intros w r w' [= _ <-]. Qed.

Lemma keepsDeferred_signalAborted {Env Ev} :
  keepsDeferred (signalAborted : M Env Ev _).
Proof. by intros w r w' [= _ <-]. Qed.

Lemma keepsDeferred_bind {Env Ev A B} (m : M Env Ev A)
    (f : A → M Env Ev B) :
  keepsDeferred m → (∀ a, keepsDeferred (f a)) → keepsDeferred (m ≫= f).
Proof.
  intros Hm Hf w r w'. rewrite run_bind.
  destruct (m w) as [[a|e] w1] eqn:Hrun.
  - intros Hrest. by rewrite (Hf _ _ _ _ Hrest), (Hm _ _ _ Hrun).
  - intros [= _ <-]. by apply (Hm _ _ _ Hrun).
Qed.

Lemma keepsDeferred_fmap {Env Ev A B} (f : A → B) (m : M Env Ev A) :
  keepsDeferred m → keepsDeferred (f <$> m).
Proof.
  intros Hm w r w'. rewrite run_fmap.
  destruct (m w) as [[a|e] w1] eqn:Hrun; intros [= _ <-];
    by apply (Hm _ _ _ Hrun).
Qed.

Lemma keepsDeferred_tryCatch {Env Ev A} (m : M Env Ev A)
    (h : Exn → M Env Ev A) :
  keepsDeferred m → (∀ e, keepsDeferred (h e)) →
  keepsDeferred (tryCatch m h).
Proof.
  intros Hm Hh w r w'. rewrite run_tryCatch.
  destruct (m w) as [[a|e] w1] eqn:Hrun.
  - intros [= _ <-]. by apply (Hm _ _ _ Hrun).
  - intros Hrest. by rewrite (Hh _ _ _ _ Hrest), (Hm _ _ _ Hrun).
Qed.

Ltac defers_step :=
  first
    [ apply keepsDeferred_ret | apply keepsDeferred_liftR
    | apply keepsDeferred_throw | apply keepsDeferred_emit
    | apply keepsDeferred_callCursor | apply keepsDeferred_abort
    | apply keepsDeferred_signalAborted
    | apply keepsDeferred_bind; [|intros ?]
    | apply keepsDeferred_fmap
    | apply keepsDeferred_tryCatch; [|intros ?]
    | match goal with
      | |- keepsDeferred (match ?x with _ => _ end) => destruct x
      | |- keepsDeferred (let '(_, _) := ?x in _) => destruct x
      end ].

Lemma keepsDeferred_processEvt (opts : Firehose.FirehoseOptions) evt :
  keepsDeferred (Firehose.processEvt opts evt).
Proof.
  unfold Firehose.processEvt.
  apply keepsDeferred_bind.
  { unfold Firehose.parseEvt, Firehose.parseCommitAuthenticated,
      Firehose.parseCommitAuthenticated_body.
    repeat defers_step. }
  intros parsed. induction parsed as [|write rest IH]; cbn;
    repeat first [assumption | defers_step].
Qed.

Lemma keepsDeferred_consume (opts : Firehose.FirehoseOptions) evt :
  keepsDeferred (Firehose.consume opts evt).
Proof.
  unfold Firehose.consume.
  repeat first [apply keepsDeferred_processEvt | defers_step].
Qed.

Lemma keepsDeferred_attempt (opts : Firehose.FirehoseOptions)
    (conn : Connection FrameChunk) :
  keepsDeferred (firehoseAttempt opts conn).
Proof.
  unfold firehoseAttempt. apply keepsDeferred_bind.
  { unfold Firehose.getUrl, Firehose.getParams. repeat defers_step. }
  intros _. generalize (conn_pulls conn) as pulls.
  induction pulls as [|[chunk|] rest IH]; cbn;
    repeat first [ assumption | apply keepsDeferred_consume
                 | defers_step ].
Qed.

(** X15.  A [start] that returns with the signal aborted, that is after a
    [destroy] called while it ran, has resolved the deferred that
    [destroy] awaits, and a further [destroy] returns.  When the frame
    sequence of a connection ends without an error, [start] returns as
    well, with the signal not aborted and the deferred as it was before
    the connection; if it was unresolved then, a [destroy] called after
    that return does not return: it awaits a deferred that only [start]
    resolves. *)
Theorem destroy_after_start_returned (opts : Firehose.FirehoseOptions) :
  (∀ script (w w' : World RepoEvent Event),
     Firehose.start opts script w = (Ok Returned, w') →
     w_aborted w' = true →
     w_destroyResolved w' = true
     ∧ Firehose.destroy w' = (Ok Returned, w'))
  ∧ (∀ conn later (w w1 : World RepoEvent Event),
       firehoseAttempt opts conn w = (Ok (), w1) →
       Firehose.start opts (conn :: later) w = (Ok Returned, w1)
       ∧ w_aborted w1 = false
       ∧ w_destroyResolved w1 = w_destroyResolved w
       ∧ (w_destroyResolved w = false →
          (Firehose.destroy w1).1 = Ok Awaiting
          ∧ w_destroyResolved (Firehose.destroy w1).2 = false)).
Proof.
  split.
  - intros script w w' Hrun Hab.
    pose proof (firehose_start_resolved _ _ _ _ Hrun Hab) as Hres.
    split; [done|].
    destruct w'; cbn in *; subst. reflexivity.
  - intros conn later w w1 Hattempt.
    pose proof (keepsDeferred_attempt _ _ _ _ _ Hattempt) as Hkept.
    split; [|split; [|split; [done|]]].
    + cbn [Firehose.start]. rewrite run_tryCatch.
      unfold firehoseAttempt in Hattempt. rewrite run_bind in Hattempt.
      rewrite run_bind.
      destruct (Firehose.getUrl opts w) as [[url|?] w0]; [|done].
      rewrite run_bind, Hattempt. by run_step.
    + unfold firehoseAttempt in Hattempt. rewrite run_bind in Hattempt.
      destruct (Firehose.getUrl opts w) as [[url|?] w0]; [|done].
      by eapply firehose_forAwait_Ok.
    + intros Hfresh. rewrite Hfresh in Hkept.
      unfold Firehose.destroy. rewrite run_bind. cbn. by rewrite Hkept.
Qed.

(** X16.  A chunk that is not a message frame ends the Firehose connection:
    the frames after it are not read, the error is reported as a
    subscription error, and after the delay [start] goes on with the next
    connection. *)
Theorem undecodable_frame_drops_connection (opts : Firehose.FirehoseOptions)
    (before after : list (Pull FrameChunk)) (chunk : FrameChunk)
    (finally : ConnectionEnd) (later : list (Connection FrameChunk))
    (w : World RepoEvent Event) (url : string) w0 wb (err : Exn) :
  Firehose.getUrl opts w = (Ok url, w0) →
  Firehose.forAwait opts before EndReturns w0 = (Ok (), wb) →
  ensureChunkIsMessage chunk = Throw err →
  isAbortError err = false →
  Firehose.start opts
    ({| conn_pulls := before ++ Frame chunk :: after;
        conn_end := finally |} :: later) w
  = Firehose.start opts later
      (logged wb
         [OnError (SubscriptionError err);
          Wait (default (Number_ofZ 3000)
                  (Firehose.subscriptionReconnectDelay opts))]).
Proof.
  intros Hurl Hbefore Hchunk Hname.
  apply firehose_start_reconnects; [|done].
  unfold firehoseAttempt. rewrite run_bind, Hurl. cbn.
  rewrite (forAwait_app _ _ _ _ _ _ Hbefore).
  rewrite forAwait_frame by (by eapply forAwait_Ok_not_aborted).
  unfold firehoseTurn, Firehose.nextEvent. run_step.
  by rewrite Hchunk.
Qed.

(** X17.  A frame that fails the lexicon validation is reported as a
    validation error and passed over: nothing is yielded for it and the
    loop goes on with the next frame of the same connection. *)
Theorem invalid_frame_reported_and_skipped (opts : Firehose.FirehoseOptions)
    (chunk : FrameChunk) (rest : list (Pull FrameChunk))
    (finally : ConnectionEnd) (w : World RepoEvent Event)
    (message : FrameMessage) (err : Exn) :
  w_aborted w = false →
  ensureChunkIsMessage chunk = Ok message →
  assertValidXrpcMessage (typedBody message) = Throw err →
  Firehose.forAwait opts (Frame chunk :: rest) finally w
  = Firehose.forAwait opts rest finally
      (logged w [OnError (ValidationError err)]).
Proof.
  intros Hab Hchunk Hvalid.
  rewrite forAwait_frame by done.
  unfold firehoseTurn, Firehose.nextEvent, Firehose.validate. run_step.
  rewrite Hchunk. run_step. fold (typedBody message).
  rewrite Hvalid. by run_step.
Qed.

(** X18.  A Jetstream chunk that cannot be decompressed or parsed is reported
    as a decompress error and passed over; the connection stays. *)
Theorem jetstream_bad_frame_skipped (opts : Jetstream.JetstreamOptions)
    (dict : ZstdDictionary) (chunk : FrameChunk)
    (rest : list (Pull FrameChunk)) (finally : ConnectionEnd)
    (w : World JetstreamEventKind JetstreamEvent) (err : Exn) :
  w_aborted w = false →
  jetstreamDecode opts dict chunk = Throw err →
  Jetstream.forAwait opts dict (Frame chunk :: rest) finally w
  = Jetstream.forAwait opts dict rest finally
      (logged w [OnError (DecompressError err)]).
Proof.
  intros Hab Hdecode.
  rewrite jetstream_forAwait_frame by done.
  unfold jetstreamTurn, Jetstream.nextEvent. unfold jetstreamDecode in Hdecode.
  destruct (default false (Jetstream.compress opts)); run_step.
  - destruct (decompressUsingDict chunk dict) as [decompressed|];
      cbn in Hdecode; run_step.
    + rewrite Hdecode. by run_step.
    + simplify_eq. by run_step.
  - rewrite Hdecode. by run_step.
Qed.

(** X19.  A Turbostream chunk that is not JSON is reported as a decompress
    error and passed over; the loop goes on with the next chunk of the
    same connection. *)
Theorem turbostream_bad_frame_skipped (opts : Turbostream.TurbostreamOptions)
    (chunk : FrameChunk) (rest : list (Pull FrameChunk))
    (finally : ConnectionEnd)
    (w : World TurbostreamEventKind TurbostreamCommitEvt) (err : Exn) :
  w_aborted w = false →
  parseTurbostreamFrame chunk = Throw err →
  Turbostream.forAwait opts (Frame chunk :: rest) finally w
  = Turbostream.forAwait opts rest finally
      (logged w [OnError (DecompressError err)]).
Proof.
  intros Hab Hparse.
  rewrite turbostream_forAwait_frame by done.
  unfold turbostreamTurn, Turbostream.nextEvent. run_step.
  rewrite Hparse. by run_step.
Qed.

(** X20.  The Jetstream downloads the compression dictionary before it opens
    the socket, whether [compress] is set or not.  When the download
    fails, the attempt is over before the cursor source is asked or an
    address is announced: the error is reported as a subscription error
    and [start] reconnects after the delay. *)
Theorem dictionary_failure_reconnects (opts : Jetstream.JetstreamOptions)
    (conn : Jetstream.JetstreamConnection)
    (later : list Jetstream.JetstreamConnection)
    (w : World JetstreamEventKind JetstreamEvent) (err : Exn) :
  Jetstream.jc_dictionary conn = Throw err →
  isAbortError err = false →
  Jetstream.start opts (conn :: later) w
  = Jetstream.start opts later
      (logged w
         [OnError (SubscriptionError err);
          Wait (default (Number_ofZ 3000)
                  (Jetstream.subscriptionReconnectDelay opts))]).
Proof.
  intros Hdict Hname.
  apply jetstream_start_reconnects; [|done].
  unfold jetstreamAttempt. run_step. by rewrite Hdict.
Qed.

(** X21.  A cursor source that throws fails the connection attempt before any
    frame is read: the error is reported as a subscription error, and
    after the delay [start] goes on with the next connection, which asks
    the source again. *)
Theorem failing_cursor_source_retried (opts : Firehose.FirehoseOptions)
    (source : CursorSource) (conn : Connection FrameChunk)
    (later : list (Connection FrameChunk)) (w : World RepoEvent Event)
    (err : Exn) :
  Firehose.getCursorFn opts = Some source →
  source (w_cursorCalls w) = Throw err →
  isAbortError err = false →
  Firehose.start opts (conn :: later) w
  = Firehose.start opts later
      (asked w
         [GetCursor (w_cursorCalls w);
          OnError (SubscriptionError err);
          Wait (default (Number_ofZ 3000)
                  (Firehose.subscriptionReconnectDelay opts))]).
Proof.
  intros Hsource Hthrow Hname.
  rewrite (firehose_start_reconnects _ _ _ _ err
             (asked w [GetCursor (w_cursorCalls w)])); [|
    unfold firehoseAttempt; rewrite run_bind,
      (firehose_getUrl_run _ _ _ Hsource), Hthrow; done|done].
  f_equal. unfold logged, asked. cbn. by rewrite <- app_assoc.
Qed.
End RunFacts.

(** ** The query of the Jetstream, and arrays in a query *)

Section QueryFacts.
Context `{Collaborators}.

Lemma flatMapR_app {A} (f : A → Result Encoded) (xs ys : list A) :
  flatMapR f (xs ++ ys)
  = encs ← flatMapR f xs; more ← flatMapR f ys; Ok (encs ++ more).
Proof.
  induction xs as [|x xs IH]; cbn.
  - by destruct (flatMapR f ys).
  - destruct (f x) as [enc|]; cbn; [|done]. rewrite IH.
    destruct (flatMapR f xs) as [encs|]; cbn; [|done].
    destruct (flatMapR f ys) as [more|]; cbn; [|done].
    destruct enc; cbn; [done|]. by rewrite app_assoc.
Qed.

(** X22.  An array inside an array encodes as its elements in place: arrays
    are flattened at every depth, so a key gets one value for each scalar
    however the scalars are nested; and the encoders of the two variants
    agree on it. *)
Theorem nested_arrays_flatten (before inner after : list JsValue) :
  Firehose.encodeQueryParam (VArray (before ++ VArray inner :: after))
  = Firehose.encodeQueryParam (VArray (before ++ inner ++ after))
  ∧ Jetstream.encodeQueryParam (VArray (before ++ VArray inner :: after))
    = Jetstream.encodeQueryParam (VArray (before ++ inner ++ after)).
Proof.
  assert (Firehose.encodeQueryParam (VArray (before ++ VArray inner :: after))
          = Firehose.encodeQueryParam (VArray (before ++ inner ++ after)))
    as Hflat; [|split; exact Hflat].
  change (EncArray <$> flatMapR Firehose.encodeQueryParam
                         (before ++ VArray inner :: after)
          = EncArray <$> flatMapR Firehose.encodeQueryParam
                           (before ++ inner ++ after)).
  f_equal. rewrite !flatMapR_app.
  destruct (flatMapR _ before) as [encs|]; cbn; [|done].
  change (flatMapR Firehose.encodeQueryParam (VArray inner :: after))
    with (enc ← (EncArray <$> flatMapR Firehose.encodeQueryParam inner);
          more ← flatMapR Firehose.encodeQueryParam after;
          Ok match enc with
             | EncString s => s :: more
             | EncArray ss => ss ++ more
             end).
  destruct (flatMapR _ inner) as [ins|]; cbn; [|done].
  by destruct (flatMapR _ after).
Qed.

Lemma params_set_fresh (params : URLSearchParams) (key value : string) :
  Forall (λ kv, kv.1 ≠ key) params →
  params_set params key value = params ++ [(key, value)].
Proof.
  induction 1 as [|[k v] params Hk _ IH]; cbn; [done|].
  cbn in Hk. rewrite bool_decide_eq_false_2 by done. by rewrite IH.
Qed.

Lemma fold_left_params_append (key : string) (ss : list string)
    (acc : URLSearchParams) :
  fold_left (λ p enc, params_append p key enc) ss acc
  = acc ++ map (λ s, (key, s)) ss.
Proof.
  revert acc. induction ss as [|s ss IH]; intros acc; cbn.
  - by rewrite app_nil_r.
  - rewrite IH. unfold params_append. by rewrite <- app_assoc.
Qed.

Lemma jetstream_encodeQueryEntries_app (first second : ParamsObject)
    (params : URLSearchParams) :
  Jetstream.encodeQueryEntries (first ++ second) params
  = params' ← Jetstream.encodeQueryEntries first params;
    Jetstream.encodeQueryEntries second params'.
Proof.
  revert params. induction first as [|[key value] first IH]; intros params;
    [done|].
  cbn. destruct (Jetstream.encodeQueryParam value) as [enc|]; [|done].
  cbn. apply IH.
Qed.

Lemma jetstream_encode_strings (ss : list string) :
  Jetstream.encodeQueryParam (VArray (map VString ss)) = Ok (EncArray ss).
Proof.
  rewrite encodeQueryParam_same.
  by destruct encodeQueryParam_rules as (_ & _ & _ & _ & _ & _ & Harr & _).
Qed.

(** X23.  The query of the Jetstream in closed form.  Encoding the parameters
    never throws; the query holds one [wantedCollections] for each
    collection of the filter, then one [wantedDids] for each DID, then
    the cursor when the source gave one, then [compress] when it is set,
    as [true] or [false]; an option that is not set leaves no key. *)
Theorem jetstream_query_closed_form (opts : Jetstream.JetstreamOptions)
    (cursor : option Number) :
  Jetstream.encodeQueryEntries (jetstreamParams opts cursor) []
  = Ok (jetstreamQuery opts cursor)
  ∧ Jetstream.encodeQueryParams (jetstreamParams opts cursor)
    = Ok (params_toString (jetstreamQuery opts cursor)).
Proof.
  assert (Jetstream.encodeQueryEntries (jetstreamParams opts cursor) []
          = Ok (jetstreamQuery opts cursor)) as Hentries.
  2: { split; [done|]. unfold Jetstream.encodeQueryParams.
       by rewrite Hentries. }
  unfold jetstreamParams, jetstreamQuery, Jetstream.stringArray.
  set (cs := map (λ c, ("wantedCollections", c))
               (default [] (Jetstream.filterCollections opts))).
  set (ds := map (λ d, ("wantedDids", d))
               (default [] (Jetstream.filterDids opts))).
  assert (Jetstream.encodeQueryEntries
            [("wantedCollections",
              match Jetstream.filterCollections opts with
              | Some arr => VArray (map VString arr)
              | None => VUndefined
              end);
             ("wantedDids",
              match Jetstream.filterDids opts with
              | Some arr => VArray (map VString arr)
              | None => VUndefined
              end)] []
          = Ok (cs ++ ds)) as Hfilters.
  { subst cs ds.
    destruct (Jetstream.filterCollections opts) as [fc|],
      (Jetstream.filterDids opts) as [fd|];
      cbn [Jetstream.encodeQueryEntries];
      rewrite ?jetstream_encode_strings; cbn;
      rewrite ?jetstream_encode_strings; cbn;
      rewrite ?fold_left_params_append, ?app_nil_r; done. }
  assert (Forall (λ kv : string * string, kv.1 ≠ "cursor") (cs ++ ds))
    as Hfresh.
  { apply Forall_app. split; apply Forall_fmap, Forall_forall; by intros. }
  assert (Forall (λ kv : string * string, kv.1 ≠ "compress") (cs ++ ds))
    as Hfresh'.
  { apply Forall_app. split; apply Forall_fmap, Forall_forall; by intros. }
  lazymatch goal with
  | |- Jetstream.encodeQueryEntries (?a :: ?b :: ?rest) [] = ?query =>
      change (Jetstream.encodeQueryEntries ([a; b] ++ rest) [] = query)
  end.
  rewrite jetstream_encodeQueryEntries_app, Hfilters. cbn.
  destruct cursor as [n|]; cbn.
  - case_bool_decide as Hempty.
    + destruct (Jetstream.compress opts) as [[|]|]; cbn;
        rewrite ?app_nil_r; [| |done];
        rewrite bool_decide_eq_false_2 by done;
        rewrite (params_set_fresh _ _ _ Hfresh'); by rewrite <- app_assoc.
    + rewrite (params_set_fresh _ _ _ Hfresh).
      destruct (Jetstream.compress opts) as [[|]|]; cbn;
        rewrite ?app_nil_r; [| |by rewrite <- app_assoc];
        rewrite bool_decide_eq_false_2 by done;
        (rewrite params_set_fresh
           by (apply Forall_app; split; [done|by repeat constructor]));
        by rewrite <- !app_assoc.
  - destruct (Jetstream.compress opts) as [[|]|]; cbn;
      rewrite ?app_nil_r; [| |done];
      rewrite bool_decide_eq_false_2 by done;
      rewrite (params_set_fresh _ _ _ Hfresh'); by rewrite <- app_assoc.
Qed.
End QueryFacts.

(** ** Constructing an ingester *)

Section ConstructorFacts.
Context `{Collaborators}.

(** X24.  [new Ingester(mode, opts)] throws exactly when the mode is none of
    the three, or the mode is Firehose or Jetstream and the options
    hold both a cursor source and a runner.  The Turbostream takes any
    options, a cursor source and a runner together too; and an accepted
    ingester is of the class of its mode, over the options as given. *)
Theorem ingester_constructor_rejects (mode : string)
    (opts : Ingester.IngesterOptions) :
  ((∃ err, Ingester.constructor mode opts = Throw err)
   ↔ mode ∉ ["Firehose"; "Jetstream"; "Turbostream"]
     ∨ ((mode = "Firehose" ∨ mode = "Jetstream")
        ∧ is_Some (Ingester.getCursor opts)
        ∧ is_Some (Ingester.runner opts)))
  ∧ (∀ ing, Ingester.constructor mode opts = Ok ing →
       (mode = "Firehose"
        ∧ ing = Ingester.IngFirehose (Ingester.asFirehoseOptions opts))
       ∨ (mode = "Jetstream"
          ∧ ing = Ingester.IngJetstream (Ingester.asJetstreamOptions opts))
       ∨ (mode = "Turbostream"
          ∧ ing = Ingester.IngTurbostream
                    (Ingester.asTurbostreamOptions opts))).
Proof.
  assert (∀ m, m ∈ ["Firehose"; "Jetstream"; "Turbostream"]
               ↔ m = "Firehose" ∨ m = "Jetstream" ∨ m = "Turbostream")
    as Hmodes.
  { intros m. rewrite !elem_of_cons, elem_of_nil. naive_solver. }
  unfold Ingester.constructor, Firehose.constructor, Jetstream.constructor,
    Turbostream.constructor. rewrite Hmodes.
  case_bool_decide as Hf; [|case_bool_decide as Hj;
                            [|case_bool_decide as Ht]]; cbn.
  - destruct (Ingester.getCursor opts) as [source|],
      (Ingester.runner opts) as [r|]; cbn; (split; [split|]);
      try (intros [err [=]]); try (intros ing [= <-]);
      try (by eauto 10);
      try (by intros [Hin|(_ & [? ?] & [? ?])];
           [destruct Hin; by left|done..]).
  - destruct (Ingester.getCursor opts) as [source|],
      (Ingester.runner opts) as [r|]; cbn; (split; [split|]);
      try (intros [err [=]]); try (intros ing [= <-]);
      try (by eauto 10);
      try (by intros [Hin|(_ & [? ?] & [? ?])];
           [destruct Hin; right; by left|done..]).
  - split; [split|].
    + by intros [err [=]].
    + intros [Hin|([?|?] & _)]; [|done..]. destruct Hin. by right; right.
    + intros ing [= <-]. by right; right.
  - split; [split|]; [|by eexists|done].
    intros _. left. by intros [?|[?|?]].
Qed.
End ConstructorFacts.

(** ** The runner, and how often the cursor is asked *)

Section CursorFacts.
Context `{JsRuntime} `{RepoData} {Env Ev : Type}.

Lemma keepsCursor_ret {A} (a : A) : keepsCursor (mret a : M Env Ev A).
Proof. by intros w r w' [= _ <-]. Qed.

Lemma keepsCursor_liftR {A} (r : Result A) :
  keepsCursor (liftR r : M Env Ev A).
Proof. by intros w r' w' [= _ <-]. Qed.

Lemma keepsCursor_throw {A} (e : Exn) : keepsCursor (throw e : M Env Ev A).
Proof. apply keepsCursor_liftR. Qed.

Lemma keepsCursor_emit (e : Effect Env Ev) : keepsCursor (emit e).
Proof. by intros w r w' [= _ <-]. Qed.

Lemma keepsCursor_abort : keepsCursor (abort : M Env Ev _).
Proof. by intros w r w' [= _ <-]. Qed.

Lemma keepsCursor_signalAborted : keepsCursor (signalAborted : M Env Ev _).
Proof. by intros w r w' [= _ <-]. Qed.

Lemma keepsCursor_resolveDestroyDefer :
  keepsCursor (resolveDestroyDefer : M Env Ev _).
Proof. by intros w r w' [= _ <-]. Qed.

Lemma keepsCursor_bind {A B} (m : M Env Ev A) (f : A → M Env Ev B) :
  keepsCursor m → (∀ a, keepsCursor (f a)) → keepsCursor (m ≫= f).
Proof.
  intros Hm Hf w r w'. rewrite run_bind.
  destruct (m w) as [[a|e] w1] eqn:Hrun.
  - intros Hrest. by rewrite (Hf _ _ _ _ Hrest), (Hm _ _ _ Hrun).
  - intros [= _ <-]. by apply (Hm _ _ _ Hrun).
Qed.

Lemma keepsCursor_fmap {A B} (f : A → B) (m : M Env Ev A) :
  keepsCursor m → keepsCursor (f <$> m).
Proof.
  intros Hm w r w'. rewrite run_fmap.
  destruct (m w) as [[a|e] w1] eqn:Hrun; intros [= _ <-];
    by apply (Hm _ _ _ Hrun).
Qed.

Lemma keepsCursor_tryCatch {A} (m : M Env Ev A) (h : Exn → M Env Ev A) :
  keepsCursor m → (∀ e, keepsCursor (h e)) → keepsCursor (tryCatch m h).
Proof.
  intros Hm Hh w r w'. rewrite run_tryCatch.
  destruct (m w) as [[a|e] w1] eqn:Hrun.
  - intros [= _ <-]. by apply (Hm _ _ _ Hrun).
  - intros Hrest. by rewrite (Hh _ _ _ _ Hrest), (Hm _ _ _ Hrun).
Qed.
End CursorFacts.

Ltac keeps_step :=
  first
    [ apply keepsCursor_ret | apply keepsCursor_liftR
    | apply keepsCursor_throw | apply keepsCursor_emit
    | apply keepsCursor_abort | apply keepsCursor_signalAborted
    | apply keepsCursor_resolveDestroyDefer
    | apply keepsCursor_bind; [|intros ?]
    | apply keepsCursor_fmap
    | apply keepsCursor_tryCatch; [|intros ?]
    | match goal with
      | |- keepsCursor (match ?x with _ => _ end) => destruct x
      | |- keepsCursor (let '(_, _) := ?x in _) => destruct x
      end ].

Section RunnerFacts.
Context `{Collaborators}.
Implicit Types (w : World RepoEvent Event).

(** X25.  With a runner, a frame that validates is handed to [trackEvent] with
    the DID of its repository and its sequence number, and nothing else is
    done with it in [start]; an envelope that has neither, an [#info]
    one, is dropped. *)
Theorem runner_tracks_each_envelope (opts : Firehose.FirehoseOptions)
    (r : Firehose.Runner) (chunk : FrameChunk)
    (rest : list (Pull FrameChunk)) (finally : ConnectionEnd) w
    (message : FrameMessage) (evt : RepoEvent) :
  Firehose.runner opts = Some r →
  w_aborted w = false →
  ensureChunkIsMessage chunk = Ok message →
  assertValidXrpcMessage (typedBody message) = Ok evt →
  Firehose.forAwait opts (Frame chunk :: rest) finally w
  = Firehose.forAwait opts rest finally
      (logged w
         match Firehose.didAndSeqForEvt evt with
         | Some (did, seq) => [TrackEvent did seq evt]
         | None => []
         end).
Proof.
  intros Hr Hab Hchunk Hvalid.
  rewrite forAwait_frame by done.
  unfold firehoseTurn, Firehose.nextEvent, Firehose.validate. run_step.
  rewrite Hchunk. run_step. fold (typedBody message).
  rewrite Hvalid. run_step. unfold Firehose.consume. rewrite Hr.
  destruct (Firehose.didAndSeqForEvt evt) as [[did seq]|]; run_step;
    [done|by rewrite logged_nil].
Qed.

Lemma keepsCursor_parseEvt (opts : Firehose.FirehoseOptions) evt :
  keepsCursor (Firehose.parseEvt opts evt).
Proof.
  unfold Firehose.parseEvt, Firehose.parseCommitAuthenticated,
    Firehose.parseCommitAuthenticated_body.
  repeat keeps_step.
Qed.

Lemma keepsCursor_processEvt (opts : Firehose.FirehoseOptions) evt :
  keepsCursor (Firehose.processEvt opts evt).
Proof.
  unfold Firehose.processEvt.
  apply keepsCursor_bind; [apply keepsCursor_parseEvt|].
  intros parsed. induction parsed as [|write rest IH]; cbn;
    repeat first [assumption | keeps_step].
Qed.

Lemma keepsCursor_consume (opts : Firehose.FirehoseOptions) evt :
  keepsCursor (Firehose.consume opts evt).
Proof.
  unfold Firehose.consume.
  repeat first [apply keepsCursor_processEvt | keeps_step].
Qed.

Lemma keepsCursor_forAwait (opts : Firehose.FirehoseOptions) pulls finally :
  keepsCursor (Firehose.forAwait opts pulls finally).
Proof.
  induction pulls as [|[chunk|] rest IH]; cbn;
    repeat first [ assumption | apply keepsCursor_consume
                 | keeps_step ].
Qed.

Lemma firehose_attempt_cursor (opts : Firehose.FirehoseOptions)
    (conn : Connection FrameChunk) w r w1 :
  firehoseAttempt opts conn w = (r, w1) →
  w_cursorCalls w1
  = match Firehose.getCursorFn opts with
    | Some _ => S (w_cursorCalls w)
    | None => w_cursorCalls w
    end.
Proof.
  unfold firehoseAttempt. rewrite run_bind.
  assert (∀ ru w0, Firehose.getUrl opts w = (ru, w0) →
            w_cursorCalls w0
            = match Firehose.getCursorFn opts with
              | Some _ => S (w_cursorCalls w)
              | None => w_cursorCalls w
              end) as Hurl.
  { intros ru w0. unfold Firehose.getUrl, Firehose.getParams.
    destruct (Firehose.getCursorFn opts) as [source|]; run_step.
    - unfold callCursor.
      destruct (source (w_cursorCalls w)) as [cursor|]; run_step;
        [|by intros [= _ <-]].
      destruct (Firehose.encodeQueryParams _); run_step;
        by intros [= _ <-].
    - destruct (Firehose.encodeQueryParams _); run_step;
        by intros [= _ <-]. }
  destruct (Firehose.getUrl opts w) as [[url|err] w0] eqn:Hrun.
  - intros Hloop. rewrite (keepsCursor_forAwait _ _ _ _ _ _ Hloop).
    by eapply Hurl.
  - intros [= _ <-]. by eapply Hurl.
Qed.

(** X26.  The cursor source is asked once for each connection attempt, when
    the socket connects, and never while frames are processed: an attempt
    adds exactly one call, a run over a script of connections at most one
    call for each connection, and a Firehose without a cursor source
    none. *)
Theorem cursor_asked_once_per_connection (opts : Firehose.FirehoseOptions) :
  (∀ (source : CursorSource) conn w r w1,
     Firehose.getCursorFn opts = Some source →
     firehoseAttempt opts conn w = (r, w1) →
     w_cursorCalls w1 = S (w_cursorCalls w))
  ∧ (∀ script w,
       w_cursorCalls (Firehose.start opts script w).2
       ≤ w_cursorCalls w + length script)
  ∧ (Firehose.getCursorFn opts = None →
     ∀ script w,
       w_cursorCalls (Firehose.start opts script w).2 = w_cursorCalls w).
Proof.
  assert (∀ conn later w,
    ∃ r w1,
      firehoseAttempt opts conn w = (r, w1)
      ∧ (w_cursorCalls (Firehose.start opts (conn :: later) w).2
         = w_cursorCalls w1
         ∨ ∃ l, Firehose.start opts (conn :: later) w
                = Firehose.start opts later (logged w1 l))) as Hstep.
  { intros conn later w.
    destruct (firehoseAttempt opts conn w) as [r w1] eqn:Hattempt.
    exists r, w1. split; [done|].
    destruct r as [[]|err].
    - left. cbn. rewrite run_tryCatch.
      unfold firehoseAttempt in Hattempt. rewrite run_bind in Hattempt.
      rewrite run_bind.
      destruct (Firehose.getUrl opts w) as [[url|?] w0]; [|done].
      rewrite run_bind.
      destruct (Firehose.forAwait opts _ _ w0) as [[[]|?] w2]; [|done].
      by simplify_eq.
    - destruct (isAbortError err) eqn:Hname.
      + left. cbn. rewrite run_tryCatch.
        unfold firehoseAttempt in Hattempt. rewrite run_bind in Hattempt.
        rewrite run_bind.
        destruct (Firehose.getUrl opts w) as [[url|?] w0].
        * rewrite run_bind.
          destruct (Firehose.forAwait opts _ _ w0) as [[[]|?] w2]; [done|].
          simplify_eq. by rewrite Hname.
        * simplify_eq. by rewrite Hname.
      + right. eexists. by apply firehose_start_reconnects. }
  split; [|split].
  - intros source conn w r w1 Hsource Hattempt.
    apply firehose_attempt_cursor in Hattempt. by rewrite Hsource in Hattempt.
  - intros script. induction script as [|conn later IH]; intros w;
      [cbn; lia|].
    destruct (Hstep conn later w) as (r & w1 & Hattempt & [->|[l ->]]);
      apply firehose_attempt_cursor in Hattempt;
      destruct (Firehose.getCursorFn opts); cbn [length];
      try (specialize (IH (logged w1 l)); cbn in IH); lia.
  - intros Hnone script. induction script as [|conn later IH]; intros w;
      [done|].
    destruct (Hstep conn later w) as (r & w1 & Hattempt & [->|[l ->]]);
      apply firehose_attempt_cursor in Hattempt;
      rewrite Hnone in Hattempt; [done|].
    by rewrite IH.
Qed.
End RunnerFacts.

(** ** Stopping and reconnecting the JSON streams *)

Section JsonSupervisors.
Context `{Collaborators}.

Lemma jetstream_forAwait_aborted (opts : Jetstream.JetstreamOptions)
    dict pulls finally (w : World JetstreamEventKind JetstreamEvent) :
  w_aborted w = true →
  Jetstream.forAwait opts dict pulls finally w = (Throw abortReason, w).
Proof.
  intros Hab. destruct pulls as [|[chunk|] rest]; cbn [Jetstream.forAwait];
    rewrite run_bind; unfold signalAborted; by rewrite Hab.
Qed.

Lemma jetstream_forAwait_destroy (opts : Jetstream.JetstreamOptions)
    dict rest finally (w : World JetstreamEventKind JetstreamEvent) :
  w_aborted w = false →
  Jetstream.forAwait opts dict (DestroyCalled :: rest) finally w
  = (Throw abortReason,
     {| w_log := w_log w; w_cursorCalls := w_cursorCalls w;
        w_aborted := true; w_destroyResolved := w_destroyResolved w |}).
Proof.
  intros Hab. cbn [Jetstream.forAwait]. rewrite run_bind.
  unfold signalAborted. rewrite Hab. cbn beta iota. rewrite run_bind.
  unfold abort at 1. cbn beta iota. by rewrite jetstream_forAwait_aborted.
Qed.

Lemma jetstream_forAwait_Ok (opts : Jetstream.JetstreamOptions)
    dict pulls finally (w w' : World JetstreamEventKind JetstreamEvent) :
  Jetstream.forAwait opts dict pulls finally w = (Ok (), w') →
  w_aborted w' = false.
Proof.
  revert w. induction pulls as [|[chunk|] rest IH]; intros w;
    destruct (w_aborted w) eqn:Hab;
    try (by rewrite jetstream_forAwait_aborted).
  - cbn [Jetstream.forAwait]. rewrite run_bind. unfold signalAborted.
    rewrite Hab. destruct finally; [done|]. by intros [= <-].
  - rewrite jetstream_forAwait_frame by done.
    destruct (jetstreamTurn opts dict chunk w) as [[[]|?] w1];
      [apply IH|done].
  - by rewrite jetstream_forAwait_destroy.
Qed.

Lemma jetstream_forAwait_app (opts : Jetstream.JetstreamOptions)
    dict before rest finally
    (w wb : World JetstreamEventKind JetstreamEvent) :
  Jetstream.forAwait opts dict before EndReturns w = (Ok (), wb) →
  Jetstream.forAwait opts dict (before ++ rest) finally w
  = Jetstream.forAwait opts dict rest finally wb.
Proof.
  revert w. induction before as [|[chunk|] before IH]; intros w;
    destruct (w_aborted w) eqn:Hab;
    try (by rewrite jetstream_forAwait_aborted).
  - cbn [Jetstream.forAwait]. rewrite run_bind. unfold signalAborted.
    rewrite Hab. by intros [= <-].
  - cbn [app]. rewrite !jetstream_forAwait_frame by done.
    destruct (jetstreamTurn opts dict chunk w) as [[[]|?] w1];
      [apply IH|done].
  - by rewrite jetstream_forAwait_destroy.
Qed.

(** X27.  With the Jetstream running (the dictionary fetched, the address
    resolved, some frames consumed and nothing raised), a call of
    [destroy] makes [start] return normally: the deferred [destroy]
    awaits is resolved, and from the call on nothing is logged but that:
    no subscription error, no wait, no further frame or connection. *)
Theorem jetstream_destroy_stops_without_reconnect
    (opts : Jetstream.JetstreamOptions) (dict : ZstdDictionary)
    (before after : list (Pull FrameChunk)) (finally : ConnectionEnd)
    (later : list Jetstream.JetstreamConnection)
    (w : World JetstreamEventKind JetstreamEvent) (url : string) w0 wb :
  Jetstream.getUrl opts w = (Ok url, w0) →
  Jetstream.forAwait opts dict before EndReturns w0 = (Ok (), wb) →
  ∃ w',
    Jetstream.start opts
      ({| Jetstream.jc_dictionary := Ok dict;
          Jetstream.jc_socket :=
            {| conn_pulls := before ++ DestroyCalled :: after;
               conn_end := finally |} |} :: later) w
    = (Ok Returned, w')
    ∧ w_destroyResolved w' = true
    ∧ w_aborted w' = true
    ∧ w_log w' = w_log wb ++ [ResolveDestroy]
    ∧ w_cursorCalls w' = w_cursorCalls wb.
Proof.
  intros Hurl Hbefore. eexists. split.
  - cbn [Jetstream.start Jetstream.jc_dictionary Jetstream.jc_socket
         conn_pulls conn_end].
    rewrite run_tryCatch_bind, run_liftR, run_tryCatch_bind, Hurl,
      run_tryCatch_bind.
    rewrite (jetstream_forAwait_app _ _ _ _ _ _ _ Hbefore).
    rewrite jetstream_forAwait_destroy
      by (by eapply jetstream_forAwait_Ok).
    reflexivity.
  - done.
Qed.

Lemma turbostream_forAwait_aborted (opts : Turbostream.TurbostreamOptions)
    pulls finally (w : World TurbostreamEventKind TurbostreamCommitEvt) :
  w_aborted w = true →
  Turbostream.forAwait opts pulls finally w = (Throw abortReason, w).
Proof.
  intros Hab. destruct pulls as [|[chunk|] rest];
    cbn [Turbostream.forAwait];
    rewrite run_bind; unfold signalAborted; by rewrite Hab.
Qed.

Lemma turbostream_forAwait_destroy (opts : Turbostream.TurbostreamOptions)
    rest finally (w : World TurbostreamEventKind TurbostreamCommitEvt) :
  w_aborted w = false →
  Turbostream.forAwait opts (DestroyCalled :: rest) finally w
  = (Throw abortReason,
     {| w_log := w_log w; w_cursorCalls := w_cursorCalls w;
        w_aborted := true; w_destroyResolved := w_destroyResolved w |}).
Proof.
  intros Hab. cbn [Turbostream.forAwait]. rewrite run_bind.
  unfold signalAborted. rewrite Hab. cbn beta iota. rewrite run_bind.
  unfold abort at 1. cbn beta iota. by rewrite turbostream_forAwait_aborted.
Qed.

Lemma turbostream_forAwait_Ok (opts : Turbostream.TurbostreamOptions)
    pulls finally (w w' : World TurbostreamEventKind TurbostreamCommitEvt) :
  Turbostream.forAwait opts pulls finally w = (Ok (), w') →
  w_aborted w' = false.
Proof.
  revert w. induction pulls as [|[chunk|] rest IH]; intros w;
    destruct (w_aborted w) eqn:Hab;
    try (by rewrite turbostream_forAwait_aborted).
  - cbn [Turbostream.forAwait]. rewrite run_bind. unfold signalAborted.
    rewrite Hab. destruct finally; [done|]. by intros [= <-].
  - rewrite turbostream_forAwait_frame by done.
    destruct (turbostreamTurn opts chunk w) as [[[]|?] w1];
      [apply IH|done].
  - by rewrite turbostream_forAwait_destroy.
Qed.

Lemma turbostream_forAwait_app (opts : Turbostream.TurbostreamOptions)
    before rest finally
    (w wb : World TurbostreamEventKind TurbostreamCommitEvt) :
  Turbostream.forAwait opts before EndReturns w = (Ok (), wb) →
  Turbostream.forAwait opts (before ++ rest) finally w
  = Turbostream.forAwait opts rest finally wb.
Proof.
  revert w. induction before as [|[chunk|] before IH]; intros w;
    destruct (w_aborted w) eqn:Hab;
    try (by rewrite turbostream_forAwait_aborted).
  - cbn [Turbostream.forAwait]. rewrite run_bind. unfold signalAborted.
    rewrite Hab. by intros [= <-].
  - cbn [app]. rewrite !turbostream_forAwait_frame by done.
    destruct (turbostreamTurn opts chunk w) as [[[]|?] w1];
      [apply IH|done].
  - by rewrite turbostream_forAwait_destroy.
Qed.

(** X28.  The same for the Turbostream: with the stream running, a call of
    [destroy] makes [start] return normally with the deferred resolved,
    and nothing else is logged from the call on. *)
Theorem turbostream_destroy_stops_without_reconnect
    (opts : Turbostream.TurbostreamOptions)
    (before after : list (Pull FrameChunk)) (finally : ConnectionEnd)
    (later : list (Connection FrameChunk))
    (w : World TurbostreamEventKind TurbostreamCommitEvt)
    (url : string) w0 wb :
  Turbostream.getUrl opts w = (Ok url, w0) →
  Turbostream.forAwait opts before EndReturns w0 = (Ok (), wb) →
  ∃ w',
    Turbostream.start opts
      ({| conn_pulls := before ++ DestroyCalled :: after;
          conn_end := finally |} :: later) w
    = (Ok Returned, w')
    ∧ w_destroyResolved w' = true
    ∧ w_aborted w' = true
    ∧ w_log w' = w_log wb ++ [ResolveDestroy]
    ∧ w_cursorCalls w' = w_cursorCalls wb.
Proof.
  intros Hurl Hbefore. eexists. split.
  - cbn [Turbostream.start conn_pulls conn_end].
    rewrite run_tryCatch_bind, Hurl, run_tryCatch_bind.
    rewrite (turbostream_forAwait_app _ _ _ _ _ _ Hbefore).
    rewrite turbostream_forAwait_destroy
      by (by eapply turbostream_forAwait_Ok).
    reflexivity.
  - done.
Qed.

(** X29.  When a connection of the Turbostream fails with an error that is not
    named AbortError (a thrown null or undefined included), [start]
    reports it as a subscription error, waits
    [subscriptionReconnectDelay ?? 3000] and calls itself; the new
    attempt announces the same fixed address, which holds no cursor:
    the Turbostream resumes from wherever the service is. *)
Theorem turbostream_reconnects_after_delay
    (opts : Turbostream.TurbostreamOptions)
    (conn : Connection FrameChunk) (later : list (Connection FrameChunk))
    (w : World TurbostreamEventKind TurbostreamCommitEvt) (err : Exn) w1 :
  turbostreamAttempt opts conn w = (Throw err, w1) →
  isAbortError err = false →
  Turbostream.start opts (conn :: later) w
  = Turbostream.start opts later
      (logged w1
         [OnError (SubscriptionError err);
          Wait (default (Number_ofZ 3000)
                  (Turbostream.subscriptionReconnectDelay opts))])
  ∧ ∀ w2,
      Turbostream.getUrl opts w2
      = (Ok (turbostreamUrl opts),
         logged w2 [OnInfo ("Turbostream: " +:+ turbostreamUrl opts)]).
Proof.
  intros Hraise Hkind. split.
  - cbn [Turbostream.start].
    rewrite run_tryCatch_bind. unfold turbostreamAttempt in Hraise.
    rewrite run_bind in Hraise.
    destruct (Turbostream.getUrl opts w) as [[url|e] w0].
    + rewrite run_tryCatch_bind, Hraise, Hkind. by run_step.
    + injection Hraise as -> ->. rewrite Hkind. by run_step.
  - done.
Qed.
End JsonSupervisors.

(** ** The theorems on concrete runs *)

Module Checks.
Import Example.
#[local] Existing Instance runtime.
#[local] Existing Instance data.
#[local] Existing Instance collaborators.

Lemma parseAccount_absent_status_witness :
  a_status (account None) = None
  ∧ Firehose.parseAccount (account None)
    = Some {| ae_seq := a_seq (account None);
              ae_time := a_time (account None);
              ae_did := a_did (account None);
              ae_active := a_active (account None);
              ae_status := None |}.
Proof.
  split; [reflexivity|].
  apply (parseAccount_absent_status (account None)). reflexivity.
Defined.

Lemma commit1_keyed (op : RepoOp) :
  op ∈ c_ops commit1 → ∃ key, parseDataKey (path op) = Ok key.
Proof.
  intros Hin.
  repeat (apply elem_of_cons in Hin as [->|Hin]; [by eexists|]).
  by apply elem_of_nil in Hin.
Qed.

Lemma filter_is_conjunction_witness :
  (∃ kept,
     Firehose.maybeFilterOps commit1 ["app.bsky.feed.post"]
       ["did:plc:alice"] = Ok kept
     ∧ (∀ op, op ∈ kept
              ↔ op ∈ c_ops commit1
                ∧ passesFilter ["app.bsky.feed.post"] ["did:plc:alice"]
                    commit1 op)
     ∧ (["app.bsky.feed.post"] = [] → ["did:plc:alice"] = [] →
        kept = c_ops commit1))
  ∧ Jetstream.parseJetstreamKindCommitUnauthenticated jetstreamPost [] []
    = Jetstream.formatCommitEvt jetstreamPost.
Proof.
  destruct (filter_is_conjunction commit1 jetstreamPost
              ["app.bsky.feed.post"] ["did:plc:alice"])
    as (Hreturns & _ & _ & _ & Hall).
  split; [exact (Hreturns commit1_keyed)|exact Hall].
Defined.

(** C4, as it is stated, fails on [commit4] with both lists empty: the
    create of record "a" satisfies both membership checks, yet the
    filter passes no operation: it throws on the other operation, whose
    path is not a data key, and the envelope is reported as a parse
    error with no event of it handed on. *)
Lemma filter_is_conjunction_counterexample :
  post "create" "a" (Some 1) ∈ c_ops commit4
  ∧ passesFilter [] [] commit4 (post "create" "a" (Some 1))
  ∧ Firehose.maybeFilterOps commit4 [] []
    = Throw (newError "Invalid record key: nopath")
  ∧ Firehose.parseCommitUnauthenticated commit4 [] []
    = Throw (newError "Invalid record key: nopath")
  ∧ Firehose.processEvt quiet (EvtCommit commit4) world0
    = (Ok (),
       logged world0
         [OnError (ParseError (newError "Invalid record key: nopath")
                     (EvtCommit commit4))]).
Proof.
  split; [by left|].
  split.
  { exists "app.bsky.feed.post", "a". split; [reflexivity|].
    split; by right. }
  repeat split; reflexivity.
Qed.

Lemma commit1_run :
  Firehose.parseCommitAuthenticated commit1 [] [] false world0
  = (Ok commit1_events, commit1_world).
Proof. reflexivity. Qed.



Lemma commit3_first_check :
  verifyProofs (c_blocks commit3) [claim "a" (Some 1)] (c_repo commit3)
    false
  = Throw (RepoVerificationError "Invalid signature on commit").
Proof. reflexivity. Qed.

Lemma stale_key_retried_once_witness :
  Firehose.parseEvt quiet (EvtCommit commit3) world0
  = (Ok [],
     logged world0
       [ResolveAtprotoKey (c_repo commit3) false;
        VerifyProofs [claim "a" (Some 1)] false;
        ResolveAtprotoKey (c_repo commit3) true;
        VerifyProofs [claim "a" (Some 1)] false;
        OnError
          (ParseError (RepoVerificationError "Invalid signature on commit")
             (EvtCommit commit3))]).
Proof.
  edestruct (stale_key_retried_once quiet commit3 world0 (c_ops commit3)
               [claim "a" (Some 1)] false
               (RepoVerificationError "Invalid signature on commit"))
    as [_ Hretry];
    [reflexivity|reflexivity|reflexivity|discriminate|reflexivity
    |reflexivity|exact commit3_first_check|].
  destruct (Hretry eq_refl) as (_ & Hsecond & _).
  destruct (Hsecond false
              (RepoVerificationError "Invalid signature on commit")
              eq_refl commit3_first_check) as [_ Hreport].
  exact Hreport.
Defined.

(** C3, as it is stated, fails on [commit2]: the create of record "a"
    passes the filter and the reconciliation and its block is in the
    container, but the block does not decode; a parse error is reported
    for the envelope and no event of it comes out, the delete included. *)
Lemma undecodable_record_counterexample :
  passesFilter [] [] commit2 (post "create" "a" (Some 1))
  ∧ Firehose.isVerifiedOp
      (Firehose.verifiedCidsOf [claim "a" (Some 1); claim "c" None])
      (post "create" "a" (Some 1)) = true
  ∧ BlockMap_get (c_blocks commit2) 1 = Some [(1, "")]
  ∧ cborToLexRecord [(1, "")] = Throw (newError "Unexpected end")
  ∧ Firehose.parseEvt quiet (EvtCommit commit2) world0
    = (Ok [],
       logged world0
         [ResolveAtprotoKey "did:plc:alice" false;
          VerifyProofs [claim "a" (Some 1); claim "c" None] true;
          OnError (ParseError (newError "Unexpected end")
                     (EvtCommit commit2))]).
Proof.
  split.
  { exists "app.bsky.feed.post", "a". split; [reflexivity|].
    split; by right. }
  repeat split; reflexivity.
Qed.

Lemma missing_block_skipped_bad_record_reported_witness :
  Firehose.formatCommitOps_loop commit1 (c_blocks commit1)
    ([post "create" "a" (Some 1)] ++ post "create" "b" (Some 2)
       :: [post "delete" "c" None]) []
  = Firehose.formatCommitOps_loop commit1 (c_blocks commit1)
      ([post "create" "a" (Some 1)] ++ [post "delete" "c" None]) []
  ∧ Firehose.formatCommitOps_loop commit2 (c_blocks commit2)
      ([] ++ post "create" "a" (Some 1) :: [post "delete" "c" None]) []
    = Throw (newError "Unexpected end").
Proof.
  split.
  - destruct (missing_block_skipped_bad_record_reported quiet commit1
                (c_blocks commit1)
                [post "create" "a" (Some 1)] [post "delete" "c" None]
                (post "create" "b" (Some 2)) [] (or_introl eq_refl))
      as [Hskip _].
    apply Hskip. right. exists 2. split; reflexivity.
  - destruct (missing_block_skipped_bad_record_reported quiet commit2
                (c_blocks commit2)
                [] [post "delete" "c" None]
                (post "create" "a" (Some 1)) [] (or_introl eq_refl))
      as (_ & Hbad & _).
    apply (Hbad 1 [(1, "")] (newError "Unexpected end") []); reflexivity.
Defined.

Lemma reset_run :
  firehoseAttempt quiet reset world0
  = (Throw (newError "ECONNRESET"), reset_world).
Proof. reflexivity. Qed.

Lemma reconnect_asks_cursor_again_witness :
  Firehose.start quiet (reset :: stopped :: []) world0
  = Firehose.start quiet (stopped :: [])
      (logged reset_world
         [OnError (SubscriptionError (newError "ECONNRESET"));
          Wait (default (Number_ofZ 3000)
                  (Firehose.subscriptionReconnectDelay quiet))])
  ∧ w_cursorCalls (world0 (Env := RepoEvent) (Ev := Event))
    < w_cursorCalls reset_world
  ∧ ∃ l,
      w_log (Firehose.start quiet (reset :: stopped :: []) world0).2
      = w_log reset_world
        ++ OnError (SubscriptionError (newError "ECONNRESET"))
           :: Wait (default (Number_ofZ 3000)
                      (Firehose.subscriptionReconnectDelay quiet))
           :: GetCursor (w_cursorCalls reset_world) :: l
      ∧ ∀ cursor,
          cursors (w_cursorCalls reset_world) = Ok cursor →
          ∃ l', l = OnInfo ("Firehose: " +:+ firehoseUrl quiet cursor)
                    :: l'.
Proof.
  destruct reconnect_asks_cursor_again as (Hrestart & Hcursor & _).
  split.
  - exact (Hrestart quiet reset (stopped :: []) world0
             (newError "ECONNRESET") reset_world reset_run eq_refl).
  - exact (Hcursor quiet cursors reset stopped [] world0
             (newError "ECONNRESET") reset_world
             eq_refl reset_run eq_refl).
Defined.

Lemma abort_named_error_stops_start_witness :
  Firehose.start impatient (reset :: stopped :: []) world0
  = (Ok Returned,
     {| w_log :=
          w_log (world0 (Env := RepoEvent) (Ev := Event))
          ++ [GetCursor (w_cursorCalls
                           (world0 (Env := RepoEvent) (Ev := Event)));
              ResolveDestroy];
        w_cursorCalls :=
          S (w_cursorCalls (world0 (Env := RepoEvent) (Ev := Event)));
        w_aborted := false;
        w_destroyResolved := true |}).
Proof.
  destruct abort_named_error_stops_start as (_ & Hsource & _).
  exact (Hsource impatient aborting reset (stopped :: []) world0
           (NamedError "AbortError" "The operation was aborted")
           eq_refl eq_refl eq_refl eq_refl).
Defined.

Lemma connected_run :
  Firehose.getUrl quiet world0 = (Ok connected_url, connected_world).
Proof. reflexivity. Qed.

Lemma streaming_run :
  Firehose.forAwait quiet [Frame 3] EndReturns connected_world
  = (Ok (), streaming_world).
Proof. reflexivity. Qed.

Lemma destroy_stops_without_reconnect_witness :
  ∃ w',
    Firehose.start quiet
      [{| conn_pulls := [Frame 3] ++ DestroyCalled :: [Frame 1];
          conn_end := EndReturns |}] world0
    = (Ok Returned, w')
    ∧ w_destroyResolved w' = true
    ∧ w_aborted w' = true
    ∧ w_log w' = w_log streaming_world ++ [ResolveDestroy]
    ∧ w_cursorCalls w' = w_cursorCalls streaming_world.
Proof.
  exact (destroy_stops_without_reconnect quiet [Frame 3] [Frame 1]
           EndReturns [] world0 connected_url connected_world
           streaming_world connected_run streaming_run).
Defined.
Lemma commit1_formatted :
  Firehose.formatCommitOps commit1 (c_ops commit1) = Ok commit1_unverified.
Proof. reflexivity. Qed.

Lemma commit1_unauthenticated :
  Firehose.parseCommitUnauthenticated commit1 [] [] = Ok commit1_unverified.
Proof. reflexivity. Qed.

Lemma commit1_created_unverified : commit1_created ∈ commit1_unverified.
Proof. apply list_elem_of_here. Qed.

Lemma commit1_created_verified : commit1_created ∈ commit1_events.
Proof. apply list_elem_of_here. Qed.

Lemma commit1_delete : post "delete" "c" None ∈ c_ops commit1.
Proof. do 2 apply list_elem_of_further. apply list_elem_of_here. Qed.

Lemma events_follow_operation_order_witness :
  ∃ emitted,
    emitted `sublist_of` c_ops commit1
    ∧ Forall2
        (λ op e, m_uri (ce_meta e) = AtUri_make (c_repo commit1) (path op)
                 ∧ ce_event e = action op)
        emitted commit1_unverified.
Proof.
  exact (events_follow_operation_order commit1 (c_ops commit1)
           commit1_unverified commit1_formatted).
Defined.

Lemma commit_event_shape_witness :
  ∃ car,
    readCar (c_blocks commit1) = Ok car
    ∧ m_seq (ce_meta commit1_created) = c_seq commit1
    ∧ m_time (ce_meta commit1_created) = c_time commit1
    ∧ m_commit (ce_meta commit1_created) = c_commit commit1
    ∧ m_rev (ce_meta commit1_created) = c_rev commit1
    ∧ m_blocks (ce_meta commit1_created) = car
    ∧ m_did (ce_meta commit1_created) = c_repo commit1
    ∧ uri_host (m_uri (ce_meta commit1_created)) = c_repo commit1
    ∧ m_collection (ce_meta commit1_created)
      = AtUri_collection (m_uri (ce_meta commit1_created))
    ∧ m_rkey (ce_meta commit1_created)
      = AtUri_rkey (m_uri (ce_meta commit1_created))
    ∧ ((ce_event commit1_created = "delete"
        ∧ ce_cid commit1_created = None
        ∧ ce_record commit1_created = None)
       ∨ ((ce_event commit1_created = "create"
           ∨ ce_event commit1_created = "update")
          ∧ ∃ c recordBytes record,
              ce_cid commit1_created = Some c
              ∧ BlockMap_get car c = Some recordBytes
              ∧ cborToLexRecord recordBytes = Ok record
              ∧ ce_record commit1_created = Some record)).
Proof.
  exact (commit_event_shape commit1 (c_ops commit1) commit1_unverified
           commit1_created commit1_formatted commit1_created_unverified).
Defined.

Lemma unauthenticated_output_witness :
  opInOutput commit1 (post "delete" "c" None) commit1_unverified
  ↔ passesFilter [] [] commit1 (post "delete" "c" None)
    ∧ emittable commit1 (post "delete" "c" None).
Proof.
  exact (unauthenticated_output commit1 [] [] commit1_unverified
           commit1_unauthenticated (post "delete" "c" None) commit1_delete).
Defined.

Lemma authenticated_within_unauthenticated_witness :
  commit1_events `sublist_of` commit1_unverified.
Proof.
  exact (authenticated_within_unauthenticated commit1 [] [] false world0
           commit1_events commit1_world commit1_unverified
           commit1_run commit1_unauthenticated).
Defined.

Lemma events_backed_by_verified_claims_witness :
  ∃ refresh key claims verified cl,
    resolveAtprotoKey (c_repo commit1) refresh = Ok key
    ∧ verifyProofs (c_blocks commit1) claims (c_repo commit1) key
      = Ok verified
    ∧ cl ∈ verified
    ∧ formatDataKey (claim_collection cl) (claim_rkey cl)
      = uri_pathname (m_uri (ce_meta commit1_created))
    ∧ claim_cid cl = ce_cid commit1_created.
Proof.
  exact (events_backed_by_verified_claims commit1 [] [] false world0
           commit1_events commit1_world commit1_created
           commit1_run commit1_created_verified).
Defined.

Lemma alice_unwanted : c_repo commit1 ∉ ["did:plc:bob"].
Proof.
  intros Hin. apply elem_of_cons in Hin as [Hin|Hin]; [discriminate Hin|].
  by apply elem_of_nil in Hin.
Qed.

Lemma bob_wanted : ["did:plc:bob"] ≠ [].
Proof. discriminate. Qed.

Lemma unwanted_repo_costs_nothing_witness :
  Firehose.processEvt onlyBob (EvtCommit commit1) world0 = (Ok (), world0).
Proof.
  exact (unwanted_repo_costs_nothing onlyBob commit1 ["did:plc:bob"] world0
           eq_refl eq_refl bob_wanted alice_unwanted commit1_keyed).
Defined.

Lemma commit4_unkeyed : unkeyed ∈ c_ops commit4.
Proof. apply list_elem_of_further, list_elem_of_here. Qed.

Lemma unkeyed_path :
  parseDataKey (path unkeyed) = Throw (newError "Invalid record key: nopath").
Proof. reflexivity. Qed.

Lemma malformed_path_rejects_whole_commit_witness :
  ∃ err',
    Firehose.processEvt quiet (EvtCommit commit4) world0
    = (Ok (), logged world0 [OnError (ParseError err' (EvtCommit commit4))]).
Proof.
  exact (malformed_path_rejects_whole_commit quiet commit4 unkeyed
           (newError "Invalid record key: nopath") world0
           eq_refl commit4_unkeyed unkeyed_path).
Defined.

Lemma identity_run :
  Firehose.parseIdentity identity false = Ok identity_parsed.
Proof. reflexivity. Qed.

Lemma identity_handle_verified_both_ways_witness :
  ∃ e,
    identity_parsed = Some e
    ∧ ie_seq e = i_seq identity
    ∧ ie_time e = i_time identity
    ∧ ie_did e = i_did identity
    ∧ did_resolve (i_did identity) = Ok (ie_didDocument e)
    ∧ ∀ handle,
        ie_handle e = Some handle →
        false = false
        ∧ handle ≠ ""
        ∧ ∃ doc,
            ie_didDocument e = Some doc
            ∧ documentHandle doc = Ok (Some handle)
            ∧ handle_resolve handle = Ok (Some (i_did identity)).
Proof.
  exact (identity_handle_verified_both_ways identity false identity_parsed
           identity_run).
Defined.

Lemma banned_unknown :
  "banned" ∉ ["takendown"; "suspended"; "deleted"; "deactivated"].
Proof.
  intros Hin.
  repeat (apply elem_of_cons in Hin as [Hin|Hin]; [discriminate Hin|]).
  by apply elem_of_nil in Hin.
Qed.

Lemma banned_not_empty : "banned" ≠ "".
Proof. discriminate. Qed.

Lemma unknown_status_dropped_silently_witness :
  Firehose.processEvt quiet (EvtAccount (account (Some "banned"))) world0
  = (Ok (), world0)
  ∧ Jetstream.processEvt quietJetstream
      (KindAccount "did:plc:alice" 5000%Z (account (Some "banned"))) world0
    = (Ok (), world0).
Proof.
  exact (unknown_status_dropped_silently quiet quietJetstream
           (account (Some "banned")) "banned" "did:plc:alice" 5000%Z
           world0 world0 eq_refl banned_not_empty banned_unknown).
Defined.

Lemma reset_whole_run :
  Firehose.start quiet [reset] world0 = (Ok Awaiting, reset_end).
Proof. reflexivity. Qed.

Lemma tracked_whole_run :
  Firehose.start tracked [reset] world0 = (Ok Awaiting, tracked_end).
Proof. reflexivity. Qed.

Lemma tracked_work_run :
  Firehose.trackedWork tracked (EvtAccount (account (Some "deleted"))) world0
  = (Ok (), tracked_work_end).
Proof. reflexivity. Qed.

Lemma firehose_run_within_options_witness :
  (∃ l, w_log reset_end = w_log (world0 (Env := RepoEvent) (Ev := Event)) ++ l
        ∧ Forall (firehoseMay quiet) l)
  ∧ (∃ l, w_log tracked_end
          = w_log (world0 (Env := RepoEvent) (Ev := Event)) ++ l
          ∧ Forall (firehoseMay tracked) l)
  ∧ ∃ l, w_log tracked_work_end
         = w_log (world0 (Env := RepoEvent) (Ev := Event)) ++ l
         ∧ Forall (firehoseMay tracked) l.
Proof.
  split; [|split].
  - exact (proj1 (firehose_run_within_options quiet [reset] EvtInfo)
             world0 (Ok Awaiting) reset_end reset_whole_run).
  - exact (proj1 (firehose_run_within_options tracked [reset] EvtInfo)
             world0 (Ok Awaiting) tracked_end tracked_whole_run).
  - exact (proj2 (firehose_run_within_options tracked [reset]
                    (EvtAccount (account (Some "deleted"))))
             world0 (Ok ()) tracked_work_end tracked_work_run).
Defined.

Lemma jetstream_whole_run :
  Jetstream.start quietJetstream jetstreamScript world0
  = (Ok Returned, jetstream_end).
Proof. reflexivity. Qed.

Lemma jetstream_tracked_run :
  Jetstream.start trackedJetstream jetstreamScript world0
  = (Ok Returned, jetstream_tracked_end).
Proof. reflexivity. Qed.

Lemma jetstream_work_run :
  Jetstream.trackedWork trackedJetstream (KindCommit jetstreamPost) world0
  = (Ok (), jetstream_work_end).
Proof. reflexivity. Qed.

Lemma jetstream_run_within_options_witness :
  (∃ l, w_log jetstream_end
        = w_log (world0 (Env := JetstreamEventKind) (Ev := JetstreamEvent))
          ++ l
        ∧ Forall (jetstreamMay quietJetstream) l)
  ∧ (∃ l, w_log jetstream_tracked_end
          = w_log (world0 (Env := JetstreamEventKind)
                     (Ev := JetstreamEvent)) ++ l
          ∧ Forall (jetstreamMay trackedJetstream) l)
  ∧ ∃ l, w_log jetstream_work_end
         = w_log (world0 (Env := JetstreamEventKind)
                    (Ev := JetstreamEvent)) ++ l
         ∧ Forall (jetstreamMay trackedJetstream) l.
Proof.
  split; [|split].
  - exact (proj1 (jetstream_run_within_options quietJetstream
                    jetstreamScript (KindCommit jetstreamPost))
             world0 (Ok Returned) jetstream_end jetstream_whole_run).
  - exact (proj1 (jetstream_run_within_options trackedJetstream
                    jetstreamScript (KindCommit jetstreamPost))
             world0 (Ok Returned) jetstream_tracked_end
             jetstream_tracked_run).
  - exact (proj2 (jetstream_run_within_options trackedJetstream
                    jetstreamScript (KindCommit jetstreamPost))
             world0 (Ok ()) jetstream_work_end jetstream_work_run).
Defined.

Lemma turbostream_whole_run :
  Turbostream.start quietTurbostream [reset] world0
  = (Ok Awaiting, turbostream_end).
Proof. reflexivity. Qed.

Lemma turbostream_run_within_options_witness :
  ∃ l, w_log turbostream_end
       = w_log (world0 (Env := TurbostreamEventKind)
                  (Ev := TurbostreamCommitEvt)) ++ l
       ∧ Forall (turbostreamMay quietTurbostream) l.
Proof.
  exact (turbostream_run_within_options quietTurbostream [reset] world0
           (Ok Awaiting) turbostream_end turbostream_whole_run).
Defined.

Lemma stopped_whole_run :
  Firehose.start quiet [stopped] world0 = (Ok Returned, stopped_end).
Proof. reflexivity. Qed.

Lemma calm_run : firehoseAttempt quiet calm world0 = (Ok (), calm_end).
Proof. reflexivity. Qed.

Lemma destroy_after_start_returned_witness :
  (w_destroyResolved stopped_end = true
   ∧ Firehose.destroy stopped_end = (Ok Returned, stopped_end))
  ∧ Firehose.start quiet (calm :: [reset]) world0 = (Ok Returned, calm_end)
  ∧ w_aborted calm_end = false
  ∧ (Firehose.destroy calm_end).1 = Ok Awaiting
  ∧ w_destroyResolved (Firehose.destroy calm_end).2 = false.
Proof.
  destruct (destroy_after_start_returned quiet) as [Hstopped Hclosed].
  split.
  - exact (Hstopped [stopped] world0 stopped_end stopped_whole_run eq_refl).
  - destruct (Hclosed calm [reset] world0 calm_end calm_run)
      as (Hrun & Hsignal & _ & Hlater).
    exact (conj Hrun (conj Hsignal (Hlater eq_refl))).
Defined.

Lemma undecodable_frame_drops_connection_witness :
  Firehose.start quiet
    ({| conn_pulls := [Frame 3] ++ Frame 0 :: [Frame 1];
        conn_end := EndReturns |} :: []) world0
  = Firehose.start quiet []
      (logged streaming_world
         [OnError (SubscriptionError (newError "Error frame"));
          Wait (default (Number_ofZ 3000)
                  (Firehose.subscriptionReconnectDelay quiet))]).
Proof.
  exact (undecodable_frame_drops_connection quiet [Frame 3] [Frame 1] 0
           EndReturns [] world0 connected_url connected_world
           streaming_world (newError "Error frame")
           connected_run streaming_run eq_refl eq_refl).
Defined.

Lemma invalid_frame_reported_and_skipped_witness :
  Firehose.forAwait quiet (Frame 4 :: [Frame 1]) EndReturns world0
  = Firehose.forAwait quiet [Frame 1] EndReturns
      (logged world0
         [OnError
            (ValidationError (newError "Message must have the property"))]).
Proof.
  exact (invalid_frame_reported_and_skipped quiet 4 [Frame 1] EndReturns
           world0 {| header_t := Some "#account"; body := Some 4 |}
           (newError "Message must have the property")
           eq_refl eq_refl eq_refl).
Defined.

Lemma jetstream_bad_frame_skipped_witness :
  Jetstream.forAwait quietJetstream () (Frame 0 :: [Frame 1]) EndReturns
    world0
  = Jetstream.forAwait quietJetstream () [Frame 1] EndReturns
      (logged world0
         [OnError (DecompressError (newError "Unexpected token"))]).
Proof.
  exact (jetstream_bad_frame_skipped quietJetstream () 0 [Frame 1]
           EndReturns world0 (newError "Unexpected token")
           eq_refl eq_refl).
Defined.

Lemma turbostream_bad_frame_skipped_witness :
  Turbostream.forAwait quietTurbostream (Frame 0 :: [Frame 1]) EndReturns
    world0
  = Turbostream.forAwait quietTurbostream [Frame 1] EndReturns
      (logged world0
         [OnError (DecompressError (newError "Unexpected token"))]).
Proof.
  exact (turbostream_bad_frame_skipped quietTurbostream 0 [Frame 1]
           EndReturns world0 (newError "Unexpected token")
           eq_refl eq_refl).
Defined.

Lemma dictionary_failure_reconnects_witness :
  Jetstream.start quietJetstream (noDictionary :: jetstreamScript) world0
  = Jetstream.start quietJetstream jetstreamScript
      (logged world0
         [OnError (SubscriptionError (newError "fetch failed"));
          Wait (default (Number_ofZ 3000)
                  (Jetstream.subscriptionReconnectDelay quietJetstream))]).
Proof.
  exact (dictionary_failure_reconnects quietJetstream noDictionary
           jetstreamScript world0 (newError "fetch failed")
           eq_refl eq_refl).
Defined.

Lemma failing_cursor_source_retried_witness :
  Firehose.start flaky (reset :: []) world0
  = Firehose.start flaky []
      (asked world0
         [GetCursor (w_cursorCalls
                       (world0 (Env := RepoEvent) (Ev := Event)));
          OnError (SubscriptionError (newError "ECONNREFUSED"));
          Wait (default (Number_ofZ 3000)
                  (Firehose.subscriptionReconnectDelay flaky))]).
Proof.
  exact (failing_cursor_source_retried flaky failing reset [] world0
           (newError "ECONNREFUSED") eq_refl eq_refl eq_refl).
Defined.

Lemma runner_tracks_each_envelope_witness :
  Firehose.forAwait tracked (Frame 1 :: []) EndReturns world0
  = Firehose.forAwait tracked [] EndReturns
      (logged world0
         match Firehose.didAndSeqForEvt
                 (EvtAccount (account (Some "deleted"))) with
         | Some (did, seq) =>
             [TrackEvent did seq (EvtAccount (account (Some "deleted")))]
         | None => []
         end).
Proof.
  exact (runner_tracks_each_envelope tracked
           {| Firehose.runner_getCursor := cursors |} 1 [] EndReturns world0
           {| header_t := Some "#account"; body := Some 1 |}
           (EvtAccount (account (Some "deleted")))
           eq_refl eq_refl eq_refl eq_refl).
Defined.
Lemma jetstream_connected_run :
  Jetstream.getUrl quietJetstream world0
  = (Ok jetstream_url, jetstream_connected).
Proof. reflexivity. Qed.

Lemma jetstream_streaming_run :
  Jetstream.forAwait quietJetstream () [Frame 1] EndReturns
    jetstream_connected
  = (Ok (), jetstream_streaming).
Proof. reflexivity. Qed.

Lemma jetstream_destroy_stops_without_reconnect_witness :
  ∃ w',
    Jetstream.start quietJetstream
      ({| Jetstream.jc_dictionary := Ok ();
          Jetstream.jc_socket :=
            {| conn_pulls := [Frame 1] ++ DestroyCalled :: [Frame 2];
               conn_end := EndReturns |} |} :: jetstreamScript) world0
    = (Ok Returned, w')
    ∧ w_destroyResolved w' = true
    ∧ w_aborted w' = true
    ∧ w_log w' = w_log jetstream_streaming ++ [ResolveDestroy]
    ∧ w_cursorCalls w' = w_cursorCalls jetstream_streaming.
Proof.
  exact (jetstream_destroy_stops_without_reconnect quietJetstream ()
           [Frame 1] [Frame 2] EndReturns jetstreamScript world0
           jetstream_url jetstream_connected jetstream_streaming
           jetstream_connected_run jetstream_streaming_run).
Defined.

Lemma turbostream_connected_run :
  Turbostream.getUrl quietTurbostream world0
  = (Ok turbostream_url, turbostream_connected).
Proof. reflexivity. Qed.

Lemma turbostream_streaming_run :
  Turbostream.forAwait quietTurbostream [Frame 1] EndReturns
    turbostream_connected
  = (Ok (), turbostream_streaming).
Proof. reflexivity. Qed.

Lemma turbostream_destroy_stops_without_reconnect_witness :
  ∃ w',
    Turbostream.start quietTurbostream
      ({| conn_pulls := [Frame 1] ++ DestroyCalled :: [Frame 1];
          conn_end := EndReturns |} :: [reset]) world0
    = (Ok Returned, w')
    ∧ w_destroyResolved w' = true
    ∧ w_aborted w' = true
    ∧ w_log w' = w_log turbostream_streaming ++ [ResolveDestroy]
    ∧ w_cursorCalls w' = w_cursorCalls turbostream_streaming.
Proof.
  exact (turbostream_destroy_stops_without_reconnect quietTurbostream
           [Frame 1] [Frame 1] EndReturns [reset] world0
           turbostream_url turbostream_connected turbostream_streaming
           turbostream_connected_run turbostream_streaming_run).
Defined.

Lemma turbostream_reset_run :
  turbostreamAttempt quietTurbostream reset world0
  = (Throw (newError "ECONNRESET"), turbostream_reset).
Proof. reflexivity. Qed.

Lemma turbostream_reconnects_after_delay_witness :
  Turbostream.start quietTurbostream (reset :: []) world0
  = Turbostream.start quietTurbostream []
      (logged turbostream_reset
         [OnError (SubscriptionError (newError "ECONNRESET"));
          Wait (default (Number_ofZ 3000)
                  (Turbostream.subscriptionReconnectDelay
                     quietTurbostream))])
  ∧ ∀ w2,
      Turbostream.getUrl quietTurbostream w2
      = (Ok (turbostreamUrl quietTurbostream),
         logged w2
           [OnInfo ("Turbostream: " +:+ turbostreamUrl quietTurbostream)]).
Proof.
  exact (turbostream_reconnects_after_delay quietTurbostream reset []
           world0 (newError "ECONNRESET") turbostream_reset
           turbostream_reset_run eq_refl).
Defined.
End Checks.
